(** * Interval reconciliation and layered classification rules

    A shallow embedding of the timeline conflict resolver
    ([ProductivitySystem]: [removeDuplicatesAdvanced],
    [resolveOverlapsAdvanced], [consolidateConsecutiveAdvanced],
    [fillSmallGapsIntelligent], [applyMLOptimizations]) and of the rule
    store ([ProductivityRules]: [validateAndMigrateRules], [evaluateRules],
    [applyIntelligentRules], [startAutoSave]), with the properties the
    specification states about them.

    Conventions of the embedding:
    - a JavaScript number is an IEEE-754 binary64 value, [float];
    - a [Date] is its epoch-millisecond value, a [Z]; subtracting and
      comparing dates is exact on these;
    - a field that may be [undefined] is an [option];
    - debug logging and the observability counters ([processingStats],
      [performanceStats]) carry no data the functions read back and are
      left out, except for the log lines of the classification path
      ([evaluateRules], [applyBaseRules], the handlers of
      [applyIntelligentRules] and [classifyActivityAdvanced]) and of
      [updateRule] and [autoAddRule], whose text converts the activity
      code or a class to a string: that conversion can throw, and is
      modelled. *)

From Stdlib Require Import ZArith String Ascii List Bool Lia.
From Stdlib Require Import Floats Uint63.
From stdpp Require Import base option list strings gmap pretty.

Set Warnings "-inexact-float,-register-all".
Local Open Scope Z_scope.

(** ** JavaScript values and coercions *)

Module Js.

(** [Number(z)] for an integer of magnitude below 2^63. *)
Definition float_of_Z (z : Z) : float :=
  match z with
  | Z0 => 0%float
  | Zpos _ => PrimFloat.of_uint63 (Uint63.of_Z z)
  | Zneg _ => PrimFloat.opp (PrimFloat.of_uint63 (Uint63.of_Z (- z)))
  end.

(** Truthiness of a number: [0], [-0] and [NaN] are falsy. *)
Definition truthy_num (x : float) : bool :=
  negb (PrimFloat.is_nan x || PrimFloat.eqb x 0%float).

(** [x || d] for a number [x]. *)
Definition num_or (x d : float) : float :=
  if truthy_num x then x else d.

(** [o.f || d] where the field may be absent. *)
Definition opt_num_or (x : option float) (d : float) : float :=
  match x with
  | Some v => num_or v d
  | None => d
  end.

(** [parseFloat(x) || 0] for a numeric field. *)
Definition parseFloat_or0 (x : float) : float := num_or x 0%float.

(** Truthiness of a string: only the empty string is falsy. *)
Definition truthy_str (s : string) : bool :=
  match s with
  | EmptyString => false
  | String _ _ => true
  end.

(** [o[k] || null] and [if (o[k])] for string-valued tables. *)
Definition truthy_opt (o : option string) : option string :=
  match o with
  | Some s => if truthy_str s then Some s else None
  | None => None
  end.

(** [Math.max(a, b)]. *)
Definition math_max (a b : float) : float :=
  if PrimFloat.is_nan a || PrimFloat.is_nan b then PrimFloat.nan
  else if PrimFloat.ltb a b then b else a.

(** [Math.min(a, b)]. *)
Definition math_min (a b : float) : float :=
  if PrimFloat.is_nan a || PrimFloat.is_nan b then PrimFloat.nan
  else if PrimFloat.ltb b a then b else a.

(** Lookup in an object literal, by insertion order. *)
Fixpoint prop {A : Type} (k : string) (o : list (string * A)) : option A :=
  match o with
  | [] => None
  | (k', v) :: o' => if String.eqb k k' then Some v else prop k o'
  end.

(** [s.includes(sub)]. *)
Definition includes (s sub : string) : bool :=
  match String.index 0 sub s with
  | Some _ => true
  | None => false
  end.

Definition lowerAscii (c : ascii) : ascii :=
  let n := nat_of_ascii c in
  if ((65 <=? n) && (n <=? 90))%nat then ascii_of_nat (n + 32) else c.

(** The second byte of a two-byte UTF-8 letter of the Latin-1 block
    (U+00C0 to U+00DE, the multiplication sign U+00D7 apart). *)
Definition lowerLatin1 (d : ascii) : ascii :=
  let n := nat_of_ascii d in
  if ((128 <=? n) && (n <=? 158) && negb (n =? 151))%nat
  then ascii_of_nat (n + 32) else d.

(** [s.toLowerCase()] on UTF-8 text: ASCII and Latin-1 letters are
    lowered (this covers the Portuguese labels of the tables below),
    every other code point is kept. *)
Fixpoint toLowerCase (s : string) : string :=
  match s with
  | EmptyString => EmptyString
  | String c s' =>
      if (nat_of_ascii c =? 195)%nat then
        match s' with
        | String d s'' => String c (String (lowerLatin1 d) (toLowerCase s''))
        | EmptyString => String c EmptyString
        end
      else String (lowerAscii c) (toLowerCase s')
  end.

(** The names that [Object.prototype] defines. Where an object has no
    own member of such a name, [o[k]] finds the inherited one (a
    function, or the prototype itself for [__proto__]), and
    [o["__proto__"] = x] goes to a setter. The tables below model own
    members only: lookups and assignments at these names are outside
    the model, and the theorems about arbitrary keys exclude them. *)
Definition inheritedNames : list string :=
  [ "constructor"; "toString"; "toLocaleString"; "valueOf";
    "hasOwnProperty"; "isPrototypeOf"; "propertyIsEnumerable";
    "__defineGetter__"; "__defineSetter__"; "__lookupGetter__";
    "__lookupSetter__"; "__proto__" ].

End Js.

(** ** Core configuration ([ProductivityCore]) *)

Module Core.

Record Config : Type := mkConfig {
  conflictResolution : string;
  gapTolerance : float
}.

(** The constructor's [this.config]. *)
Definition defaultConfig : Config :=
  {| conflictResolution := "priority"; gapTolerance := 60%float |}.

(** [this.statusPriority]. *)
Definition statusPriority : list (string * float) :=
  [ ("maintenance", 10%float);
    ("out_of_plant", 9%float);
    ("secondary_motor_on", 8%float);
    ("on", 7%float);
    ("running", 7%float);
    ("stopped", 6%float);
    ("off", 5%float);
    ("not_appropriated", 4%float);
    ("no_data", 3%float) ].

(** [this.core.statusPriority[s] || 0], for a status code that is not
    one of [Js.inheritedNames] (at such a name the lookup finds a
    function, which is truthy and is no number). *)
Definition priorityOf (s : string) : float :=
  Js.opt_num_or (Js.prop s statusPriority) 0%float.

End Core.

(** ** Status records and the conflict resolver ([ProductivitySystem]) *)

Module Timeline.
Import Core.

Record StatusRecord : Type := mkStatus {
  start : Z;
  end_ : Z;
  status : string;
  status_title : option string;
  total_time : float;
  vacancy_code : option string;
  confidence : option float;
  consolidated_count : option float;
  merged_sources : option (list Z);
  gap_filled : bool;
  gap_type : option string;
  anomaly_corrected : bool;
  original_status : option string;
  merge_type : option string;
  original_statuses : option (list string)
}.

(** A record as the status feed delivers it. *)
Definition rawStatus (s e : Z) (st : string) (title : option string)
    (tt : float) (vc : option string) (conf : option float) : StatusRecord :=
  {| start := s; end_ := e; status := st; status_title := title;
     total_time := tt; vacancy_code := vc; confidence := conf;
     consolidated_count := None; merged_sources := None;
     gap_filled := false; gap_type := None;
     anomaly_corrected := false; original_status := None;
     merge_type := None; original_statuses := None |}.

(** *** removeDuplicatesAdvanced *)

(** [Math.round(t / 60000) * 60000]. *)
Definition roundMinute (t : Z) : Z := ((t + 30000) / 60000) * 60000.

Definition strOrUndefined (o : option string) : string :=
  match o with
  | Some s => s
  | None => "undefined"
  end.

(** The template string
    [`${roundedStart}-${roundedEnd}-${status.status}-${status.vacancy_code}`]. *)
Definition dedupKey (s : StatusRecord) : string :=
  pretty (roundMinute (start s)) +:+ "-" +:+
  pretty (roundMinute (end_ s)) +:+ "-" +:+
  status s +:+ "-" +:+ strOrUndefined (vacancy_code s).

(** The [filter] callback, threaded over the [seen] map. *)
Fixpoint dedupFilter (seen : gmap string StatusRecord)
    (l : list StatusRecord) : list StatusRecord :=
  match l with
  | [] => []
  | s :: rest =>
      let key := dedupKey s in
      match seen !! key with
      | Some existing =>
          if PrimFloat.ltb (total_time existing) (total_time s)
          then s :: dedupFilter (<[key := s]> seen) rest
          else dedupFilter seen rest
      | None => s :: dedupFilter (<[key := s]> seen) rest
      end
  end.

Definition removeDuplicatesAdvanced (statusList : list StatusRecord)
    : list StatusRecord :=
  dedupFilter ∅ statusList.

(** *** Sorting by start time

    [Array.prototype.sort] is stable; with the comparator
    [new Date(a.start) - new Date(b.start)] it is the stable sort on
    [start]. *)
Fixpoint insertByStart (x : StatusRecord) (l : list StatusRecord)
    : list StatusRecord :=
  match l with
  | [] => [x]
  | y :: l' =>
      if start x <=? start y then x :: y :: l'
      else y :: insertByStart x l'
  end.

Fixpoint sortByStart (l : list StatusRecord) : list StatusRecord :=
  match l with
  | [] => []
  | x :: l' => insertByStart x (sortByStart l')
  end.

(** *** Conflict resolution *)

(** [ProductivityAnalytics.determineEquipmentGroup]. *)
Definition determineEquipmentGroup (equipName : string) : string :=
  let name := Js.toLowerCase equipName in
  if Js.includes name "alta pressão" || Js.includes name "alta pressao"
  then "Alta Pressão"
  else if Js.includes name "baixa pressão" || Js.includes name "baixa pressao"
  then "Baixa Pressão"
  else if Js.includes name "vácuo" || Js.includes name "vacuo"
  then "Vácuo"
  else if Js.includes name "caminhão" || Js.includes name "caminhao"
  then "Caminhões"
  else if Js.includes name "escavadeira"
  then "Escavadeiras"
  else "Outros".

Definition contextRules : list (string * list (string * float)) :=
  [ ("Alta Pressão", [("stopped", 0.8%float); ("running", 0.9%float)]);
    ("Vácuo", [("secondary_motor_on", 0.9%float); ("maintenance", 0.7%float)]);
    ("Caminhões", [("running", 0.9%float); ("stopped", 0.3%float)]) ].

(** [contextRules[equipmentGroup]?.[status] || 0.5]. *)
Definition getContextScore (st equipmentGroup : string) : float :=
  match Js.prop equipmentGroup contextRules with
  | Some rules => Js.opt_num_or (Js.prop st rules) 0.5%float
  | None => 0.5%float
  end.

Definition withEnd (s : StatusRecord) (e : Z) : StatusRecord :=
  {| start := start s; end_ := e; status := status s;
     status_title := status_title s; total_time := total_time s;
     vacancy_code := vacancy_code s; confidence := confidence s;
     consolidated_count := consolidated_count s;
     merged_sources := merged_sources s;
     gap_filled := gap_filled s; gap_type := gap_type s;
     anomaly_corrected := anomaly_corrected s;
     original_status := original_status s;
     merge_type := merge_type s;
     original_statuses := original_statuses s |}.

Definition withConfidence (s : StatusRecord) (c : float) : StatusRecord :=
  {| start := start s; end_ := end_ s; status := status s;
     status_title := status_title s; total_time := total_time s;
     vacancy_code := vacancy_code s; confidence := Some c;
     consolidated_count := consolidated_count s;
     merged_sources := merged_sources s;
     gap_filled := gap_filled s; gap_type := gap_type s;
     anomaly_corrected := anomaly_corrected s;
     original_status := original_status s;
     merge_type := merge_type s;
     original_statuses := original_statuses s |}.

(** [resolveConflictTraditional]: the object it returns. A duration is
    the difference of two dates as a number. *)
Definition resolveConflictTraditional (cfg : Config)
    (status1 status2 : StatusRecord) : StatusRecord :=
  let priority1 := priorityOf (status status1) in
  let priority2 := priorityOf (status status2) in
  if String.eqb (conflictResolution cfg) "priority" then
    if PrimFloat.ltb priority2 priority1 then withEnd status1 (end_ status2)
    else if PrimFloat.ltb priority1 priority2 then status2
    else status2
  else if String.eqb (conflictResolution cfg) "latest" then status2
  else if String.eqb (conflictResolution cfg) "longest" then
    let duration1 := Js.float_of_Z (end_ status1 - start status1) in
    let duration2 := Js.float_of_Z (end_ status2 - start status2) in
    if PrimFloat.ltb duration2 duration1 then withEnd status1 (end_ status2)
    else status2
  else status2.

Record Pattern : Type := mkPattern {
  patternConfidence : float;
  optimalSplitPoint : float;
  weight1 : float;
  weight2 : float
}.

(** [detectPattern]. It reads [core.getCache(`pattern_${equipmentName}`)];
    no code of the repository stores an entry under a [pattern_] key, so
    [getCache] answers [null] and the default pattern is returned. *)
Definition detectPattern (status1 status2 : StatusRecord)
    (equipmentName : string) : Pattern :=
  {| patternConfidence := 0.5%float; optimalSplitPoint := 0.5%float;
     weight1 := 0.5%float; weight2 := 0.5%float |}.

Inductive Winner : Type := WinnerCurrent | WinnerNew.

(** What [resolveConflictAdvanced] returns, by its [action] field. The
    last case is the object of [resolveConflictTraditional], which has
    no [action]. With the default pattern of [detectPattern]
    (confidence 0.5, not above 0.7) the intelligent mode never answers
    [split_intelligent]. *)
Inductive Resolution : Type :=
| priority_enhanced (winner : Winner) (conf : float)
| merge_weighted (w1 w2 : float)
| no_action (r : StatusRecord).

Definition compositeScore (s : StatusRecord) (equipmentGroup : string)
    : float :=
  (priorityOf (status s) * 0.6
   + Js.opt_num_or (confidence s) 0.5 * 0.3
   + getContextScore (status s) equipmentGroup * 0.1)%float.

Definition resolveConflictAdvanced (cfg : Config)
    (status1 status2 : StatusRecord) (equipmentName : string)
    : Resolution :=
  let equipmentGroup := determineEquipmentGroup equipmentName in
  let score1 := compositeScore status1 equipmentGroup in
  let score2 := compositeScore status2 equipmentGroup in
  if String.eqb (conflictResolution cfg) "priority" then
    if PrimFloat.ltb 0.2 (PrimFloat.abs (score1 - score2))
    then priority_enhanced
           (if PrimFloat.ltb score2 score1 then WinnerCurrent else WinnerNew)
           (PrimFloat.abs (score1 - score2))
    else merge_weighted score1 score2
  else if String.eqb (conflictResolution cfg) "intelligent" then
    (* [pattern.confidence > 0.7] is false for the default pattern *)
    let pattern := detectPattern status1 status2 equipmentName in
    merge_weighted (weight1 pattern) (weight2 pattern)
  else no_action (resolveConflictTraditional cfg status1 status2).

(** [mergeStatusWithWeight]. *)
Definition mergeStatusWithWeight (status1 status2 : StatusRecord)
    (w1 w2 : float) : StatusRecord :=
  let weight1 := Js.num_or w1 0.5 in
  let weight2 := Js.num_or w2 0.5 in
  let totalWeight := (weight1 + weight2)%float in
  let normalizedWeight1 := (weight1 / totalWeight)%float in
  let normalizedWeight2 := (weight2 / totalWeight)%float in
  let first := PrimFloat.ltb normalizedWeight2 normalizedWeight1 in
  let chosenStatus := if first then status1 else status2 in
  {| start := start status1; end_ := end_ status2;
     status := status chosenStatus;
     status_title := status_title chosenStatus;
     total_time := (Js.parseFloat_or0 (total_time status1)
                    + Js.parseFloat_or0 (total_time status2))%float;
     vacancy_code := vacancy_code chosenStatus;
     confidence :=
       Some (if first then normalizedWeight1 else normalizedWeight2);
     consolidated_count := consolidated_count chosenStatus;
     merged_sources := merged_sources chosenStatus;
     gap_filled := gap_filled chosenStatus;
     gap_type := gap_type chosenStatus;
     anomaly_corrected := anomaly_corrected chosenStatus;
     original_status := original_status chosenStatus;
     merge_type := Some "weighted";
     original_statuses := Some [status status1; status status2] |}.

(** [statusStart < currentEnd && (currentEnd - statusStart) > 30000]. *)
Definition hasOverlap (current s : StatusRecord) : bool :=
  (start s <? end_ current) && (30000 <? end_ current - start s).

(** The body of the [if (hasOverlap)] branch: the new [current]. *)
Definition resolveOverlap (cfg : Config) (equipmentName : string)
    (current s : StatusRecord) : StatusRecord :=
  match resolveConflictAdvanced cfg current s equipmentName with
  | merge_weighted w1 w2 => mergeStatusWithWeight current s w1 w2
  | priority_enhanced WinnerCurrent _ =>
      let c := withConfidence current
                 (Js.opt_num_or (confidence current) 0.5 + 0.1)%float in
      withEnd c (if end_ current <? end_ s then end_ s else end_ c)
  | priority_enhanced WinnerNew _ =>
      withConfidence s (Js.opt_num_or (confidence s) 0.5 + 0.1)%float
  | no_action _ => resolveConflictTraditional cfg current s
  end.

(** The [for] loop of [resolveOverlapsAdvanced] from its second
    iteration on: [current] is set, [rest] is what is left to visit; the
    result is what the loop pushes, followed by the final [current]. *)
Fixpoint resolveLoop (cfg : Config) (equipmentName : string)
    (current : StatusRecord) (rest : list StatusRecord)
    : list StatusRecord :=
  match rest with
  | [] => [current]
  | s :: rest' =>
      if hasOverlap current s
      then resolveLoop cfg equipmentName
             (resolveOverlap cfg equipmentName current s) rest'
      else current :: resolveLoop cfg equipmentName s rest'
  end.

Definition resolveOverlapsAdvanced (cfg : Config)
    (statusList : list StatusRecord) (equipmentName : string)
    : list StatusRecord :=
  match statusList with
  | [] | [_] => statusList
  | first :: rest => resolveLoop cfg equipmentName first rest
  end.

(** *** Consolidation *)

(** [getAdaptiveTolerance]. *)
Definition getAdaptiveTolerance (cfg : Config) (status1 status2 : string)
    : float :=
  let baseTimeout := gapTolerance cfg in
  let toleranceRules :=
    [ ("maintenance", (baseTimeout * 3)%float);
      ("running", (baseTimeout * 0.5)%float);
      ("stopped", (baseTimeout * 2)%float);
      ("off", (baseTimeout * 1.5)%float) ] in
  let tolerance1 := Js.opt_num_or (Js.prop status1 toleranceRules) baseTimeout in
  let tolerance2 := Js.opt_num_or (Js.prop status2 toleranceRules) baseTimeout in
  Js.math_max tolerance1 tolerance2.

Definition compatibleGroups : list (list string) :=
  [ ["running"; "on"; "working"];
    ["stopped"; "idle"];
    ["off"; "not_appropriated"];
    ["maintenance"; "error"] ].

Definition groupIncludes (group : list string) (s : string) : bool :=
  existsb (String.eqb s) group.

(** [areStatusesCompatible]. *)
Definition areStatusesCompatible (status1 status2 : string) : bool :=
  existsb (fun group => groupIncludes group status1 && groupIncludes group status2)
          compatibleGroups.

(** [mergeStatusAdvanced]. *)
Definition mergeStatusAdvanced (status1 status2 : StatusRecord)
    : StatusRecord :=
  {| start := start status1; end_ := end_ status2;
     status := status status1;
     status_title := status_title status1;
     total_time := (Js.parseFloat_or0 (total_time status1)
                    + Js.parseFloat_or0 (total_time status2))%float;
     vacancy_code := vacancy_code status1;
     confidence :=
       Some (Js.math_min (Js.opt_num_or (confidence status1) 0.5 + 0.1) 1.0)%float;
     consolidated_count :=
       Some (Js.opt_num_or (consolidated_count status1) 1 + 1)%float;
     merged_sources :=
       Some (match merged_sources status1 with
             | Some l => l
             | None => [start status1]
             end ++ [start status2]);
     gap_filled := gap_filled status1;
     gap_type := gap_type status1;
     anomaly_corrected := anomaly_corrected status1;
     original_status := original_status status1;
     merge_type := merge_type status1;
     original_statuses := original_statuses status1 |}.

(** [(statusStart - currentEnd) / 1000]. *)
Definition gapSeconds (current s : StatusRecord) : float :=
  (Js.float_of_Z (start s - end_ current) / 1000)%float.

(** The condition under which the loop of [consolidateConsecutiveAdvanced]
    merges [status] into [current]. *)
Definition shouldConsolidate (cfg : Config) (current s : StatusRecord)
    : bool :=
  let gap := gapSeconds current s in
  let adaptiveTolerance := getAdaptiveTolerance cfg (status current) (status s) in
  let sameStatus := String.eqb (status current) (status s) in
  let sameStatusTitle := bool_decide (status_title current = status_title s) in
  let withinTolerance := PrimFloat.leb (PrimFloat.abs gap) adaptiveTolerance in
  let compatibleStatuses := areStatusesCompatible (status current) (status s) in
  (sameStatus && sameStatusTitle && withinTolerance)
  || (compatibleStatuses && PrimFloat.leb (PrimFloat.abs gap) 30).

(** The [for] loop from its second iteration on. *)
Fixpoint consolidateLoop (cfg : Config) (current : StatusRecord)
    (rest : list StatusRecord) : list StatusRecord :=
  match rest with
  | [] => [current]
  | s :: rest' =>
      if shouldConsolidate cfg current s
      then consolidateLoop cfg (mergeStatusAdvanced current s) rest'
      else current :: consolidateLoop cfg s rest'
  end.

Definition consolidateConsecutiveAdvanced (cfg : Config)
    (statusList : list StatusRecord) (equipmentName : string)
    : list StatusRecord :=
  match statusList with
  | [] | [_] => statusList
  | first :: rest => consolidateLoop cfg first rest
  end.

(** *** Gap filling *)

Record FillStatus : Type := mkFill {
  fillStatus : string;
  fillTitle : string;
  fillConfidence : float;
  fillType : string
}.

Definition fillRules : list (string * list (string * (string * string * float))) :=
  [ ("Alta Pressão",
      [ ("running-stopped", ("transitioning", "Transicionando", 0.8%float));
        ("stopped-running", ("preparing", "Preparando", 0.8%float)) ]);
    ("Caminhões",
      [ ("running-stopped", ("off", "Motor Desligado", 0.9%float));
        ("stopped-running", ("preparing", "Preparando", 0.7%float)) ]) ].

(** [chooseFillStatus]. *)
Definition chooseFillStatus (prevStatus nextStatus : StatusRecord)
    (equipmentName : string) : FillStatus :=
  let equipmentGroup := determineEquipmentGroup equipmentName in
  let ruleKey := status prevStatus +:+ "-" +:+ status nextStatus in
  match Js.prop equipmentGroup fillRules ≫= Js.prop ruleKey with
  | Some (st, title, conf) =>
      {| fillStatus := st; fillTitle := title; fillConfidence := conf;
         fillType := "contextual" |}
  | None =>
      {| fillStatus := "off"; fillTitle := "Motor Desligado";
         fillConfidence := 0.5%float; fillType := "default" |}
  end.

(** [gapSeconds > 0 && gapSeconds <= this.core.config.gapTolerance * 2]. *)
Definition isSmallGap (cfg : Config) (a b : StatusRecord) : bool :=
  PrimFloat.ltb 0 (gapSeconds a b)
  && PrimFloat.leb (gapSeconds a b) (gapTolerance cfg * 2)%float.

(** The object pushed between [statusList[i]] and [statusList[i + 1]]. *)
Definition fillerBetween (a b : StatusRecord) (equipmentName : string)
    : StatusRecord :=
  let fill := chooseFillStatus a b equipmentName in
  {| start := end_ a; end_ := start b;
     status := fillStatus fill;
     status_title := Some (fillTitle fill);
     total_time := (gapSeconds a b / 3600)%float;
     vacancy_code := vacancy_code a;
     confidence := Some (fillConfidence fill);
     consolidated_count := consolidated_count a;
     merged_sources := merged_sources a;
     gap_filled := true;
     gap_type := Some (fillType fill);
     anomaly_corrected := anomaly_corrected a;
     original_status := original_status a;
     merge_type := merge_type a;
     original_statuses := original_statuses a |}.

(** The indexed [for] loop: every element is pushed, followed by a
    filler when the gap to its successor is small. *)
Fixpoint fillLoop (cfg : Config) (equipmentName : string)
    (l : list StatusRecord) : list StatusRecord :=
  match l with
  | [] => []
  | a :: tl =>
      a :: match tl with
           | [] => []
           | b :: _ =>
               if isSmallGap cfg a b
               then fillerBetween a b equipmentName :: fillLoop cfg equipmentName tl
               else fillLoop cfg equipmentName tl
           end
  end.

Definition fillSmallGapsIntelligent (cfg : Config)
    (statusList : list StatusRecord) (equipmentName : string)
    : list StatusRecord :=
  match statusList with
  | [] | [_] => statusList
  | _ => fillLoop cfg equipmentName statusList
  end.

(** *** Anomaly correction *)

Record AnomalousPattern : Type := mkAnomalous {
  patPrev : string;
  patCurrent : string;
  patNext : string;
  maxDuration : Z
}.

Definition anomalousPatterns : list AnomalousPattern :=
  [ mkAnomalous "running" "stopped" "running" 30000;
    mkAnomalous "off" "running" "off" 60000;
    mkAnomalous "maintenance" "running" "maintenance" 300000 ].

(** [isAnomalousSequence]. *)
Definition isAnomalousSequence (prev current next : StatusRecord) : bool :=
  let duration := end_ current - start current in
  existsb (fun pattern =>
             String.eqb (patPrev pattern) (status prev)
             && String.eqb (patCurrent pattern) (status current)
             && String.eqb (patNext pattern) (status next)
             && (duration <? maxDuration pattern))
          anomalousPatterns.

(** The [forEach] of [findMostLikelyStatus]: the running counts, the
    best count so far and the record that reached it. *)
Definition countStep (st : gmap string Z * Z * StatusRecord)
    (s : StatusRecord) : gmap string Z * Z * StatusRecord :=
  let '(statusCount, maxCount, mostLikely) := st in
  let count := default 0 (statusCount !! status s) + 1 in
  let statusCount' := <[status s := count]> statusCount in
  if maxCount <? count then (statusCount', count, s)
  else (statusCount', maxCount, mostLikely).

(** [findMostLikelyStatus] on a non-empty list [first :: rest]: the
    pair [(status, title)] it returns. *)
Definition findMostLikelyStatus (first : StatusRecord)
    (rest : list StatusRecord) : string * string :=
  let '(_, _, mostLikely) :=
    fold_left countStep (first :: rest) (∅, 0, first) in
  (status mostLikely,
   match Js.truthy_opt (status_title mostLikely) with
   | Some title => title
   | None => status mostLikely
   end).

(** [correctAnomalousSequence]. *)
Definition correctAnomalousSequence (prev current next : StatusRecord)
    : StatusRecord :=
  let avgStatus := findMostLikelyStatus prev [next] in
  {| start := start current; end_ := end_ current;
     status := fst avgStatus;
     status_title := Some (snd avgStatus);
     total_time := total_time current;
     vacancy_code := vacancy_code current;
     confidence := Some 0.6%float;
     consolidated_count := consolidated_count current;
     merged_sources := merged_sources current;
     gap_filled := gap_filled current;
     gap_type := gap_type current;
     anomaly_corrected := true;
     original_status := Some (status current);
     merge_type := merge_type current;
     original_statuses := original_statuses current |}.

(** The loop of [applyMLOptimizations]: [prev] is [statusList[i - 1]]
    of the list being read (not of the list being built). *)
Fixpoint optimizeLoop (prev : option StatusRecord) (l : list StatusRecord)
    : list StatusRecord :=
  match l with
  | [] => []
  | current :: tl =>
      match prev, tl with
      | Some p, next :: _ =>
          if isAnomalousSequence p current next
          then correctAnomalousSequence p current next
          else current
      | _, _ => current
      end :: optimizeLoop (Some current) tl
  end.

Definition applyMLOptimizations (statusList : list StatusRecord)
    (equipmentName : string) : list StatusRecord :=
  if (length statusList <? 3)%nat then statusList
  else optimizeLoop None statusList.

(** *** The pipeline *)

(** [resolveStatusConflictsAdvanced]. *)
Definition resolveStatusConflictsAdvanced (cfg : Config)
    (statusList : list StatusRecord) (equipmentName : string)
    : list StatusRecord :=
  match statusList with
  | [] => []
  | _ =>
      let uniqueStatus := removeDuplicatesAdvanced statusList in
      let sortedStatus := sortByStart uniqueStatus in
      let resolvedStatus :=
        resolveOverlapsAdvanced cfg sortedStatus equipmentName in
      let consolidatedStatus :=
        consolidateConsecutiveAdvanced cfg resolvedStatus equipmentName in
      let finalStatus :=
        fillSmallGapsIntelligent cfg consolidatedStatus equipmentName in
      applyMLOptimizations finalStatus equipmentName
  end.

End Timeline.

(** ** The rule store and the classification engine ([ProductivityRules]) *)

Module Rules.

(** *** JSON values

    The rules document is what [JSON.parse] returns. Only own
    properties are modelled (nothing inherited from [Object.prototype]),
    and arrays, which the schema of the document does not use, are left
    out. *)
Inductive JsValue : Type :=
| JUndefined
| JNull
| JBool (b : bool)
| JNum (x : float)
| JStr (s : string)
| JObj (fields : list (string * JsValue)).

Definition truthy (v : JsValue) : bool :=
  match v with
  | JUndefined | JNull => false
  | JBool b => b
  | JNum x => Js.truthy_num x
  | JStr s => Js.truthy_str s
  | JObj _ => true
  end.

(** [typeof v === 'object']. *)
Definition typeofObject (v : JsValue) : bool :=
  match v with
  | JNull | JObj _ => true
  | _ => false
  end.

(** A computation that may throw. *)
Inductive Exc (A : Type) : Type :=
| Ok (a : A)
| Throw.
Global Arguments Ok {A} a.
Global Arguments Throw {A}.

Global Instance exc_ret : MRet Exc := @Ok.
Global Instance exc_bind : MBind Exc :=
  fun A B f m => match m with Ok a => f a | Throw => Throw end.

(** Whether [v] converts to a string. An object converts through its
    [toString] member: an own member of that name, which is never a
    function in a value of this type, hides [Object.prototype.toString],
    and the conversion is a [TypeError]. *)
Definition convertsToString (v : JsValue) : bool :=
  match v with
  | JObj fields =>
      match Js.prop "toString" fields with
      | Some _ => false
      | None => true
      end
  | _ => true
  end.

(** [`${v}`] inside the message of a log line: only whether the
    conversion throws matters. *)
Definition interpolate (v : JsValue) : Exc unit :=
  if convertsToString v then Ok tt else Throw.

(** [v[k]]: a [TypeError] on [undefined] and [null]; otherwise the own
    member of an object, and [undefined] where there is none. That is
    what the code finds in an object for a name [k] that is not one of
    [Js.inheritedNames], and in a string, a number or a boolean for a
    name that its wrapper does not define (all the names that the code
    itself writes out are of that kind). *)
Definition get (v : JsValue) (k : string) : Exc JsValue :=
  match v with
  | JUndefined | JNull => Throw
  | JObj fields => Ok (default JUndefined (Js.prop k fields))
  | _ => Ok JUndefined
  end.

Fixpoint setField (k : string) (x : JsValue) (fields : list (string * JsValue))
    : list (string * JsValue) :=
  match fields with
  | [] => [(k, x)]
  | (k', v) :: fields' =>
      if String.eqb k k' then (k, x) :: fields'
      else (k', v) :: setField k x fields'
  end.

(** [v[k] = x] in strict mode (class bodies are strict): a [TypeError]
    unless [v] is an object; an own member is written, for a name [k]
    other than [__proto__]. *)
Definition set (v : JsValue) (k : string) (x : JsValue) : Exc JsValue :=
  match v with
  | JObj fields => Ok (JObj (setField k x fields))
  | _ => Throw
  end.

(** [{ ...a, ...b }]. *)
Definition spread (a b : JsValue) : JsValue :=
  let fa := match a with JObj f => f | _ => [] end in
  let fb := match b with JObj f => f | _ => [] end in
  JObj (fold_left (fun acc kv => setField kv.1 kv.2 acc) fb fa).

(** *** The constructor's tables *)

Definition version : string := "2.0.0".

(** [statusDefinitions]: key, [name], [defaultClassification]. *)
Definition statusDefinitions : list (string * (string * string)) :=
  [ ("running", ("Operando", "productive"));
    ("on", ("Motor Ligado", "productive"));
    ("working", ("Trabalhando", "productive"));
    ("stopped", ("Parado", "neutral"));
    ("idle", ("Inativo", "neutral"));
    ("off", ("Motor Desligado", "non-productive"));
    ("maintenance", ("Manutenção", "non-productive"));
    ("out_of_plant", ("Fora da Planta", "non-productive"));
    ("error", ("Erro", "non-productive"));
    ("secondary_motor_on", ("Motor Secundário", "productive"));
    ("not_appropriated", ("Não Apropriado", "neutral"));
    ("no_data", ("Sem Dados", "neutral")) ].

(** [appointmentDefinitions]: key, [name], [defaultClassification]. *)
Definition appointmentDefinitions : list (string * (string * string)) :=
  [ ("Documentação", ("Documentação", "productive"));
    ("Preparação", ("Preparação", "productive"));
    ("Abastecimento", ("Abastecimento", "productive"));
    ("Descarregamento", ("Descarregamento", "productive"));
    ("Manutenção", ("Manutenção", "non-productive"));
    ("Pequenas manutenções", ("Pequenas Manutenções", "non-productive"));
    ("Bloqueio", ("Bloqueio", "non-productive"));
    ("Troca de Equipamento", ("Troca de Equipamento", "non-productive"));
    ("Refeição Motorista", ("Refeição do Motorista", "neutral"));
    ("Aguardando", ("Aguardando", "neutral"));
    ("Aguardando Área", ("Aguardando Área", "neutral"));
    ("Aguardando semáforo/cancela", ("Aguardando Semáforo", "neutral"));
    ("Aguardando carreta bascular", ("Aguardando Carreta", "neutral")) ].

(** [groupDefinitions]: key, [name], [customRules]. *)
Definition groupDefinitions : list (string * (string * list (string * string))) :=
  [ ("alta-pressao", ("Alta Pressão",
       [("stopped", "productive"); ("Aguardando", "productive")]));
    ("baixa-pressao", ("Baixa Pressão", [("idle", "productive")]));
    ("vacuo", ("Vácuo", [("secondary_motor_on", "productive")]));
    ("caminhoes", ("Caminhões",
       [("Aguardando", "non-productive"); ("stopped", "non-productive")]));
    ("escavadeiras", ("Escavadeiras", [("stopped", "neutral")])) ].

Definition classTable (l : list (string * string)) : JsValue :=
  JObj (map (fun kv => (kv.1, JStr kv.2)) l).

(** [generateTelemetryRules]. *)
Definition generateTelemetryRules : JsValue :=
  classTable (map (fun d => (d.1, d.2.2)) statusDefinitions).

(** [generateAppointmentRules]. *)
Definition generateAppointmentRules : JsValue :=
  classTable (map (fun d => (d.1, d.2.2)) appointmentDefinitions).

(** [generateGroupRules]; the descriptive [description] and
    [characteristics] of a group, which no rule reads, are left out. *)
Definition generateGroupRules : JsValue :=
  JObj (map (fun g =>
               (g.1, JObj [ ("name", JStr g.2.1);
                            ("overrides", classTable g.2.2);
                            ("enabled", JBool true) ]))
            groupDefinitions).

Definition defaultGlobalSettings : JsValue :=
  JObj [ ("conflictResolution", JStr "priority");
         ("gapTolerance", JNum 60);
         ("confidenceThreshold", JNum 0.8);
         ("defaultClassification", JStr "neutral");
         ("enableGroupOverrides", JBool true);
         ("enableTimeBasedRules", JBool true);
         ("enableContextualRules", JBool true);
         ("minimumEventDuration", JNum 30);
         ("maximumGapSize", JNum 300);
         ("productivityTargets",
            JObj [ ("overall", JNum 85); ("individual", JNum 70);
                   ("group", JNum 80) ]) ].

Definition defaultTimeBasedRules : JsValue :=
  JObj [ ("businessHours",
            JObj [ ("start", JStr "06:00"); ("end", JStr "18:00");
                   ("modifiers",
                      classTable [ ("Aguardando", "non-productive");
                                   ("stopped", "neutral") ]) ]);
         ("nightShift",
            JObj [ ("start", JStr "18:00"); ("end", JStr "06:00");
                   ("modifiers",
                      classTable [ ("Refeição Motorista", "productive");
                                   ("stopped", "productive") ]) ]) ].

Definition defaultContextualRules : JsValue :=
  JObj [ ("weatherDependent",
            JObj [ ("enabled", JBool true);
                   ("rainModifiers",
                      classTable [ ("Aguardando", "neutral");
                                   ("stopped", "neutral") ]) ]);
         ("maintenanceWindows",
            JObj [ ("enabled", JBool true);
                   ("weeklyMaintenance",
                      JObj [ ("day", JStr "sunday");
                             ("modifiers",
                                classTable
                                  [ ("Manutenção", "neutral");
                                    ("Pequenas manutenções", "neutral") ]) ]) ]) ].

Definition defaultMetadata (now : string) : JsValue :=
  JObj [ ("industry", JStr "Industrial Cleaning & Maintenance");
         ("region", JStr "Brazil");
         ("compliance", JStr "NR-12, NR-33");
         ("lastOptimization", JStr now);
         ("rulesCount", JNum 25);
         ("effectiveness", JNull) ].

(** [createIntelligentDefaultRules]: [this.defaultRules]; [now] is
    [new Date().toISOString()] at the time the module is constructed. *)
Definition defaultRules (now : string) : JsValue :=
  JObj [ ("version", JStr version);
         ("lastModified", JStr now);
         ("createdBy", JStr "ProductivityRules v2.0");
         ("telemetryRules", generateTelemetryRules);
         ("appointmentRules", generateAppointmentRules);
         ("groupSpecificRules", generateGroupRules);
         ("globalSettings", defaultGlobalSettings);
         ("timeBasedRules", defaultTimeBasedRules);
         ("contextualRules", defaultContextualRules);
         ("metadata", defaultMetadata now) ].

(** *** Validation, migration and loading *)

Definition requiredFields : list string :=
  ["telemetryRules"; "appointmentRules"; "globalSettings"].

Definition validClassifications : list string :=
  ["productive"; "non-productive"; "neutral"].

(** [validClassifications.includes(classification)]. *)
Definition isValidClassification (v : JsValue) : bool :=
  match v with
  | JStr s => existsb (String.eqb s) validClassifications
  | _ => false
  end.

(** [rules[k]] where [rules] is known to be an object. *)
Definition field (rules : JsValue) (k : string) : JsValue :=
  match rules with
  | JObj fields => default JUndefined (Js.prop k fields)
  | _ => JUndefined
  end.

Definition setIn (rules : JsValue) (k : string) (x : JsValue) : JsValue :=
  match rules with
  | JObj fields => JObj (setField k x fields)
  | _ => rules
  end.

Definition fillMissing (k : string) (x : JsValue) (rules : JsValue) : JsValue :=
  if truthy (field rules k) then rules else setIn rules k x.

(** [migrateRulesVersion]: the document after the in-place update.
    [created] is the time stamp of [this.defaultRules], [now] the time
    of the call. The entry the migration adds to [ruleHistory] is an
    audit record that nothing reads back. *)
Definition migrateRulesVersion (created now : string) (rules : JsValue)
    : JsValue :=
  let r1 := setIn rules "version" (JStr version) in
  let r2 := setIn r1 "lastModified" (JStr now) in
  let r3 := fillMissing "groupSpecificRules" generateGroupRules r2 in
  let r4 := fillMissing "timeBasedRules" defaultTimeBasedRules r3 in
  let r5 := fillMissing "contextualRules" defaultContextualRules r4 in
  let r6 := fillMissing "metadata" (defaultMetadata created) r5 in
  setIn r6 "globalSettings"
    (spread defaultGlobalSettings (field r6 "globalSettings")).

(** [!rules.version || rules.version < this.version]: the relational
    comparison is lexicographic between strings, and false between the
    string ['2.0.0'] and a number, a boolean or an object. *)
Definition needsMigration (rules : JsValue) : bool :=
  match field rules "version" with
  | JStr v => negb (Js.truthy_str v) || String.ltb v version
  | v => negb (truthy v)
  end.

(** [validateAndMigrateRules]: the boolean it returns, and the
    document as the call leaves it. *)
Definition validateAndMigrateRules (created now : string) (rules : JsValue)
    : bool * JsValue :=
  if negb (truthy rules) || negb (typeofObject rules) then (false, rules)
  else if negb (forallb (fun f => truthy (field rules f)
                                  && typeofObject (field rules f))
                        requiredFields)
  then (false, rules)
  else
    let rules' :=
      if needsMigration rules then migrateRulesVersion created now rules
      else rules in
    let entries :=
      match field rules' "telemetryRules" with
      | JObj fields => fields
      | _ => []
      end in
    (forallb (fun kv => isValidClassification kv.2) entries, rules').

(** [loadRulesFromGitHub]: [fetched] is the parsed remote document,
    [None] when the request or the parse fails. *)
Definition loadRulesFromGitHub (created now : string)
    (fetched : option JsValue) : option JsValue :=
  match fetched with
  | Some rules =>
      let '(ok, rules') := validateAndMigrateRules created now rules in
      if ok then Some rules' else None
  | None => None
  end.

(** [loadSavedOrDefaultRules]: the [rulesConfig] it installs. [saved] is
    the parsed [localStorage] entry; a missing entry and one that
    [JSON.parse] rejects both end in the defaults. *)
Definition loadSavedOrDefaultRules (created now : string)
    (fetched saved : option JsValue) : JsValue :=
  match loadRulesFromGitHub created now fetched with
  | Some githubRules => githubRules
  | None =>
      match saved with
      | Some parsed =>
          let '(ok, parsed') := validateAndMigrateRules created now parsed in
          if ok then parsed' else spread (JObj []) (defaultRules created)
      | None => spread (JObj []) (defaultRules created)
      end
  end.

(** *** Classification *)

(** An activity code as a caller may pass it: a string, [undefined],
    [null], any other value that converts to a string (a number, a
    boolean, an object), of which the code only uses the truthiness and
    the string conversion, or an object that does not convert to a
    string (a record of the JSON feed with an own [toString] member). *)
Inductive Activity : Type :=
| AUndefined
| ANull
| AStr (s : string)
| AOther (isTruthy : bool) (key : string)
| ANoText.

Definition activityTruthy (a : Activity) : bool :=
  match a with
  | AUndefined | ANull => false
  | AStr s => Js.truthy_str s
  | AOther b _ => b
  | ANoText => true
  end.

(** The string conversion of [activity], as the property key of
    [table[activity]] and as [`${activity}`] in a log line: a
    [TypeError] for an object that does not convert. *)
Definition activityKey (a : Activity) : Exc string :=
  match a with
  | AUndefined => Ok "undefined"
  | ANull => Ok "null"
  | AStr s => Ok s
  | AOther _ k => Ok k
  | ANoText => Throw
  end.

(** [table[activity]]. *)
Definition tableAt (table : JsValue) (a : Activity) : Exc JsValue :=
  k ← activityKey a; get table k.

(** [activity.toLowerCase()]: only strings have the method. *)
Definition activityToLowerCase (a : Activity) : Exc string :=
  match a with
  | AStr s => Ok (Js.toLowerCase s)
  | _ => Throw
  end.

(** The text of a log line that names the activity and a value. *)
Definition logLine (a : Activity) (v : JsValue) : Exc unit :=
  _ ← activityKey a; interpolate v.

(** The local time of a [Date]. *)
Inductive Timestamp : Type :=
| ValidTime (hour minute : nat)
| InvalidDate.

Definition pad2 (n : nat) : string :=
  if (n <? 10)%nat then "0" +:+ pretty n else pretty n.

(** [new Date(timestamp).toTimeString().slice(0, 5)]. *)
Definition timeStr (ts : Timestamp) : string :=
  match ts with
  | ValidTime h m => pad2 h +:+ ":" +:+ pad2 m
  | InvalidDate => "Inval"
  end.

Record Conditions : Type := mkConditions {
  weather : option string;
  isMaintenanceWindow : bool
}.

Record ContextFields : Type := mkContext {
  timestamp : option Timestamp;
  equipmentGroup : option string;
  conditions : option Conditions
}.

(** The [context] argument: [null], or an object. A missing argument
    is the default [{}]. *)
Inductive Context : Type :=
| CtxNull
| CtxObj (c : ContextFields).

Definition emptyContext : Context :=
  CtxObj {| timestamp := None; equipmentGroup := None; conditions := None |}.

(** [context.f]: a [TypeError] on [null]. *)
Definition ctxGet {A : Type} (f : ContextFields → option A) (c : Context)
    : Exc (option A) :=
  match c with
  | CtxNull => Throw
  | CtxObj fields => Ok (f fields)
  end.

(** [timeStr >= v] and [timeStr <= v] for an operand that converts to
    a primitive: lexicographic against a string (an object converts to
    ["[object Object]"]); any other operand makes the comparison
    numeric, and a time text is not a number. *)
Definition geValue (ts : string) (v : JsValue) : bool :=
  match v with
  | JStr s => String.leb s ts
  | JObj _ => String.leb "[object Object]" ts
  | _ => false
  end.

Definition leValue (ts : string) (v : JsValue) : bool :=
  match v with
  | JStr s => String.leb ts s
  | JObj _ => String.leb ts "[object Object]"
  | _ => false
  end.

(** A comparison with [v] inside a condition: a [TypeError] when [v]
    does not convert, for the same reason as [interpolate]. *)
Definition compareTime (compare : string → JsValue → bool) (ts : string)
    (v : JsValue) : Exc bool :=
  if convertsToString v then Ok (compare ts v) else Throw.

Section WithRules.
(** [this.rulesConfig], not [null]. *)
Variable rulesConfig : JsValue.

(** [applyTimeBasedRules]. *)
Definition applyTimeBasedRules (activity : Activity) (activityType : string)
    (ts : Timestamp) : Exc JsValue :=
  let timeStr := timeStr ts in
  timeBasedRules ← get rulesConfig "timeBasedRules";
  businessHours ← get timeBasedRules "businessHours";
  bhStart ← get businessHours "start";
  bhEnd ← get businessHours "end";
  afterStart ← compareTime geValue timeStr bhStart;
  inWindow ← (if afterStart : bool then compareTime leValue timeStr bhEnd
              else Ok false);
  inBusiness ←
    (if inWindow : bool then
       modifiers ← get businessHours "modifiers";
       tableAt modifiers activity
     else Ok JUndefined);
  if truthy inBusiness then Ok inBusiness
  else
    nightShift ← get timeBasedRules "nightShift";
    nsStart ← get nightShift "start";
    nsEnd ← get nightShift "end";
    afterStart ← compareTime geValue timeStr nsStart;
    inWindow ← (if afterStart : bool then Ok true
                else compareTime leValue timeStr nsEnd);
    inNight ←
      (if inWindow : bool then
         modifiers ← get nightShift "modifiers";
         tableAt modifiers activity
       else Ok JUndefined);
    if truthy inNight then Ok inNight else Ok JNull.

(** [applyGroupOverrides]. *)
Definition applyGroupOverrides (activity : Activity) (activityType : string)
    (equipmentGroup : string) : Exc JsValue :=
  groupSpecificRules ← get rulesConfig "groupSpecificRules";
  groupConfig ← get groupSpecificRules equipmentGroup;
  if negb (truthy groupConfig) then Ok JNull
  else
    enabled ← get groupConfig "enabled";
    if negb (truthy enabled) then Ok JNull
    else
      overrides ← get groupConfig "overrides";
      if negb (truthy overrides) then Ok JNull
      else
        v ← tableAt overrides activity;
        Ok (if truthy v then v else JNull).

(** [applyContextualRules]. *)
Definition applyContextualRules (activity : Activity) (activityType : string)
    (conds : Conditions) : Exc JsValue :=
  contextualRules ← get rulesConfig "contextualRules";
  weatherDependent ← get contextualRules "weatherDependent";
  wdEnabled ← get weatherDependent "enabled";
  byWeather ←
    (if truthy wdEnabled && bool_decide (weather conds = Some "rain") then
       rainModifiers ← get weatherDependent "rainModifiers";
       tableAt rainModifiers activity
     else Ok JUndefined);
  if truthy byWeather then Ok byWeather
  else
    maintenanceWindows ← get contextualRules "maintenanceWindows";
    mwEnabled ← get maintenanceWindows "enabled";
    if truthy mwEnabled && isMaintenanceWindow conds then
      weeklyMaintenance ← get maintenanceWindows "weeklyMaintenance";
      maintenanceModifiers ← get weeklyMaintenance "modifiers";
      v ← tableAt maintenanceModifiers activity;
      if truthy v then Ok v else Ok JNull
    else Ok JNull.

(** The two loops of [intelligentFallback] over the constructor's
    tables: the first definition whose key or name occurs in the
    lowered activity. *)
Definition matchDefinition (lowerKey : bool) (activityLower : string)
    (defs : list (string * (string * string))) : option string :=
  (λ d, d.2.2) <$>
  find (fun d =>
          Js.includes activityLower
            (if lowerKey then Js.toLowerCase d.1 else d.1)
          || Js.includes activityLower (Js.toLowerCase d.2.1))
       defs.

(** [intelligentFallback]. *)
Definition intelligentFallback (activity : Activity) (activityType : string)
    : Exc JsValue :=
  activityLower ← activityToLowerCase activity;
  match (if String.eqb activityType "status"
         then matchDefinition false activityLower statusDefinitions
         else matchDefinition true activityLower appointmentDefinitions) with
  | Some classification => Ok (JStr classification)
  | None =>
      globalSettings ← get rulesConfig "globalSettings";
      defaultClassification ← get globalSettings "defaultClassification";
      Ok (if truthy defaultClassification then defaultClassification
          else JStr "neutral")
  end.

(** [applyBaseRules]; the fallback is followed by a log line that
    names its result. *)
Definition applyBaseRules (activity : Activity) (activityType : string)
    : Exc JsValue :=
  ruleSet ← (if String.eqb activityType "status"
             then get rulesConfig "telemetryRules"
             else get rulesConfig "appointmentRules");
  found ← (if truthy ruleSet then tableAt ruleSet activity
           else Ok JUndefined);
  if truthy found then Ok found
  else
    fallbackResult ← intelligentFallback activity activityType;
    _ ← logLine activity fallbackResult;
    Ok fallbackResult.

(** What [evaluateRules] does with the result of the layer that
    decides: it writes a log line that names it, and returns it. *)
Definition logged (activity : Activity) (result : JsValue) : Exc JsValue :=
  _ ← logLine activity result; Ok result.

(** [evaluateRules]. *)
Definition evaluateRules (activity : Activity) (activityType : string)
    (context : Context) : Exc JsValue :=
  globalSettings ← get rulesConfig "globalSettings";
  enableTimeBasedRules ← get globalSettings "enableTimeBasedRules";
  ts ← (if truthy enableTimeBasedRules then ctxGet timestamp context
        else Ok None);
  timeBasedResult ←
    match ts with
    | Some ts => applyTimeBasedRules activity activityType ts
    | None => Ok JNull
    end;
  if truthy timeBasedResult then logged activity timeBasedResult
  else
    enableGroupOverrides ← get globalSettings "enableGroupOverrides";
    group ← (if truthy enableGroupOverrides
             then g ← ctxGet equipmentGroup context; Ok (Js.truthy_opt g)
             else Ok None);
    groupResult ←
      match group with
      | Some g => applyGroupOverrides activity activityType g
      | None => Ok JNull
      end;
    if truthy groupResult then logged activity groupResult
    else
      enableContextualRules ← get globalSettings "enableContextualRules";
      conds ← (if truthy enableContextualRules
               then ctxGet conditions context
               else Ok None);
      contextualResult ←
        match conds with
        | Some c => applyContextualRules activity activityType c
        | None => Ok JNull
        end;
      if truthy contextualResult then logged activity contextualResult
      else
        baseResult ← applyBaseRules activity activityType;
        logged activity baseResult.

End WithRules.

(** [applyIntelligentRules]: the [try]/[catch] around [evaluateRules]
    (the application log written after it cannot throw). The handler
    writes a log line that names the activity before it answers. *)
Definition applyIntelligentRules (rulesConfig : JsValue)
    (activity : Activity) (activityType : string) (context : Context)
    : Exc JsValue :=
  if negb (truthy rulesConfig) then Ok (JStr "neutral")
  else
    match evaluateRules rulesConfig activity activityType context with
    | Ok result => Ok result
    | Throw => _ ← activityKey activity; Ok (JStr "neutral")
    end.

(** [ProductivityAnalytics.classifyActivityAdvanced]; [productivityRules]
    is the rules module, given by its [rulesConfig], or [null]. The
    handler of its [catch] names the activity in a log line too. *)
Definition classifyActivityAdvanced (activity : Activity)
    (activityType : string) (productivityRules : option JsValue)
    (context : Context) : Exc JsValue :=
  match productivityRules with
  | None => Ok (JStr "neutral")
  | Some rulesConfig =>
      if negb (activityTruthy activity) then Ok (JStr "neutral")
      else
        match applyIntelligentRules rulesConfig activity activityType context with
        | Ok classification => Ok classification
        | Throw => _ ← activityKey activity; Ok (JStr "neutral")
        end
  end.

(** *** Mutation and persistence *)

(** The fields of the module that the save cycle reads and writes. *)
Record RulesModule : Type := mkModule {
  rulesConfig : JsValue;
  isDirty : bool
}.

(** [localStorage]: its entries, and whether [setItem] throws (a full
    or disabled store). An entry holds the document that
    [JSON.stringify] serialises. *)
Record Storage : Type := mkStorage {
  items : gmap string JsValue;
  rejectsWrites : bool
}.

Definition setItem (k : string) (v : JsValue) (sto : Storage) : Exc Storage :=
  if rejectsWrites sto then Throw
  else Ok {| items := <[k := v]> (items sto);
             rejectsWrites := rejectsWrites sto |}.

Definition withConfig (m : RulesModule) (rc : JsValue) : RulesModule :=
  {| rulesConfig := rc; isDirty := isDirty m |}.

(** [updateRule]: the module after a call that completes. A call
    throws before it changes anything when the document or the table
    is not an object, and after the change and the setting of [isDirty]
    when its last log line cannot convert [value]. *)
Definition updateRule (type key : string) (value : JsValue)
    (m : RulesModule) : Exc RulesModule :=
  let rc := rulesConfig m in
  if negb (truthy rc) then Ok m
  else
    let targetRules :=
      if String.eqb type "telemetry" || String.eqb type "status"
      then "telemetryRules" else "appointmentRules" in
    cur ← get rc targetRules;
    rc1 ← (if negb (truthy cur) then set rc targetRules (JObj []) else Ok rc);
    table ← get rc1 targetRules;
    table' ← set table key value;
    rc2 ← set rc1 targetRules table';
    _ ← interpolate value;
    Ok {| rulesConfig := rc2; isDirty := true |}.

Record Suggestion : Type := mkSuggestion {
  suggestionType : string;
  suggestionActivity : string;
  suggestedClassification : JsValue
}.

(** [autoAddRule]: the module after a call that completes; its last
    log line converts the suggested class. *)
Definition autoAddRule (suggestion : Suggestion) (m : RulesModule)
    : Exc RulesModule :=
  let rc := rulesConfig m in
  let target :=
    if String.eqb (suggestionType suggestion) "status"
    then "telemetryRules" else "appointmentRules" in
  table ← get rc target;
  table' ← set table (suggestionActivity suggestion)
               (suggestedClassification suggestion);
  rc' ← set rc target table';
  _ ← interpolate (suggestedClassification suggestion);
  Ok {| rulesConfig := rc'; isDirty := true |}.

(** [resetToDefaults]. [defaults] is [this.defaultRules] as it is when
    the call is made: a module that was loaded from the defaults shares
    its tables with that object, so the rules edited since then are in
    it. *)
Definition resetToDefaults (defaults : JsValue) (m : RulesModule)
    : RulesModule :=
  {| rulesConfig := spread (JObj []) defaults; isDirty := true |}.

(** [saveRules]: what it resolves to, with the module and the store as
    it leaves them. Its body has no [await], so a call runs it to the
    end. *)
Definition saveRules (now : string) (m : RulesModule) (sto : Storage)
    : bool * RulesModule * Storage :=
  let rc := rulesConfig m in
  if negb (truthy rc) then (false, m, sto)
  else
    match set rc "lastModified" (JStr now) with
    | Throw => (false, m, sto)
    | Ok r1 =>
        match set r1 "version" (JStr version) with
        | Throw => (false, withConfig m r1, sto)
        | Ok r2 =>
            match (metadata ← get r2 "metadata";
                   metadata' ← set metadata "lastOptimization" (JStr now);
                   set r2 "metadata" metadata') with
            | Throw => (false, withConfig m r2, sto)
            | Ok r3 =>
                match setItem "productivity_rules_v2" r3 sto with
                | Throw => (false, withConfig m r3, sto)
                | Ok sto' => (true, withConfig m r3, sto')
                end
            end
        end
    end.

(** [saveRulesWithBackup], up to the point where its caller goes on:
    the backup write and the whole of [saveRules] run before the
    function first suspends; [saveRulesToGitHub] after that is a
    simulation that stores nothing. *)
Definition saveRulesWithBackup (now : string) (m : RulesModule)
    (sto : Storage) : bool * RulesModule * Storage :=
  let backup :=
    JObj [ ("timestamp", JStr now);
           ("rules", spread (JObj []) (rulesConfig m)) ] in
  match setItem "productivity_rules_backup" backup sto with
  | Throw => (false, m, sto)
  | Ok sto1 =>
      let '(_, m2, sto2) := saveRules now m sto1 in
      (true, m2, sto2)
  end.

(** One firing of the timer that [startAutoSave] installs. *)
Definition autoSaveTick (now : string) (m : RulesModule) (sto : Storage)
    : RulesModule * Storage :=
  if isDirty m then
    let '(_, m', sto') := saveRulesWithBackup now m sto in
    ({| rulesConfig := rulesConfig m'; isDirty := false |}, sto')
  else (m, sto).

End Rules.

(** ** The rule history ([addToHistory], [getHistory])

    The line that [addToHistory] writes to the debug log is left out. *)

Module History.

Record HistoryEntry : Type := mkHistoryEntry {
  entryId : float;
  entryTimestamp : string;
  entryAction : string;
  entryData : Rules.JsValue;
  entryVersion : string;
  entryUser : string
}.

(** [addToHistory]: [ruleHistory] after the call. [id] is
    [Date.now() + Math.random()] and [timestamp] is
    [new Date().toISOString()], both read by the call. *)
Definition addToHistory (id : float) (timestamp action : string)
    (data : Rules.JsValue) (ruleHistory : list HistoryEntry)
    : list HistoryEntry :=
  let historyEntry :=
    {| entryId := id; entryTimestamp := timestamp; entryAction := action;
       entryData := data; entryVersion := Rules.version;
       entryUser := "system" |} in
  let pushed := ruleHistory ++ [historyEntry] in
  if (100 <? length pushed)%nat then tail pushed else pushed.

(** [getHistory]: [this.ruleHistory.slice(-20)]. *)
Definition getHistory (ruleHistory : list HistoryEntry) : list HistoryEntry :=
  drop (length ruleHistory - 20) ruleHistory.

(** One call of [addToHistory], by its arguments and the clock and
    random readings it makes. *)
Record HistoryCall : Type := mkHistoryCall {
  callId : float;
  callTimestamp : string;
  callAction : string;
  callData : Rules.JsValue
}.

Definition entryOf (c : HistoryCall) : HistoryEntry :=
  {| entryId := callId c; entryTimestamp := callTimestamp c;
     entryAction := callAction c; entryData := callData c;
     entryVersion := Rules.version; entryUser := "system" |}.

(** The history after a sequence of calls on a new module, whose
    constructor sets [ruleHistory] to [[]]. *)
Definition historyAfter (calls : list HistoryCall) : list HistoryEntry :=
  foldl (λ h c, addToHistory (callId c) (callTimestamp c) (callAction c)
                  (callData c) h) [] calls.

End History.

(** ** The cache of [ProductivityCore]

    The cache is a [Map] from keys to entries. The lines that the
    methods write to the debug log are left out. *)

Module Cache.

(** A cache entry; [expires] is a time in epoch milliseconds. *)
Record CacheEntry (A : Type) : Type := mkCacheEntry {
  cached : A;
  storedAt : Z;
  expires : Z
}.
Global Arguments mkCacheEntry {A} _ _ _.
Global Arguments cached {A} _.
Global Arguments storedAt {A} _.
Global Arguments expires {A} _.

(** [customTimeout || this.config.cacheTimeout]: [None] is [null];
    timeouts are whole numbers of milliseconds, and 0 is falsy. *)
Definition effectiveTimeout (cacheTimeout : Z) (customTimeout : option Z)
    : Z :=
  match customTimeout with
  | Some t => if t =? 0 then cacheTimeout else t
  | None => cacheTimeout
  end.

(** [setCache]: the map after the call. [t0] and [t1] are its two
    readings of [Date.now()]. *)
Definition setCache {A : Type} (cacheTimeout : Z) (t0 t1 : Z)
    (key : string) (data : A) (customTimeout : option Z)
    (cache : gmap string (CacheEntry A)) : gmap string (CacheEntry A) :=
  let timeout := effectiveTimeout cacheTimeout customTimeout in
  <[key := {| cached := data; storedAt := t0; expires := t1 + timeout |}]>
    cache.

(** [getCache]: what it returns ([None] is [null]) and the map after
    the call; [now] is its reading of [Date.now()]. *)
Definition getCache {A : Type} (now : Z) (key : string)
    (cache : gmap string (CacheEntry A))
    : option A * gmap string (CacheEntry A) :=
  match cache !! key with
  | None => (None, cache)
  | Some entry =>
      if expires entry <? now then (None, delete key cache)
      else (Some (cached entry), cache)
  end.

(** [clearCache]: [None] is the default argument [null]; the empty
    string is falsy as well. *)
Definition clearCache {A : Type} (pattern : option string)
    (cache : gmap string (CacheEntry A)) : gmap string (CacheEntry A) :=
  match pattern with
  | Some p =>
      if Js.truthy_str p
      then filter (λ kv, Js.includes kv.1 p = false) cache
      else ∅
  | None => ∅
  end.

Record CacheStats : Type := mkCacheStats {
  valid : Z;
  expired : Z;
  total : Z
}.

(** [getCacheStats]. *)
Definition getCacheStats {A : Type} (now : Z)
    (cache : gmap string (CacheEntry A)) : CacheStats :=
  let counts :=
    map_fold (λ _ entry (c : Z * Z),
                if expires entry <? now then (c.1, c.2 + 1)
                else (c.1 + 1, c.2))
             (0, 0) cache in
  {| valid := counts.1; expired := counts.2;
     total := Z.of_nat (size cache) |}.

End Cache.

(** ** Reading a line of CSV ([parseCSVLine]) *)

Module Csv.

(** The double quote character. *)
Definition quote : ascii := "034"%char.

Section WithTrim.
(** [String.prototype.trim]. *)
Variable trim : string → string.

(** The loop of [parseCSVLine] over the characters left to read;
    [current] is the field being built. The delimiter is one
    character, [';'] or [','] in [parseCSV]. *)
Fixpoint parseCSVLoop (delimiter : ascii) (line : string)
    (current : string) (inQuotes : bool) : list string :=
  match line with
  | EmptyString => [trim current]
  | String char rest =>
      if Ascii.eqb char quote
      then parseCSVLoop delimiter rest current (negb inQuotes)
      else if Ascii.eqb char delimiter && negb inQuotes
      then trim current :: parseCSVLoop delimiter rest EmptyString inQuotes
      else parseCSVLoop delimiter rest (current +:+ String char EmptyString)
             inQuotes
  end.

(** [parseCSVLine]. *)
Definition parseCSVLine (line : string) (delimiter : ascii) : list string :=
  parseCSVLoop delimiter line EmptyString false.

End WithTrim.

(** [line.split(delimiter)] for a delimiter of one character, as
    [parseCSV] uses it on the header line. *)
Fixpoint splitLoop (delimiter : ascii) (line : string) (current : string)
    : list string :=
  match line with
  | EmptyString => [current]
  | String char rest =>
      if Ascii.eqb char delimiter
      then current :: splitLoop delimiter rest EmptyString
      else splitLoop delimiter rest (current +:+ String char EmptyString)
  end.

Definition split (line : string) (delimiter : ascii) : list string :=
  splitLoop delimiter line EmptyString.

(** The characters of a string. *)
Fixpoint chars (s : string) : list ascii :=
  match s with
  | EmptyString => []
  | String c rest => c :: chars rest
  end.

End Csv.

(** ** Validation of imported records ([validateJSONData])

    The summary line written to the debug log is left out. *)

Module Intake.
Import Rules.

(** [errors.join(sep)]. *)
Fixpoint join (sep : string) (l : list string) : string :=
  match l with
  | [] => EmptyString
  | [s] => s
  | s :: rest => s +:+ sep +:+ join sep rest
  end.

Definition requiredFields : list string :=
  ["vacancy_name"; "status"; "start"; "end"].

Record ValidationResult : Type := mkValidation {
  isValid : bool;
  errors : list string;
  validRecords : list JsValue;
  totalRecords : nat;
  validCount : nat
}.

Section WithParseDate.
(** [this.parseDate], by the time in epoch milliseconds of the [Date] it
    returns; [None] is [null]. It catches its own exceptions, and its
    cache holds what an earlier call with the same text returned. *)
Variable parseDate : JsValue → option Z.

(** The body of the [forEach]: [recordErrors] for one record. Reading
    a field of [null] or [undefined] throws. *)
Definition recordErrors (record : JsValue) : Exc (list string) :=
  missing ←
    mapM (λ f, v ← get record f;
               Ok (if negb (truthy v)
                   then ["Campo obrigatório ausente: " +:+ f] else []))
         requiredFields;
  recordStart ← get record "start";
  recordEnd ← get record "end";
  let dateErrors :=
    if truthy recordStart && truthy recordEnd then
      let startDate := parseDate recordStart in
      let endDate := parseDate recordEnd in
      (if startDate is None then ["Data start inválida"] else [])
      ++ (if endDate is None then ["Data end inválida"] else [])
      ++ match startDate, endDate with
         | Some s, Some e =>
             if e <=? s then ["Data end deve ser posterior à start"] else []
         | _, _ => []
         end
    else [] in
  Ok (concat missing ++ dateErrors).

(** The [forEach] over [data] from position [index] on: the errors and
    the valid records it pushes. *)
Fixpoint validateLoop (index : nat) (data : list JsValue)
    : Exc (list string * list JsValue) :=
  match data with
  | [] => Ok ([], [])
  | record :: rest =>
      errs ← recordErrors record;
      r ← validateLoop (S index) rest;
      Ok (match errs with
          | [] => (r.1, record :: r.2)
          | _ => (("Registro " +:+ pretty (index + 1)%nat +:+ ": "
                   +:+ join ", " errs) :: r.1, r.2)
          end)
  end.

(** [validateJSONData]. *)
Definition validateJSONData (data : list JsValue) : Exc ValidationResult :=
  r ← validateLoop 0 data;
  Ok {| isValid := (length r.1 =? 0)%nat;
        errors := r.1;
        validRecords := r.2;
        totalRecords := length data;
        validCount := length r.2 |}.

(** What makes a record valid: the four fields are truthy and the
    start parses to a time before the end. *)
Definition wellFormed (record : JsValue) : Prop :=
  Forall (λ f, truthy (field record f) = true) requiredFields
  ∧ ∃ s e, parseDate (field record "start") = Some s
           ∧ parseDate (field record "end") = Some e
           ∧ s < e.

End WithParseDate.

End Intake.

(** ** The basic resolver of [productivity-system.js]

    The counters of [processingStats], which the resolver only
    increments, are left out. *)

Module Basic.

(** A status record as the JSON feed gives it: the texts of its
    dates, its status code, and its other fields, which the resolver
    copies. *)
Record RawStatus (A : Type) : Type := mkRawStatus {
  startText : string;
  endText : string;
  statusCode : string;
  otherFields : A
}.
Global Arguments mkRawStatus {A} _ _ _ _.
Global Arguments startText {A} _.
Global Arguments endText {A} _.
Global Arguments statusCode {A} _.
Global Arguments otherFields {A} _.

Section WithDates.
Context {A : Type}.
(** [new Date(text)] as a time in epoch milliseconds; texts that
    [Date] rejects are outside the model. *)
Variable dateOf : string → Z.

(** [`${status.start}-${status.end}-${status.status}`]. *)
Definition key (s : RawStatus A) : string :=
  startText s +:+ "-" +:+ endText s +:+ "-" +:+ statusCode s.

(** The [filter] of [removeDuplicates], with the set [seen]. *)
Fixpoint removeLoop (seen : gset string) (statusList : list (RawStatus A))
    : list (RawStatus A) :=
  match statusList with
  | [] => []
  | s :: rest =>
      if decide (key s ∈ seen) then removeLoop seen rest
      else s :: removeLoop ({[key s]} ∪ seen) rest
  end.

(** [removeDuplicates]. *)
Definition removeDuplicates (statusList : list (RawStatus A))
    : list (RawStatus A) :=
  removeLoop ∅ statusList.

(** [uniqueStatus.sort((a, b) => new Date(a.start) - new Date(b.start))]:
    the sort is stable. *)
Fixpoint insertByDate (x : RawStatus A) (l : list (RawStatus A))
    : list (RawStatus A) :=
  match l with
  | [] => [x]
  | y :: l' =>
      if dateOf (startText x) <=? dateOf (startText y) then x :: y :: l'
      else y :: insertByDate x l'
  end.

Fixpoint sortByDate (l : list (RawStatus A)) : list (RawStatus A) :=
  match l with
  | [] => []
  | x :: l' => insertByDate x (sortByDate l')
  end.

(** One overlap: the new [current]. *)
Definition resolveBasic (current s : RawStatus A) : RawStatus A :=
  let priority1 := Core.priorityOf (statusCode current) in
  let priority2 := Core.priorityOf (statusCode s) in
  if PrimFloat.ltb priority1 priority2 then s
  else if dateOf (endText current) <? dateOf (endText s)
  then {| startText := startText current; endText := endText s;
          statusCode := statusCode current;
          otherFields := otherFields current |}
  else current.

(** The [for] loop from its second iteration on. *)
Fixpoint basicLoop (current : RawStatus A) (rest : list (RawStatus A))
    : list (RawStatus A) :=
  match rest with
  | [] => [current]
  | s :: rest' =>
      if dateOf (startText s) <? dateOf (endText current)
      then basicLoop (resolveBasic current s) rest'
      else current :: basicLoop s rest'
  end.

(** [resolveBasicConflicts] on an array. *)
Definition resolveBasicConflicts (statusList : list (RawStatus A))
    : list (RawStatus A) :=
  match statusList with
  | [] | [_] => statusList
  | _ =>
      match sortByDate (removeDuplicates statusList) with
      | [] => []
      | first :: rest => basicLoop first rest
      end
  end.

(** A record that starts before it ends. *)
Definition validRaw (s : RawStatus A) : Prop :=
  dateOf (startText s) < dateOf (endText s).

(** Every record is valid and none starts before its predecessor
    ends. *)
Fixpoint separated (l : list (RawStatus A)) : Prop :=
  match l with
  | [] => True
  | a :: tl =>
      validRaw a
      ∧ match tl with
        | [] => True
        | b :: _ => dateOf (endText a) ≤ dateOf (startText b)
        end
      ∧ separated tl
  end.

(** Start times do not decrease. *)
Fixpoint ascending (l : list (RawStatus A)) : Prop :=
  match l with
  | [] => True
  | a :: tl =>
      match tl with
      | [] => True
      | b :: _ => dateOf (startText a) ≤ dateOf (startText b)
      end
      ∧ ascending tl
  end.

End WithDates.

End Basic.

(** ** Properties *)

Import Js Core Timeline Rules.

(** *** Predicates of the specification *)

(** [start < end]. *)
Definition validInterval (s : StatusRecord) : Prop := start s < end_ s.

(** The non-overlap invariant as the specification words it:
    [resolved[i].end <= resolved[i+1].start]. *)
Definition nonOverlapping (l : list StatusRecord) : Prop :=
  ∀ i a b, l !! i = Some a → l !! S i = Some b → end_ a ≤ start b.

(** Consecutive intervals overlap by at most [tol] milliseconds. *)
Definition overlapWithin (tol : Z) (l : list StatusRecord) : Prop :=
  ∀ i a b, l !! i = Some a → l !! S i = Some b → end_ a ≤ start b + tol.

(** Starts do not decrease along the list. *)
Definition startsAscending (l : list StatusRecord) : Prop :=
  ∀ i a b, l !! i = Some a → l !! S i = Some b → start a ≤ start b.

(** Every later record starts no earlier than every earlier one. *)
Fixpoint startSorted (l : list StatusRecord) : Prop :=
  match l with
  | [] => True
  | a :: tl => Forall (λ b, start a ≤ start b) tl ∧ startSorted tl
  end.

(** The invariant the stages after sorting maintain: every interval is
    valid, starts ascend, and an interval ends at most 30 s after its
    successor starts. *)
Fixpoint chained (l : list StatusRecord) : Prop :=
  match l with
  | [] => True
  | a :: tl =>
      validInterval a
      ∧ match tl with
        | [] => True
        | b :: _ => start a ≤ start b ∧ end_ a ≤ start b + 30000
        end
      ∧ chained tl
  end.

Definition bounds (s : StatusRecord) : Z * Z := (start s, end_ s).

(** *** Sample data of the scenarios *)

(** Epoch milliseconds of a time of day on 15 January 2024 (UTC). *)
Definition clock (h m sec : Z) : Z :=
  1705276800000 + ((h * 60 + m) * 60 + sec) * 1000.

(** Two records of different, incompatible status that overlap by ten
    seconds. *)
Definition overlapA : StatusRecord :=
  rawStatus (clock 10 0 0) (clock 10 30 0) "running" (Some "Operando")
            0.5 (Some "EQ-1") None.
Definition overlapB : StatusRecord :=
  rawStatus (clock 10 29 50) (clock 11 0 0) "maintenance" (Some "Manutenção")
            0.5 (Some "EQ-1") None.

(** Two records with one dedup key (starts and ends round to 10:00 and
    10:30), the second with the larger [total_time]. *)
Definition dupFirst : StatusRecord :=
  rawStatus (clock 10 0 5) (clock 10 30 10) "running" (Some "Operando")
            0.5 (Some "EQ-1") None.
Definition dupSecond : StatusRecord :=
  rawStatus (clock 10 0 20) (clock 10 30 20) "running" (Some "Operando")
            0.6 (Some "EQ-1") None.

(** Scenario A: 10:00-10:30 running and 10:20-10:45 stopped, both with
    confidence 0.5, on the given day. *)
Definition scenarioA1 (day : Z) (title : option string) (tt : float)
    (vc : option string) : StatusRecord :=
  rawStatus (day + 36000000) (day + 37800000) "running" title tt vc
            (Some 0.5%float).
Definition scenarioA2 (day : Z) (title : option string) (tt : float)
    (vc : option string) : StatusRecord :=
  rawStatus (day + 37200000) (day + 38700000) "stopped" title tt vc
            (Some 0.5%float).

(** The configuration with the priority strategy and a given tolerance. *)
Definition priorityConfig (tolerance : float) : Config :=
  {| conflictResolution := "priority"; gapTolerance := tolerance |}.

(** Scenario D: two running records, the second starting 45 s after the
    first ends at [e]. *)
Definition scenarioD1 (s e : Z) (title : option string) (tt : float)
    (vc : option string) (conf : option float) : StatusRecord :=
  rawStatus s e "running" title tt vc conf.
Definition scenarioD2 (e e2 : Z) (title : option string) (tt : float)
    (vc : option string) (conf : option float) : StatusRecord :=
  rawStatus (e + 45000) e2 "running" title tt vc conf.

(** *** The anomaly corrector, position by position *)

(** What the corrector pushes for [current], given the neighbours it
    reads. *)
Definition optimizeAt (prev : option StatusRecord) (current : StatusRecord)
    (next : option StatusRecord) : StatusRecord :=
  match prev, next with
  | Some p, Some n =>
      if isAnomalousSequence p current n
      then correctAnomalousSequence p current n
      else current
  | _, _ => current
  end.

(** The record before position [i]: [prev0] before the first. *)
Definition prevOf (prev0 : option StatusRecord) (l : list StatusRecord)
    (i : nat) : option StatusRecord :=
  match i with
  | O => prev0
  | S j => l !! j
  end.

Definition occurrences (s : string) (l : list string) : nat :=
  length (filter (λ t, t = s) l).

(** The specification's majority status: a status that occurs at least
    as often as every other, the first such in list order. *)
Definition majorityFirst (l : list string) : option string :=
  find (λ s, forallb (λ t, occurrences t l <=? occurrences s l)%nat l) l.

(** [base] with the status fields of [view]: the status code and title,
    the confidence, and the correction marks. *)
Definition withStatusFieldsOf (base view : StatusRecord) : StatusRecord :=
  {| start := start base; end_ := end_ base;
     status := status view; status_title := status_title view;
     total_time := total_time base; vacancy_code := vacancy_code base;
     confidence := confidence view;
     consolidated_count := consolidated_count base;
     merged_sources := merged_sources base;
     gap_filled := gap_filled base; gap_type := gap_type base;
     anomaly_corrected := anomaly_corrected view;
     original_status := original_status view;
     merge_type := merge_type base;
     original_statuses := original_statuses base |}.

(** *** Predicates on the rule layers *)

(** The time-based layer yields nothing: it is disabled, the context
    has no timestamp, or no window has a modifier for the activity. *)
Definition timeLayerSilent (rulesConfig globalSettings : JsValue)
    (activity : Activity) (activityType : string) (c : ContextFields) : Prop :=
  ∃ enabled,
    get globalSettings "enableTimeBasedRules" = Ok enabled
    ∧ (truthy enabled = false
       ∨ timestamp c = None
       ∨ ∃ ts w, timestamp c = Some ts
                 ∧ applyTimeBasedRules rulesConfig activity activityType ts = Ok w
                 ∧ truthy w = false).

(** The group layer yields nothing: it is disabled, the context names
    no group, or the group has no override for the activity. *)
Definition groupLayerSilent (rulesConfig globalSettings : JsValue)
    (activity : Activity) (activityType : string) (c : ContextFields) : Prop :=
  ∃ enabled,
    get globalSettings "enableGroupOverrides" = Ok enabled
    ∧ (truthy enabled = false
       ∨ Js.truthy_opt (equipmentGroup c) = None
       ∨ ∃ g w, Js.truthy_opt (equipmentGroup c) = Some g
                ∧ applyGroupOverrides rulesConfig activity activityType g = Ok w
                ∧ truthy w = false).

(** The contextual layer yields nothing: it is disabled, the context
    has no conditions, or no contextual modifier applies. *)
Definition contextLayerSilent (rulesConfig globalSettings : JsValue)
    (activity : Activity) (activityType : string) (c : ContextFields) : Prop :=
  ∃ enabled,
    get globalSettings "enableContextualRules" = Ok enabled
    ∧ (truthy enabled = false
       ∨ conditions c = None
       ∨ ∃ cs w, conditions c = Some cs
                 ∧ applyContextualRules rulesConfig activity activityType cs = Ok w
                 ∧ truthy w = false).



(** A stored document of the current version whose appointment table
    holds a value outside the three classes. *)
Definition invalidAppointmentDocument : JsValue :=
  JObj [ ("version", JStr "2.0.0");
         ("telemetryRules", JObj [("running", JStr "productive")]);
         ("appointmentRules", JObj [("Manutenção", JStr "sometimes")]);
         ("globalSettings", JObj [("defaultClassification", JStr "neutral")]) ].

(** A module with unsaved changes and a store that rejects writes. *)
Definition dirtyModule : RulesModule :=
  {| rulesConfig := defaultRules "2024-01-15T00:00:00.000Z"; isDirty := true |}.
Definition fullStorage : Storage :=
  {| items := ∅; rejectsWrites := true |}.

(** A freshly loaded module, nothing to save. *)
Definition cleanModule : RulesModule :=
  {| rulesConfig := defaultRules "2024-01-15T00:00:00.000Z"; isDirty := false |}.

(** A context in business hours for a high-pressure unit. *)
Definition morningHighPressure : ContextFields :=
  {| timestamp := Some (ValidTime 10 30);
     equipmentGroup := Some "alta-pressao";
     conditions := None |}.
Definition untimedHighPressure : ContextFields :=
  {| timestamp := None;
     equipmentGroup := Some "alta-pressao";
     conditions := None |}.

(** A context that only says the weekly maintenance window is open. *)
Definition maintenanceWindowOnly : ContextFields :=
  {| timestamp := None;
     equipmentGroup := None;
     conditions := Some {| weather := None; isMaintenanceWindow := true |} |}.

(** The fields of the default context [{}]. *)
Definition noContextFields : ContextFields :=
  {| timestamp := None; equipmentGroup := None; conditions := None |}.

(** *** Idempotence *)

(** [chained], with the bounds stated against every later record. *)
Fixpoint stronglyChained (l : list StatusRecord) : Prop :=
  match l with
  | [] => True
  | a :: tl =>
      validInterval a
      ∧ Forall (λ b, start a ≤ start b ∧ end_ a ≤ start b + 30000) tl
      ∧ stronglyChained tl
  end.

(** The relation [P] holds between every two neighbours of the list. *)
Fixpoint adjacentAll (P : StatusRecord → StatusRecord → Prop)
    (l : list StatusRecord) : Prop :=
  match l with
  | [] => True
  | a :: tl =>
      match tl with
      | [] => True
      | b :: _ => P a b
      end ∧ adjacentAll P tl
  end.

(** The chain ConflictResolver, Consolidator, GapFiller, AnomalyCorrector
    on an already normalised list. *)
Definition reconcileChain (cfg : Config) (statusList : list StatusRecord)
    (equipmentName : string) : list StatusRecord :=
  applyMLOptimizations
    (fillSmallGapsIntelligent cfg
       (consolidateConsecutiveAdvanced cfg
          (resolveOverlapsAdvanced cfg statusList equipmentName)
          equipmentName)
       equipmentName)
    equipmentName.

(** Scenario E: running 09:00:00-09:00:20, stopped 09:00:20-09:00:25,
    running 09:00:25-09:10:00. *)
Definition scenarioE : list StatusRecord :=
  [ rawStatus (clock 9 0 0) (clock 9 0 20) "running" (Some "Operando")
              0.1 (Some "EQ-1") None;
    rawStatus (clock 9 0 20) (clock 9 0 25) "stopped" (Some "Parado")
              0.1 (Some "EQ-1") None;
    rawStatus (clock 9 0 25) (clock 9 10 0) "running" (Some "Operando")
              0.1 (Some "EQ-1") None ].

(** *** Proof steps for computations in [Exc] *)

(** Case analysis along a computation in [Exc]. *)
Ltac exc_step :=
  match goal with
  | |- context [mbind _ ?m] => destruct m eqn:?; cbn
  | |- context [if ?b then _ else _] => destruct b eqn:?; cbn
  end.

(** Skip a layer that yields nothing, given [H : ...LayerSilent ...]. *)
Ltac skip_silent_layer H :=
  let en := fresh "en" in
  let Hen := fresh "Hen" in
  let Hoff := fresh "Hoff" in
  let Hnone := fresh "Hnone" in
  let Hsome := fresh "Hsome" in
  let Hres := fresh "Hres" in
  let Hfalse := fresh "Hfalse" in
  destruct H as (en & Hen & [Hoff | [Hnone | (? & ? & Hsome & Hres & Hfalse)]]);
  rewrite Hen; cbn -[Js.truthy_opt];
  [ rewrite Hoff; cbn -[Js.truthy_opt]
  | destruct (truthy en); cbn -[Js.truthy_opt];
    rewrite ?Hnone; cbn -[Js.truthy_opt]
  | destruct (truthy en); cbn -[Js.truthy_opt];
    [ rewrite Hsome; cbn -[Js.truthy_opt]; rewrite Hres; cbn -[Js.truthy_opt];
      rewrite Hfalse
    | ] ].

(** Case analysis on the lookups and conditions of a layer, the key
    comparisons first. *)
Ltac split_layer :=
  cbn -[geValue leValue timeStr];
  repeat (first
            [ match goal with
              | |- context [String.eqb ?a ?b] =>
                  destruct (String.eqb a b) eqn:?
              end
            | match goal with
              | |- context [if ?b then _ else _] => destruct b eqn:?
              end ];
          cbn -[geValue leValue timeStr]);
  try (intros [= <-]; auto).

(** *** The domain of the statements about arbitrary activity codes *)

(** An activity code that converts to a string which is none of the
    names that [Object.prototype] defines. *)
Definition ordinaryActivity (a : Activity) : Prop :=
  ∃ k, activityKey a = Ok k ∧ k ∉ Js.inheritedNames.

(** The tables in which the layers look an activity code up: the
    modifiers of the two time windows, the overrides of group [g], the
    rain and the maintenance modifiers, and the two class tables. *)
Definition activityTables (rulesConfig : JsValue) (g : string)
    : list (Exc JsValue) :=
  [ (timeBasedRules ← get rulesConfig "timeBasedRules";
     businessHours ← get timeBasedRules "businessHours";
     get businessHours "modifiers");
    (timeBasedRules ← get rulesConfig "timeBasedRules";
     nightShift ← get timeBasedRules "nightShift";
     get nightShift "modifiers");
    (groupSpecificRules ← get rulesConfig "groupSpecificRules";
     groupConfig ← get groupSpecificRules g;
     get groupConfig "overrides");
    (contextualRules ← get rulesConfig "contextualRules";
     weatherDependent ← get contextualRules "weatherDependent";
     get weatherDependent "rainModifiers");
    (contextualRules ← get rulesConfig "contextualRules";
     maintenanceWindows ← get contextualRules "maintenanceWindows";
     weeklyMaintenance ← get maintenanceWindows "weeklyMaintenance";
     get weeklyMaintenance "modifiers");
    get rulesConfig "telemetryRules";
    get rulesConfig "appointmentRules" ].

Definition isPrimitive (v : JsValue) : bool :=
  match v with
  | JBool _ | JNum _ | JStr _ => true
  | _ => false
  end.

(** A rule set none of whose tables is a string, a number or a
    boolean: a lookup in one of those finds the members of its wrapper
    ([length], the characters of a string, the methods), which [get]
    does not have. *)
Definition objectTables (rulesConfig : JsValue) : Prop :=
  ∀ g table, Ok table ∈ activityTables rulesConfig g →
             isPrimitive table = false.

(** A layer decides with [v]: it answers a truthy value that the log
    line of [evaluateRules] can name. *)
Definition layerDecides (layer : Exc JsValue) (v : JsValue) : Prop :=
  layer = Ok v ∧ truthy v = true ∧ convertsToString v = true.

(** A layer fails: it throws, or it answers a truthy value that the
    log line cannot name. *)
Definition layerFails (layer : Exc JsValue) : Prop :=
  layer = Throw
  ∨ ∃ v, layer = Ok v ∧ truthy v = true ∧ convertsToString v = false.

(** A document of the current version that validation accepts, with
    no [timeBasedRules]: a stopped status is non-productive by the
    base mapping and productive by the override of high-pressure
    units. *)
Definition untimedRules : JsValue :=
  JObj [ ("version", JStr "2.0.0");
         ("telemetryRules", JObj [("stopped", JStr "non-productive")]);
         ("appointmentRules", JObj []);
         ("globalSettings",
            JObj [ ("enableTimeBasedRules", JBool true);
                   ("enableGroupOverrides", JBool true);
                   ("defaultClassification", JStr "non-productive") ]);
         ("groupSpecificRules",
            JObj [ ("alta-pressao",
                      JObj [ ("enabled", JBool true);
                             ("overrides",
                                JObj [("stopped", JStr "productive")]) ]) ]) ].

(** The same document with an override that does not convert to a
    string. *)
Definition textlessOverrideRules : JsValue :=
  JObj [ ("version", JStr "2.0.0");
         ("telemetryRules", JObj [("stopped", JStr "non-productive")]);
         ("appointmentRules", JObj []);
         ("globalSettings",
            JObj [ ("enableGroupOverrides", JBool true);
                   ("defaultClassification", JStr "non-productive") ]);
         ("groupSpecificRules",
            JObj [ ("alta-pressao",
                      JObj [ ("enabled", JBool true);
                             ("overrides",
                                JObj [("stopped",
                                       JObj [("toString", JNum 1)])]) ]) ]) ].

(** *** Predicates of the further properties *)

(** The strategies that [resolveConflictAdvanced] hands to the default
    branch of [resolveConflictTraditional] or to its [latest] case. *)
Definition latestLike (cfg : Config) : Prop :=
  conflictResolution cfg ≠ "priority"
  ∧ conflictResolution cfg ≠ "intelligent"
  ∧ conflictResolution cfg ≠ "longest".

(** A filler touches both of its neighbours. *)
Definition bridged (a b : StatusRecord) : Prop :=
  (gap_filled b = true → start b = end_ a)
  ∧ (gap_filled a = true → end_ a = start b).

(** Not a number, or of the given sign. *)
Definition signedOrNan (sign : bool) (x : spec_float) : Prop :=
  match x with
  | S754_zero s | S754_infinity s | S754_finite s _ _ => s = sign
  | S754_nan => True
  end.

(** ** Lemmas on floating-point comparisons *)

Section FloatSign.

Lemma binary_round_aux_sign sx mx ex lx :
  signedOrNan sx (binary_round_aux prec emax sx mx ex lx).
Proof.
  unfold binary_round_aux.
  destruct (shr_fexp prec emax mx ex lx) as [mrs' e'].
  destruct (shr_fexp prec emax _ e' loc_Exact) as [mrs'' e''].
  destruct (shr_m mrs''); simpl; [done | | done].
  by destruct (e'' <=? emax - prec).
Qed.

Lemma of_uint63_sign n : signedOrNan false (Prim2SF (PrimFloat.of_uint63 n)).
Proof.
  rewrite of_uint63_spec. unfold binary_normalize.
  pose proof (Uint63.to_Z_bounded n) as Hb.
  destruct (Uint63.to_Z n) as [|m|m]; simpl; [done | | lia].
  unfold binary_round.
  destruct (shl_align _ _ _) as [mz ez].
  apply binary_round_aux_sign.
Qed.

Lemma opp_sign s x :
  signedOrNan s (Prim2SF x) → signedOrNan (negb s) (Prim2SF (- x)%float).
Proof.
  rewrite FloatAxioms.opp_spec.
  destruct (Prim2SF x); simpl; congruence.
Qed.

Lemma div_1000_sign s x :
  signedOrNan s (Prim2SF x) → signedOrNan s (Prim2SF (x / 1000)%float).
Proof.
  rewrite FloatAxioms.div_spec.
  assert (Prim2SF 1000%float = S754_finite false 8796093022208000 (-43)) as ->
    by (vm_compute; reflexivity).
  unfold SF64div, SFdiv.
  destruct (Prim2SF x) as [sx|sx| |sx mx ex]; simpl; intros H; subst;
    try (by destruct s).
  destruct (SFdiv_core_binary _ _ _ _ _ _) as [[mz ez] lz].
  replace (xorb s false) with s by (by destruct s).
  apply binary_round_aux_sign.
Qed.

Lemma not_positive_of_negative x :
  signedOrNan true (Prim2SF x) → PrimFloat.ltb 0 x = false.
Proof.
  rewrite FloatAxioms.ltb_spec.
  assert (Prim2SF 0%float = S754_zero false) as -> by (vm_compute; reflexivity).
  unfold SFltb, SFcompare.
  destruct (Prim2SF x); simpl; intros H; subst; done.
Qed.

(** A positive quotient [Number(d) / 1000] has a positive dividend. *)
Lemma float_of_Z_div_positive d :
  PrimFloat.ltb 0 (float_of_Z d / 1000)%float = true → 0 < d.
Proof.
  destruct d as [|p|p]; [vm_compute; congruence | lia |].
  intros H. exfalso.
  rewrite not_positive_of_negative in H; [congruence |].
  apply div_1000_sign. unfold float_of_Z.
  apply (opp_sign false), of_uint63_sign.
Qed.

End FloatSign.

(** ** The reconciliation pipeline keeps intervals valid and ordered *)

Section PipelineInvariant.

Variable cfg : Config.
Variable equipmentName : string.

Lemma isSmallGap_positive a b : isSmallGap cfg a b = true → end_ a < start b.
Proof.
  unfold isSmallGap, gapSeconds. intros [H _]%andb_true_iff.
  apply float_of_Z_div_positive in H. lia.
Qed.

(** Deduplication and sorting only select and reorder. *)
Lemma dedupFilter_Forall (P : StatusRecord → Prop) l :
  ∀ seen, Forall P l → Forall P (dedupFilter seen l).
Proof.
  induction l as [|s rest IH]; intros seen Hl; simpl; [constructor |].
  inversion Hl; subst.
  destruct (seen !! dedupKey s) as [existing|].
  - destruct (PrimFloat.ltb _ _); [constructor |]; auto.
  - constructor; auto.
Qed.

Lemma insertByStart_Forall (P : StatusRecord → Prop) x l :
  P x → Forall P l → Forall P (insertByStart x l).
Proof.
  intros Hx. induction 1 as [|y l' Hy Hl IH]; simpl.
  - by constructor.
  - destruct (start x <=? start y); repeat constructor; auto.
Qed.

Lemma sortByStart_Forall (P : StatusRecord → Prop) l :
  Forall P l → Forall P (sortByStart l).
Proof.
  induction 1; simpl; [constructor |]. by apply insertByStart_Forall.
Qed.

Lemma insertByStart_sorted x l :
  startSorted l → startSorted (insertByStart x l).
Proof.
  induction l as [|y l' IH]; simpl; [by intros _; split; [constructor|] |].
  intros [Hy Hl'].
  destruct (start x <=? start y) eqn:E.
  - apply Z.leb_le in E. simpl. repeat split; auto.
    constructor; [done |].
    eapply Forall_impl; [exact Hy |]. simpl. intros; lia.
  - apply Z.leb_gt in E. simpl. split; [| by apply IH].
    apply insertByStart_Forall; [lia | done].
Qed.

Lemma sortByStart_sorted l : startSorted (sortByStart l).
Proof.
  induction l; simpl; [done |]. by apply insertByStart_sorted.
Qed.

(** The head of a chained list starts first. *)
Lemma chained_head_le a tl :
  chained (a :: tl) → Forall (λ b, start a ≤ start b) tl.
Proof.
  revert a. induction tl as [|b tl IH]; intros a; [constructor |].
  intros (_ & [Hab _] & Hc). constructor; [done |].
  eapply Forall_impl; [exact (IH b Hc) |]. simpl. intros; lia.
Qed.

(** What resolving one conflict does to [current]. *)
Lemma resolveConflictTraditional_bounds cur s :
  validInterval cur → validInterval s → start cur ≤ start s →
  let c := resolveConflictTraditional cfg cur s in
  validInterval c ∧ start cur ≤ start c ≤ start s.
Proof.
  unfold validInterval, resolveConflictTraditional. intros Hc Hs Hle.
  repeat case_match; simpl; lia.
Qed.

Lemma resolveOverlap_bounds cur s :
  validInterval cur → validInterval s → start cur ≤ start s →
  let c := resolveOverlap cfg equipmentName cur s in
  validInterval c ∧ start cur ≤ start c ≤ start s.
Proof.
  intros Hc Hs Hle. unfold resolveOverlap.
  destruct (resolveConflictAdvanced _ _ _ _) as [[|] conf|w1 w2|r].
  - unfold validInterval in *. simpl. case_match; simpl; lia.
  - unfold validInterval in *. simpl. lia.
  - unfold validInterval in *. simpl. lia.
  - by apply resolveConflictTraditional_bounds.
Qed.

Lemma hasOverlap_false cur s :
  hasOverlap cur s = false → end_ cur ≤ start s + 30000.
Proof.
  unfold hasOverlap. intros [H|H]%andb_false_iff.
  - apply Z.ltb_ge in H. lia.
  - apply Z.ltb_ge in H. lia.
Qed.

Lemma resolveLoop_chained rest :
  ∀ cur,
    validInterval cur → Forall validInterval rest →
    Forall (λ b, start cur ≤ start b) rest → startSorted rest →
    chained (resolveLoop cfg equipmentName cur rest)
    ∧ ∃ h tl, resolveLoop cfg equipmentName cur rest = h :: tl
              ∧ start cur ≤ start h.
Proof.
  induction rest as [|s rest' IH]; intros cur Hc Hv Hle Hs; simpl.
  - split; [done | by exists cur, []].
  - inversion Hv as [|? ? Hvs Hv']; subst.
    inversion Hle as [|? ? Hcs Hle']; subst.
    destruct Hs as [Hs1 Hs2].
    destruct (hasOverlap cur s) eqn:E.
    + destruct (resolveOverlap_bounds cur s Hc Hvs Hcs) as [Hc' Hb'].
      destruct (IH (resolveOverlap cfg equipmentName cur s)) as (H1 & h & tl & H2 & H3);
        auto.
      { eapply Forall_impl; [exact Hs1 |]. simpl. intros; lia. }
      split; [done |]. exists h, tl. split; [done | lia].
    + apply hasOverlap_false in E.
      destruct (IH s) as (H1 & h & tl & H2 & H3); auto.
      rewrite H2 in *. split; [| exists cur, (h :: tl); split; [done | lia]].
      simpl. split; [done |]. split; [lia |]. exact H1.
Qed.

Lemma resolveOverlapsAdvanced_chained l :
  Forall validInterval l → startSorted l →
  chained (resolveOverlapsAdvanced cfg l equipmentName).
Proof.
  intros Hv Hs. destruct l as [|a [|b rest]]; simpl.
  - done.
  - inversion Hv; subst. done.
  - inversion Hv; subst. destruct Hs as [Hs1 Hs2].
    by apply (resolveLoop_chained (b :: rest) a).
Qed.

Lemma consolidateLoop_chained rest :
  ∀ cur,
    validInterval cur → chained rest →
    Forall (λ b, start cur ≤ start b) rest →
    match rest with [] => True | b :: _ => end_ cur ≤ start b + 30000 end →
    chained (consolidateLoop cfg cur rest)
    ∧ ∃ h tl, consolidateLoop cfg cur rest = h :: tl ∧ start h = start cur.
Proof.
  induction rest as [|s rest' IH]; intros cur Hc Hch Hle Hgap; simpl.
  - split; [done | by exists cur, []].
  - inversion Hle as [|? ? Hcs Hle']; subst.
    pose proof (chained_head_le _ _ Hch) as Hsle.
    destruct Hch as (Hvs & Hnext & Hch').
    destruct (shouldConsolidate cfg cur s).
    + destruct (IH (mergeStatusAdvanced cur s)) as (H1 & h & tl & H2 & H3); auto.
      { unfold validInterval in *. simpl. lia. }
      { destruct rest'; [done |]. simpl. lia. }
      split; [done |]. exists h, tl. split; [done |]. by rewrite H3.
    + destruct (IH s) as (H1 & h & tl & H2 & H3); auto.
      { destruct rest'; [done |]. lia. }
      rewrite H2 in *. split; [| by exists cur, (h :: tl)].
      simpl. split; [done |]. split; [lia |]. exact H1.
Qed.

Lemma consolidateConsecutiveAdvanced_chained l :
  chained l → chained (consolidateConsecutiveAdvanced cfg l equipmentName).
Proof.
  intros Hch. destruct l as [|a [|b rest]]; simpl; [done | done |].
  pose proof (chained_head_le _ _ Hch) as Hle.
  destruct Hch as (Ha & [H1 H2] & Hch').
  by apply (consolidateLoop_chained (b :: rest) a).
Qed.

Lemma fillLoop_cons b tl :
  ∃ tl2, fillLoop cfg equipmentName (b :: tl) = b :: tl2.
Proof. eexists; reflexivity. Qed.

Lemma fillLoop_chained l : chained l → chained (fillLoop cfg equipmentName l).
Proof.
  induction l as [|a tl IH]; [done |].
  intros (Ha & Hnext & Hch). specialize (IH Hch).
  destruct tl as [|b tl']; [done |].
  destruct Hnext as [H1 H2].
  change (fillLoop cfg equipmentName (a :: b :: tl'))
    with (a :: (if isSmallGap cfg a b
                then fillerBetween a b equipmentName
                       :: fillLoop cfg equipmentName (b :: tl')
                else fillLoop cfg equipmentName (b :: tl'))).
  destruct (fillLoop_cons b tl') as [tl2 Hb]. rewrite Hb in *.
  destruct (isSmallGap cfg a b) eqn:E.
  - apply isSmallGap_positive in E.
    unfold validInterval in *. simpl in *.
    destruct IH as (? & ? & ?). repeat split; try lia; done.
  - unfold validInterval in *. simpl in *.
    destruct IH as (? & ? & ?). repeat split; try lia; done.
Qed.

Lemma fillSmallGapsIntelligent_chained l :
  chained l → chained (fillSmallGapsIntelligent cfg l equipmentName).
Proof.
  intros Hch. unfold fillSmallGapsIntelligent.
  destruct l as [|a [|b rest]]; [done | done |].
  by apply fillLoop_chained.
Qed.

(** The anomaly corrector leaves every boundary in place. *)
Lemma optimizeLoop_bounds l :
  ∀ prev, map bounds (optimizeLoop prev l) = map bounds l.
Proof.
  induction l as [|cur tl IH]; intros prev; [done |].
  simpl. rewrite IH. f_equal.
  destruct prev as [p|], tl as [|next tl']; try done.
  by destruct (isAnomalousSequence p cur next).
Qed.

Lemma applyMLOptimizations_bounds l :
  map bounds (applyMLOptimizations l equipmentName) = map bounds l.
Proof.
  unfold applyMLOptimizations.
  destruct (length l <? 3)%nat; [done | apply optimizeLoop_bounds].
Qed.

Lemma chained_bounds l1 :
  ∀ l2, map bounds l1 = map bounds l2 → chained l1 → chained l2.
Proof.
  induction l1 as [|a tl IH]; intros [|a' tl'] Hm; try done.
  simpl in Hm. injection Hm as Hs He Hm.
  intros (Ha & Hnext & Hch). simpl. split; [unfold validInterval in *; lia |].
  split; [| by apply IH].
  destruct tl as [|b tl1], tl' as [|b' tl1']; try done.
  simpl in Hm. injection Hm as Hs' He' Hm. lia.
Qed.

Lemma chained_valid l : chained l → Forall validInterval l.
Proof.
  induction l as [|a tl IH]; [constructor |].
  intros (Ha & _ & Hch). constructor; auto.
Qed.

Lemma chained_adjacent l :
  chained l →
  ∀ i a b, l !! i = Some a → l !! S i = Some b →
           start a ≤ start b ∧ end_ a ≤ start b + 30000.
Proof.
  induction l as [|x tl IH]; intros Hch i a b Ha Hb; [done |].
  destruct Hch as (Hx & Hnext & Hch).
  destruct i as [|i]; simpl in *.
  - injection Ha as <-. destruct tl as [|y tl']; [done |].
    simpl in Hb. injection Hb as <-. done.
  - by apply (IH Hch i).
Qed.

Lemma resolveStatusConflictsAdvanced_chained l :
  Forall validInterval l →
  chained (resolveStatusConflictsAdvanced cfg l equipmentName).
Proof.
  intros Hv. unfold resolveStatusConflictsAdvanced.
  destruct l as [|a l']; [done |].
  eapply chained_bounds; [symmetry; apply applyMLOptimizations_bounds |].
  apply fillSmallGapsIntelligent_chained, consolidateConsecutiveAdvanced_chained,
    resolveOverlapsAdvanced_chained.
  - apply sortByStart_Forall, dedupFilter_Forall, Hv.
  - apply sortByStart_sorted.
Qed.

End PipelineInvariant.

(** ** C1: the non-overlap invariant *)

(** C1, as stated, fails: two valid records of incompatible status that
    overlap by ten seconds pass through the whole pipeline unchanged,
    because an overlap of at most 30 s is not treated as a conflict; the
    first then ends after the second starts. *)
Lemma nonOverlapping_counterexample :
  Forall validInterval [overlapA; overlapB]
  ∧ ¬ nonOverlapping
        (resolveStatusConflictsAdvanced defaultConfig [overlapA; overlapB]
           "Alta Pressão 01").
Proof.
  split.
  - repeat (constructor; [vm_compute; reflexivity |]). constructor.
  - assert (resolveStatusConflictsAdvanced defaultConfig [overlapA; overlapB]
              "Alta Pressão 01" = [overlapA; overlapB]) as ->
      by (vm_compute; reflexivity).
    intros H. specialize (H 0%nat overlapA overlapB eq_refl eq_refl).
    vm_compute in H. by apply H.
Qed.

(** C1 (amended): for every list of valid records ([start < end]) of one
    asset, under every configuration, every interval of the resolved
    sequence has [start < end], starts do not decrease, and
    [resolved[i].end <= resolved[i+1].start + 30 s]: consecutive
    intervals overlap by no more than the resolver's 30-second
    tolerance. *)
Theorem resolved_sequence_within_tolerance (cfg : Config)
    (equipmentName : string) (statusList : list StatusRecord) :
  Forall validInterval statusList →
  let resolved := resolveStatusConflictsAdvanced cfg statusList equipmentName in
  Forall validInterval resolved
  ∧ startsAscending resolved
  ∧ overlapWithin 30000 resolved.
Proof.
  intros Hv resolved.
  pose proof (resolveStatusConflictsAdvanced_chained cfg equipmentName _ Hv) as Hch.
  fold resolved in Hch. split; [by apply chained_valid |].
  split; intros i a b Ha Hb;
    by destruct (chained_adjacent _ Hch i a b Ha Hb).
Qed.

Lemma resolved_sequence_within_tolerance_witness :
  let resolved :=
    resolveStatusConflictsAdvanced defaultConfig [overlapA; overlapB]
      "Alta Pressão 01" in
  Forall validInterval resolved
  ∧ startsAscending resolved
  ∧ overlapWithin 30000 resolved.
Proof.
  apply (resolved_sequence_within_tolerance defaultConfig "Alta Pressão 01"
           [overlapA; overlapB]).
  repeat (constructor; [vm_compute; reflexivity |]). constructor.
Defined.

(** ** C2: deduplication *)

(** When the later of two records with one dedup key reports the larger
    duration, the filter lets both through. *)
Lemma removeDuplicatesAdvanced_keeps_both (a b : StatusRecord) :
  dedupKey a = dedupKey b →
  PrimFloat.ltb (total_time a) (total_time b) = true →
  removeDuplicatesAdvanced [a; b] = [a; b].
Proof.
  intros Hk Hlt. unfold removeDuplicatesAdvanced. simpl.
  rewrite lookup_empty, <- Hk, lookup_insert_eq, Hlt. done.
Qed.

(** When it does not, only the first-seen record is kept. *)
Lemma removeDuplicatesAdvanced_keeps_first (a b : StatusRecord) :
  dedupKey a = dedupKey b →
  PrimFloat.ltb (total_time a) (total_time b) = false →
  removeDuplicatesAdvanced [a; b] = [a].
Proof.
  intros Hk Hlt. unfold removeDuplicatesAdvanced. simpl.
  rewrite lookup_empty, <- Hk, lookup_insert_eq, Hlt. done.
Qed.

(** C2: on two records whose starts round to 10:00 and whose ends round
    to 10:30, with equal status and [vacancy_code], the second reporting
    the larger duration, [removeDuplicatesAdvanced] returns both records
    instead of the second alone, and so does the pipeline's
    normalisation. *)
Theorem removeDuplicatesAdvanced_larger_second :
  dedupKey dupFirst = dedupKey dupSecond
  ∧ PrimFloat.ltb (total_time dupFirst) (total_time dupSecond) = true
  ∧ removeDuplicatesAdvanced [dupFirst; dupSecond] = [dupFirst; dupSecond]
  ∧ sortByStart (removeDuplicatesAdvanced [dupFirst; dupSecond])
    = [dupFirst; dupSecond].
Proof. vm_compute. done. Qed.

(** ** C3: scenario A under the priority strategy *)

Section ScenarioA.

Variables (day : Z) (title1 title2 : option string) (tt1 tt2 : float)
          (vc1 vc2 : option string).

(** Whatever the equipment group, the running record scores higher
    than the stopped one by more than 0.2. *)
Lemma scenarioA_scores (g : string) :
  PrimFloat.ltb 0.2
    (PrimFloat.abs (compositeScore (scenarioA1 day title1 tt1 vc1) g
                    - compositeScore (scenarioA2 day title2 tt2 vc2) g))
  = true
  ∧ PrimFloat.ltb (compositeScore (scenarioA2 day title2 tt2 vc2) g)
                  (compositeScore (scenarioA1 day title1 tt1 vc1) g)
    = true.
Proof.
  unfold compositeScore, getContextScore, contextRules. simpl.
  destruct (String.eqb g "Alta Pressão"); [vm_compute; done |].
  destruct (String.eqb g "Vácuo"); [vm_compute; done |].
  destruct (String.eqb g "Caminhões"); vm_compute; done.
Qed.

Lemma scenarioA_resolution (tolerance : float) (equipmentName : string) :
  ∃ c, resolveConflictAdvanced (priorityConfig tolerance)
         (scenarioA1 day title1 tt1 vc1) (scenarioA2 day title2 tt2 vc2)
         equipmentName
       = priority_enhanced WinnerCurrent c
       ∧ PrimFloat.ltb 0.2 c = true.
Proof.
  unfold resolveConflictAdvanced.
  destruct (scenarioA_scores (determineEquipmentGroup equipmentName)) as [H1 H2].
  cbn [conflictResolution priorityConfig].
  change (String.eqb "priority" "priority") with true. cbv iota.
  rewrite H1, H2. eexists. split; [reflexivity | exact H1].
Qed.

Lemma scenarioA_hasOverlap :
  hasOverlap (scenarioA1 day title1 tt1 vc1) (scenarioA2 day title2 tt2 vc2)
  = true.
Proof.
  unfold hasOverlap. simpl. apply andb_true_iff.
  split; apply Z.ltb_lt; lia.
Qed.

End ScenarioA.

(** C3, as stated, fails: with priority 7 against 6 and equal confidence
    the composite scores differ by 0.6, not by at most 0.2, and the
    resolver answers [priority_enhanced], not [merge_weighted]; the
    resulting record carries no [merge_type]. *)
Lemma scenarioA_weighted_merge_counterexample :
  let s1 := scenarioA1 1705276800000 None 0.5 None in
  let s2 := scenarioA2 1705276800000 None 0.25 None in
  let g := determineEquipmentGroup "EQ-1" in
  PrimFloat.leb (PrimFloat.abs (compositeScore s1 g - compositeScore s2 g)) 0.2
  = false
  ∧ resolveConflictAdvanced (priorityConfig 60) s1 s2 "EQ-1"
    = priority_enhanced WinnerCurrent
        (PrimFloat.abs (compositeScore s1 g - compositeScore s2 g))
  ∧ merge_type <$> resolveOverlapsAdvanced (priorityConfig 60) [s1; s2] "EQ-1"
    = [None].
Proof. vm_compute. done. Qed.

(** C3 (amended): for the intervals 10:00-10:30 running and 10:20-10:45
    stopped, both with confidence 0.5, under the priority strategy with
    priority(running) = 7 and priority(stopped) = 6, the composite scores
    differ by more than 0.2 whatever the equipment group, so the resolver
    applies the priority rule: the running record wins, its confidence is
    raised to 0.6 and its end extended, yielding a single running
    interval spanning 10:00-10:45. *)
Theorem scenarioA_priority_resolution (day : Z) (title1 title2 : option string)
    (tt1 tt2 : float) (vc1 vc2 : option string) (tolerance : float)
    (equipmentName : string) :
  let s1 := scenarioA1 day title1 tt1 vc1 in
  let s2 := scenarioA2 day title2 tt2 vc2 in
  let g := determineEquipmentGroup equipmentName in
  priorityOf "running" = 7%float
  ∧ priorityOf "stopped" = 6%float
  ∧ PrimFloat.ltb 0.2 (PrimFloat.abs (compositeScore s1 g - compositeScore s2 g))
    = true
  ∧ resolveOverlapsAdvanced (priorityConfig tolerance) [s1; s2] equipmentName
    = [rawStatus (day + 36000000) (day + 38700000) "running" title1 tt1 vc1
         (Some 0.6%float)].
Proof.
  intros s1 s2 g. split; [vm_compute; done |]. split; [vm_compute; done |].
  split; [apply scenarioA_scores |].
  unfold resolveOverlapsAdvanced, resolveLoop.
  subst s1 s2. rewrite scenarioA_hasOverlap.
  unfold resolveOverlap.
  destruct (scenarioA_resolution day title1 title2 tt1 tt2 vc1 vc2 tolerance
              equipmentName) as (c & -> & _).
  unfold withEnd, withConfidence, scenarioA1, scenarioA2, rawStatus. simpl.
  assert ((day + 37800000 <? day + 38700000) = true) as ->
    by (apply Z.ltb_lt; lia).
  do 2 f_equal.
Qed.

(** ** C4: scenario D, a 45-second gap between two running records *)

Lemma fill_rule_running_running (g : string) :
  (Js.prop g fillRules ≫= Js.prop "running-running") = None.
Proof.
  unfold fillRules. simpl.
  destruct (String.eqb g "Alta Pressão"); [done |].
  by destruct (String.eqb g "Caminhões").
Qed.

(** C4, as stated, fails: with a base tolerance of 60 s the adaptive
    tolerance of the running/running pair is 30 s, a 45-second gap is not
    within it, and the consolidation pass returns two intervals. *)
Lemma scenarioD_consolidation_counterexample :
  let a := scenarioD1 (clock 8 50 0) (clock 9 0 0) (Some "Operando") 0.1
             (Some "EQ-1") None in
  let b := scenarioD2 (clock 9 0 0) (clock 9 10 0) (Some "Operando") 0.1
             (Some "EQ-1") None in
  start b - end_ a = 45000
  ∧ PrimFloat.leb 45 (getAdaptiveTolerance (priorityConfig 60) "running" "running")
    = false
  ∧ length (consolidateConsecutiveAdvanced (priorityConfig 60) [a; b] "EQ-1")
    = 2%nat.
Proof. vm_compute. done. Qed.

(** C4 (amended): for two consecutive records with status running, a
    gap of 45 seconds between them and a base tolerance of 60 seconds,
    the adaptive tolerance of the running/running pair is 30 seconds
    (60 x 0.5), which does not admit the gap: the consolidation pass
    keeps the two intervals apart, and the gap filler then inserts a
    default filler of status off spanning the 45 seconds. *)
Theorem scenarioD_not_consolidated (strategy : string) (s e e2 : Z)
    (title1 title2 : option string) (tt1 tt2 : float)
    (vc1 vc2 : option string) (conf1 conf2 : option float)
    (equipmentName : string) :
  let cfg := {| conflictResolution := strategy; gapTolerance := 60 |} in
  let a := scenarioD1 s e title1 tt1 vc1 conf1 in
  let b := scenarioD2 e e2 title2 tt2 vc2 conf2 in
  getAdaptiveTolerance cfg "running" "running" = 30%float
  ∧ consolidateConsecutiveAdvanced cfg [a; b] equipmentName = [a; b]
  ∧ ∃ filler,
      fillSmallGapsIntelligent cfg [a; b] equipmentName = [a; filler; b]
      ∧ status filler = "off" ∧ gap_type filler = Some "default"
      ∧ start filler = e ∧ end_ filler = e + 45000.
Proof.
  intros cfg a b.
  assert (gapSeconds a b = 45%float) as Hgap.
  { unfold gapSeconds. simpl.
    replace (e + 45000 - e) with 45000 by lia. vm_compute. done. }
  split; [vm_compute; done |]. split.
  - unfold consolidateConsecutiveAdvanced, consolidateLoop, shouldConsolidate.
    rewrite Hgap.
    change (status a) with "running". change (status b) with "running".
    assert (PrimFloat.leb (PrimFloat.abs 45)
              (getAdaptiveTolerance cfg "running" "running") = false) as ->
      by (vm_compute; done).
    assert (PrimFloat.leb (PrimFloat.abs 45) 30 = false) as ->
      by (vm_compute; done).
    by rewrite !andb_false_r.
  - exists (fillerBetween a b equipmentName).
    unfold fillSmallGapsIntelligent, fillLoop, isSmallGap. rewrite Hgap.
    assert (PrimFloat.ltb 0 45 && PrimFloat.leb 45 (gapTolerance cfg * 2) = true)
      as -> by (vm_compute; done).
    split; [done |].
    unfold fillerBetween, chooseFillStatus.
    change (status a +:+ "-" +:+ status b) with "running-running".
    rewrite fill_rule_running_running. simpl. done.
Qed.

(** ** C6: the anomaly corrector rewrites status fields only *)

Lemma optimizeLoop_lookup (l : list StatusRecord) :
  ∀ prev i,
    optimizeLoop prev l !! i
    = (λ c, optimizeAt (prevOf prev l i) c (l !! S i)) <$> (l !! i).
Proof.
  induction l as [|c tl IH]; intros prev i; [by destruct i |].
  destruct i as [|i].
  - simpl. f_equal. unfold optimizeAt.
    destruct prev as [p|], tl as [|n tl']; done.
  - simpl. rewrite IH. by destruct i.
Qed.

Lemma optimizeLoop_length (l : list StatusRecord) :
  ∀ prev, length (optimizeLoop prev l) = length l.
Proof. induction l; intros prev; simpl; [done | by rewrite IHl]. Qed.

(** Among [prev] and [next] the most likely status is that of [prev]:
    the majority when the two agree, the first on a tie. *)
Lemma findMostLikelyStatus_pair (prev next : StatusRecord) :
  (findMostLikelyStatus prev [next]).1 = status prev
  ∧ majorityFirst [status prev; status next] = Some (status prev).
Proof.
  split.
  - unfold findMostLikelyStatus. simpl. rewrite lookup_empty. simpl.
    destruct (decide (status prev = status next)) as [E|E].
    + rewrite <- E, lookup_insert_eq. simpl. by rewrite E.
    + by rewrite lookup_insert_ne.
  - unfold majorityFirst, occurrences. simpl.
    rewrite !filter_cons, !filter_nil.
    destruct (decide (status prev = status prev)) as [_|]; [| done].
    destruct (decide (status next = status prev)) as [E|E].
    + rewrite !E. destruct (decide (status prev = status prev)); [| done].
      simpl. done.
    + destruct (decide (status prev = status next)); [congruence |].
      destruct (decide (status next = status next)); [| done]. done.
Qed.

(** C6: the corrector returns a list of the same length; at every
    position the start and the end are those of the input; where the
    triplet (prev, current, next) matches an anomalous pattern with
    current's duration below the pattern's threshold, the output differs
    from current in the status fields only: its status is the majority
    status among prev and next (the first on a tie), [anomaly_corrected]
    is true, [original_status] holds current's status and the confidence
    is 0.6; at every other position the output is current itself. *)
Theorem anomaly_correction_frame (statusList : list StatusRecord)
    (equipmentName : string) :
  let optimized := applyMLOptimizations statusList equipmentName in
  length optimized = length statusList
  ∧ ∀ i current,
      statusList !! i = Some current →
      ∃ out,
        optimized !! i = Some out
        ∧ start out = start current ∧ end_ out = end_ current
        ∧ match prevOf None statusList i, statusList !! S i with
          | Some prev, Some next =>
              if isAnomalousSequence prev current next
              then majorityFirst [status prev; status next] = Some (status out)
                   ∧ anomaly_corrected out = true
                   ∧ original_status out = Some (status current)
                   ∧ confidence out = Some 0.6%float
                   ∧ out = withStatusFieldsOf current out
              else out = current
          | _, _ => out = current
          end.
Proof.
  intros optimized. subst optimized. unfold applyMLOptimizations.
  destruct (length statusList <? 3)%nat eqn:Hlen.
  - apply Nat.ltb_lt in Hlen. split; [done |].
    intros i current Hi. exists current. repeat split; try done.
    destruct (prevOf None statusList i) as [prev|] eqn:Hp; [| done].
    destruct (statusList !! S i) as [next|] eqn:Hn; [| done].
    apply lookup_lt_Some in Hn. destruct i as [|i]; [done |]. lia.
  - split; [apply optimizeLoop_length |].
    intros i current Hi. rewrite optimizeLoop_lookup, Hi. simpl.
    eexists. split; [reflexivity |]. unfold optimizeAt.
    destruct (prevOf None statusList i) as [prev|]; [| done].
    destruct (statusList !! S i) as [next|]; [| done].
    destruct (isAnomalousSequence prev current next); [| done].
    destruct (findMostLikelyStatus_pair prev next) as [H1 H2].
    unfold correctAnomalousSequence, withStatusFieldsOf. simpl.
    rewrite H1. done.
Qed.

(** ** C7: precedence of the rule layers *)

(** A layer answers [null] or a truthy value, so that the first
    non-null layer is the first that passes the [if (result)] test. *)
Lemma layers_null_or_truthy (rulesConfig : JsValue) (activity : Activity)
    (activityType : string) (v : JsValue) :
  (∀ ts, applyTimeBasedRules rulesConfig activity activityType ts = Ok v →
         v = JNull ∨ truthy v = true)
  ∧ (∀ g, applyGroupOverrides rulesConfig activity activityType g = Ok v →
          v = JNull ∨ truthy v = true)
  ∧ (∀ cs, applyContextualRules rulesConfig activity activityType cs = Ok v →
           v = JNull ∨ truthy v = true).
Proof.
  split; [| split].
  - intros ts. unfold applyTimeBasedRules.
    repeat exc_step; intros [= <-]; auto.
  - intros g. unfold applyGroupOverrides.
    repeat exc_step; intros [= <-]; auto.
  - intros cs. unfold applyContextualRules.
    repeat exc_step; intros [= <-]; auto.
Qed.

Lemma logged_decides (activity : Activity) (k : string) (v : JsValue) :
  activityKey activity = Ok k → convertsToString v = true →
  logged activity v = Ok v.
Proof.
  intros Hk Hv. unfold logged, logLine, interpolate. rewrite Hk, Hv. done.
Qed.

Lemma logged_fails (activity : Activity) (v : JsValue) :
  convertsToString v = false → logged activity v = Throw.
Proof.
  intros Hv. unfold logged, logLine, interpolate. rewrite Hv.
  by destruct (activityKey activity).
Qed.

(** The handler of [applyIntelligentRules] answers neutral when the
    activity converts to a string. *)
Lemma applyIntelligentRules_caught (rulesConfig : JsValue)
    (activity : Activity) (k : string) (activityType : string)
    (context : Context) :
  activityKey activity = Ok k →
  evaluateRules rulesConfig activity activityType context = Throw →
  applyIntelligentRules rulesConfig activity activityType context
  = Ok (JStr "neutral").
Proof.
  intros Hk Hthrow. unfold applyIntelligentRules.
  destruct (negb (truthy rulesConfig)); [done |]. by rewrite Hthrow, Hk.
Qed.

(** The tables of the default rules are objects. *)
Lemma defaultRules_objectTables (created : string) :
  objectTables (defaultRules created).
Proof.
  intros g table Hin. unfold activityTables in Hin.
  repeat (apply elem_of_cons in Hin as [Hin | Hin]);
    [.. | by apply elem_of_nil in Hin].
  1-2, 4-7: by injection Hin as ->.
  cbn in Hin. revert Hin.
  repeat (destruct (String.eqb g _); cbn; [by intros [= ->] |]).
  done.
Qed.

(** C7, as stated, fails: under a rule set that validation accepts and
    that has no [timeBasedRules], a context with a timestamp makes the
    first layer throw, and a stopped status of a high-pressure unit is
    classified neutral although its group override (productive) applies
    and the base mapping says non-productive; and an override that does
    not convert to a string applies without taking effect, because the
    log line that names it throws. *)
Lemma override_lost_counterexample :
  validateAndMigrateRules "2024-01-15T00:00:00.000Z"
    "2024-01-15T08:00:00.000Z" untimedRules = (true, untimedRules)
  ∧ applyGroupOverrides untimedRules (AStr "stopped") "status" "alta-pressao"
    = Ok (JStr "productive")
  ∧ applyBaseRules untimedRules (AStr "stopped") "status"
    = Ok (JStr "non-productive")
  ∧ applyIntelligentRules untimedRules (AStr "stopped") "status"
      (CtxObj morningHighPressure) = Ok (JStr "neutral")
  ∧ applyIntelligentRules untimedRules (AStr "stopped") "status"
      (CtxObj untimedHighPressure) = Ok (JStr "productive")
  ∧ validateAndMigrateRules "2024-01-15T00:00:00.000Z"
      "2024-01-15T08:00:00.000Z" textlessOverrideRules
    = (true, textlessOverrideRules)
  ∧ applyGroupOverrides textlessOverrideRules (AStr "stopped") "status"
      "alta-pressao" = Ok (JObj [("toString", JNum 1)])
  ∧ applyIntelligentRules textlessOverrideRules (AStr "stopped") "status"
      (CtxObj untimedHighPressure) = Ok (JStr "neutral").
Proof. vm_compute. done. Qed.

(** C7 (amended): under a fixed rule set whose [globalSettings] can be
    read and whose tables are objects, for an activity code that
    converts to a string other than the names inherited from
    [Object.prototype], and for every context object, the layers are
    consulted in the order time-based, group override, contextual,
    base mapping, fallback. The first layer that answers a value
    decides, provided the value converts to a string: the time-window
    modifier whatever the group override and the base mapping are; the
    group override, when the time layer yields nothing, whatever the
    base mapping is; then the contextual modifier; then the base
    rules, in which an entry of the table is preferred to the
    fallback. When the layer that is consulted throws, or answers a
    value that does not convert to a string, or the switches of the
    layers cannot be read, no later layer is consulted and the
    classification is neutral. *)
Theorem layer_precedence (rulesConfig globalSettings : JsValue)
    (activity : Activity) (activityType : string) (c : ContextFields) :
  get rulesConfig "globalSettings" = Ok globalSettings →
  objectTables rulesConfig →
  ordinaryActivity activity →
  let result := evaluateRules rulesConfig activity activityType (CtxObj c) in
  let answer :=
    applyIntelligentRules rulesConfig activity activityType (CtxObj c) in
  (∀ enabled ts,
     get globalSettings "enableTimeBasedRules" = Ok enabled →
     truthy enabled = true →
     timestamp c = Some ts →
     let layer := applyTimeBasedRules rulesConfig activity activityType ts in
     (∀ v, layerDecides layer v → result = Ok v)
     ∧ (layerFails layer → answer = Ok (JStr "neutral")))
  ∧ (∀ enabled g,
       timeLayerSilent rulesConfig globalSettings activity activityType c →
       get globalSettings "enableGroupOverrides" = Ok enabled →
       truthy enabled = true →
       equipmentGroup c = Some g →
       Js.truthy_str g = true →
       let layer := applyGroupOverrides rulesConfig activity activityType g in
       (∀ v, layerDecides layer v → result = Ok v)
       ∧ (layerFails layer → answer = Ok (JStr "neutral")))
  ∧ (∀ enabled cs,
       timeLayerSilent rulesConfig globalSettings activity activityType c →
       groupLayerSilent rulesConfig globalSettings activity activityType c →
       get globalSettings "enableContextualRules" = Ok enabled →
       truthy enabled = true →
       conditions c = Some cs →
       let layer :=
         applyContextualRules rulesConfig activity activityType cs in
       (∀ v, layerDecides layer v → result = Ok v)
       ∧ (layerFails layer → answer = Ok (JStr "neutral")))
  ∧ (timeLayerSilent rulesConfig globalSettings activity activityType c →
     groupLayerSilent rulesConfig globalSettings activity activityType c →
     contextLayerSilent rulesConfig globalSettings activity activityType c →
     let layer := applyBaseRules rulesConfig activity activityType in
     (∀ v, layer = Ok v → convertsToString v = true → result = Ok v)
     ∧ (layer = Throw ∨ (∃ v, layer = Ok v ∧ convertsToString v = false) →
        answer = Ok (JStr "neutral")))
  ∧ (∀ table k,
       (if String.eqb activityType "status"
        then get rulesConfig "telemetryRules"
        else get rulesConfig "appointmentRules") = Ok table →
       activityKey activity = Ok k →
       (∀ v, truthy table = true → get table k = Ok v → truthy v = true →
             applyBaseRules rulesConfig activity activityType = Ok v)
       ∧ (truthy table = false
          ∨ (∃ v, get table k = Ok v ∧ truthy v = false) →
          ∀ w, intelligentFallback rulesConfig activity activityType = Ok w →
               convertsToString w = true →
               applyBaseRules rulesConfig activity activityType = Ok w))
  ∧ (get globalSettings "enableTimeBasedRules" = Throw →
     answer = Ok (JStr "neutral")).
Proof.
  intros Hgs _ (k & Hk & _) result answer.
  assert (result = Throw → answer = Ok (JStr "neutral")) as Hcaught
    by (by apply applyIntelligentRules_caught with k).
  split; [| split; [| split; [| split; [| split]]]]; cycle 5.
  { intros Hthrow. apply Hcaught. unfold result, evaluateRules.
    rewrite Hgs. cbn. by rewrite Hthrow. }
  - intros enabled ts Hen Hten Hts layer. split.
    + intros v (Hlayer & Hv & Hconv). unfold result, evaluateRules.
      rewrite Hgs. cbn. rewrite Hen. cbn. rewrite Hten, Hts. cbn.
      fold layer. rewrite Hlayer. cbn. rewrite Hv.
      by apply logged_decides with k.
    + intros Hfail. apply Hcaught. unfold result, evaluateRules.
      rewrite Hgs. cbn. rewrite Hen. cbn. rewrite Hten, Hts. cbn.
      fold layer. destruct Hfail as [-> | (v & -> & Hv & Hconv)]; [done |].
      cbn. rewrite Hv. by apply logged_fails.
  - intros enabled g Htime Hen Htr Hg Hgt layer. split.
    + intros v (Hlayer & Hv & Hconv). unfold result, evaluateRules.
      rewrite Hgs. cbn -[Js.truthy_opt].
      skip_silent_layer Htime;
        rewrite Hen; cbn -[Js.truthy_opt]; rewrite Htr; cbn -[Js.truthy_opt];
        rewrite Hg; unfold Js.truthy_opt; rewrite Hgt; cbn;
        fold layer; rewrite Hlayer; cbn; rewrite Hv;
        by apply logged_decides with k.
    + intros Hfail. apply Hcaught. unfold result, evaluateRules.
      rewrite Hgs. cbn -[Js.truthy_opt].
      skip_silent_layer Htime;
        rewrite Hen; cbn -[Js.truthy_opt]; rewrite Htr; cbn -[Js.truthy_opt];
        rewrite Hg; unfold Js.truthy_opt; rewrite Hgt; cbn;
        fold layer;
        (destruct Hfail as [-> | (v & -> & Hv & Hconv)]; [done |]);
        cbn; rewrite Hv; by apply logged_fails.
  - intros enabled cs Htime Hgroup Hen Htr Hcs layer. split.
    + intros v (Hlayer & Hv & Hconv). unfold result, evaluateRules.
      rewrite Hgs. cbn -[Js.truthy_opt].
      skip_silent_layer Htime; skip_silent_layer Hgroup;
        rewrite Hen; cbn; rewrite Htr; cbn; rewrite Hcs; cbn;
        fold layer; rewrite Hlayer; cbn; rewrite Hv;
        by apply logged_decides with k.
    + intros Hfail. apply Hcaught. unfold result, evaluateRules.
      rewrite Hgs. cbn -[Js.truthy_opt].
      skip_silent_layer Htime; skip_silent_layer Hgroup;
        rewrite Hen; cbn; rewrite Htr; cbn; rewrite Hcs; cbn;
        fold layer;
        (destruct Hfail as [-> | (v & -> & Hv & Hconv)]; [done |]);
        cbn; rewrite Hv; by apply logged_fails.
  - intros Htime Hgroup Hcontext layer.
    assert (result = (baseResult ← layer; logged activity baseResult))
      as Hbase.
    { unfold result, evaluateRules. rewrite Hgs. cbn -[Js.truthy_opt].
      skip_silent_layer Htime; skip_silent_layer Hgroup;
        skip_silent_layer Hcontext; reflexivity. }
    split.
    + intros v Hlayer Hconv. rewrite Hbase, Hlayer. cbn.
      by apply logged_decides with k.
    + intros Hfail. apply Hcaught. rewrite Hbase.
      destruct Hfail as [-> | (v & -> & Hconv)]; [done |].
      cbn. by apply logged_fails.
  - intros table k' Htable Hk'. rewrite Hk in Hk'. injection Hk' as <-.
    split.
    + intros v Htruthy Hget Hv. unfold applyBaseRules. rewrite Htable.
      cbn. rewrite Htruthy. unfold tableAt. rewrite Hk. cbn.
      rewrite Hget. cbn. by rewrite Hv.
    + intros Hnone w Hfallback Hconv. unfold applyBaseRules.
      rewrite Htable. cbn.
      assert ((if truthy table then tableAt table activity else Ok JUndefined)
                ≫= (λ found,
                      if truthy found then Ok found
                      else fallbackResult ←
                             intelligentFallback rulesConfig activity
                               activityType;
                           _ ← logLine activity fallbackResult;
                           Ok fallbackResult)
              = (fallbackResult ←
                   intelligentFallback rulesConfig activity activityType;
                 _ ← logLine activity fallbackResult;
                 Ok fallbackResult)) as ->.
      { destruct Hnone as [-> | (v & Hget & Hv)]; [done |].
        destruct (truthy table); [| done].
        unfold tableAt. rewrite Hk. cbn. rewrite Hget. cbn. by rewrite Hv. }
      rewrite Hfallback. cbn. unfold logLine, interpolate.
      by rewrite Hk, Hconv.
Qed.

(** With the default rules, a stopped status of a high-pressure unit
    is neutral by the base mapping and productive by the group override;
    at 10:30 the business-hours modifier makes it neutral: the override
    wins over the base mapping, the time window over the override. *)
Lemma layer_precedence_witness :
  let rulesConfig := defaultRules "2024-01-15T00:00:00.000Z" in
  applyBaseRules rulesConfig (AStr "stopped") "status" = Ok (JStr "neutral")
  ∧ applyGroupOverrides rulesConfig (AStr "stopped") "status" "alta-pressao"
    = Ok (JStr "productive")
  ∧ evaluateRules rulesConfig (AStr "stopped") "status"
      (CtxObj untimedHighPressure) = Ok (JStr "productive")
  ∧ evaluateRules rulesConfig (AStr "stopped") "status"
      (CtxObj morningHighPressure) = Ok (JStr "neutral").
Proof.
  intros rulesConfig.
  assert (ordinaryActivity (AStr "stopped")) as Hactivity.
  { exists "stopped". split; [reflexivity |].
    apply (bool_decide_eq_true_1 _). vm_compute. reflexivity. }
  pose proof (defaultRules_objectTables "2024-01-15T00:00:00.000Z")
    as Htables.
  split; [vm_compute; reflexivity |].
  split; [vm_compute; reflexivity |].
  split.
  - pose proof (layer_precedence rulesConfig defaultGlobalSettings
                  (AStr "stopped") "status" untimedHighPressure
                  eq_refl Htables Hactivity)
      as Hlayers.
    cbv zeta in Hlayers. destruct Hlayers as (_ & Hoverride & _).
    assert (timeLayerSilent rulesConfig defaultGlobalSettings
              (AStr "stopped") "status" untimedHighPressure) as Hsilent.
    { exists (JBool true). split; [reflexivity |]. right. by left. }
    destruct (Hoverride (JBool true) "alta-pressao" Hsilent
                eq_refl eq_refl eq_refl eq_refl) as [Hdecides _].
    apply Hdecides. repeat split; vm_compute; reflexivity.
  - pose proof (layer_precedence rulesConfig defaultGlobalSettings
                  (AStr "stopped") "status" morningHighPressure
                  eq_refl Htables Hactivity)
      as Hlayers.
    cbv zeta in Hlayers. destruct Hlayers as (Hwindow & _).
    destruct (Hwindow (JBool true) (ValidTime 10 30)
                eq_refl eq_refl eq_refl) as [Hdecides _].
    apply Hdecides. repeat split; vm_compute; reflexivity.
Defined.

(** ** C8: classification is total *)






(** ** C9: validation of a loaded document *)

(** What acceptance does guarantee: the three required fields are
    objects and every value of [telemetryRules] is one of the three
    classes. *)
Lemma validateAndMigrateRules_accepts (created now : string)
    (rules rules' : JsValue) :
  validateAndMigrateRules created now rules = (true, rules') →
  Forall (λ f, truthy (field rules f) = true ∧ typeofObject (field rules f) = true)
         requiredFields
  ∧ ∀ entries,
      field rules' "telemetryRules" = JObj entries →
      Forall (λ kv, isValidClassification kv.2 = true) entries.
Proof.
  unfold validateAndMigrateRules.
  destruct (negb (truthy rules) || negb (typeofObject rules)); [done |].
  destruct (forallb _ requiredFields) eqn:Hreq; simpl; [| done].
  intros [= Hvalid <-]. split.
  - apply Forall_forall. intros f Hf.
    rewrite forallb_forall in Hreq.
    apply andb_true_iff, Hreq. by apply list_elem_of_In.
  - intros entries E. rewrite E in Hvalid.
    apply Forall_forall. intros kv Hkv.
    rewrite forallb_forall in Hvalid. apply Hvalid. by apply list_elem_of_In.
Qed.

(** C9: a document of the current version with the three required
    fields, every telemetry value valid, and the value ["sometimes"] in
    [appointmentRules] is accepted by [validateAndMigrateRules] and
    installed by [loadSavedOrDefaultRules] in place of the defaults: the
    check of the classification values reads [telemetryRules] only. *)
Theorem invalid_appointment_class_accepted :
  isValidClassification (JStr "sometimes") = false
  ∧ validateAndMigrateRules "2024-01-15T00:00:00.000Z"
      "2024-01-15T08:00:00.000Z" invalidAppointmentDocument
    = (true, invalidAppointmentDocument)
  ∧ loadSavedOrDefaultRules "2024-01-15T00:00:00.000Z"
      "2024-01-15T08:00:00.000Z" None (Some invalidAppointmentDocument)
    = invalidAppointmentDocument
  ∧ loadSavedOrDefaultRules "2024-01-15T00:00:00.000Z"
      "2024-01-15T08:00:00.000Z" (Some invalidAppointmentDocument) None
    = invalidAppointmentDocument.
Proof. vm_compute. done. Qed.

(** ** C5: running the chain a second time *)

(** C5, as stated, fails on scenario E: the first pass corrects the
    5-second stop to running, which leaves three touching running
    intervals; run again on that output, the chain merges them into one
    interval, and so does the whole pipeline. *)
Lemma second_pass_counterexample :
  let once := reconcileChain defaultConfig scenarioE "EQ-1" in
  once = resolveStatusConflictsAdvanced defaultConfig scenarioE "EQ-1"
  ∧ status <$> once = ["running"; "running"; "running"]
  ∧ length (reconcileChain defaultConfig once "EQ-1") = 1%nat
  ∧ length (resolveStatusConflictsAdvanced defaultConfig once "EQ-1") = 1%nat
  ∧ reconcileChain defaultConfig once "EQ-1" ≠ once.
Proof.
  intros once.
  split; [vm_compute; reflexivity |]. split; [vm_compute; reflexivity |].
  split; [vm_compute; reflexivity |]. split; [vm_compute; reflexivity |].
  intros E. apply (f_equal length) in E. vm_compute in E. discriminate.
Qed.

Section StageIdempotence.

Variable cfg : Config.
Variable equipmentName : string.

(** *** The conflict resolver *)

Lemma chained_no_overlap a b :
  end_ a ≤ start b + 30000 → hasOverlap a b = false.
Proof.
  unfold hasOverlap. intros H.
  destruct (start b <? end_ a) eqn:E1; [| done].
  simpl. apply Z.ltb_ge. lia.
Qed.

Lemma resolveLoop_fixed rest :
  ∀ cur, chained (cur :: rest) →
         resolveLoop cfg equipmentName cur rest = cur :: rest.
Proof.
  induction rest as [|s rest' IH]; intros cur Hch; [done |].
  destruct Hch as (_ & [_ Hgap] & Hch'). simpl.
  rewrite chained_no_overlap by done. f_equal. by apply IH.
Qed.

Lemma resolveOverlapsAdvanced_fixed l :
  chained l → resolveOverlapsAdvanced cfg l equipmentName = l.
Proof.
  destruct l as [|a [|b rest]]; [done | done |].
  intros Hch. by apply (resolveLoop_fixed (b :: rest) a).
Qed.

(** *** The consolidator *)

Lemma shouldConsolidate_ext a b b' :
  status b = status b' → status_title b = status_title b' →
  start b = start b' →
  shouldConsolidate cfg a b = shouldConsolidate cfg a b'.
Proof.
  intros Hs Ht Hst. unfold shouldConsolidate, gapSeconds.
  by rewrite Hs, Ht, Hst.
Qed.

Lemma consolidateLoop_settled rest :
  ∀ cur,
    adjacentAll (λ a b, shouldConsolidate cfg a b = false)
                (consolidateLoop cfg cur rest)
    ∧ ∃ h tl, consolidateLoop cfg cur rest = h :: tl
              ∧ status h = status cur
              ∧ status_title h = status_title cur
              ∧ start h = start cur.
Proof.
  induction rest as [|s rest' IH]; intros cur; simpl.
  - split; [done | by exists cur, []].
  - destruct (shouldConsolidate cfg cur s) eqn:E.
    + destruct (IH (mergeStatusAdvanced cur s)) as (H1 & h & tl & H2 & H3).
      split; [done |]. by exists h, tl.
    + destruct (IH s) as (H1 & h & tl & H2 & Hs & Ht & Hst).
      rewrite H2 in *. split; [| by exists cur, (h :: tl)].
      simpl. split; [| exact H1].
      by rewrite (shouldConsolidate_ext cur h s).
Qed.

Lemma consolidateLoop_fixed rest :
  ∀ cur,
    adjacentAll (λ a b, shouldConsolidate cfg a b = false) (cur :: rest) →
    consolidateLoop cfg cur rest = cur :: rest.
Proof.
  induction rest as [|s rest' IH]; intros cur Hadj; [done |].
  destruct Hadj as [E Hadj']. simpl. rewrite E. f_equal. by apply IH.
Qed.

Lemma consolidate_idempotent l :
  consolidateConsecutiveAdvanced cfg
    (consolidateConsecutiveAdvanced cfg l equipmentName) equipmentName
  = consolidateConsecutiveAdvanced cfg l equipmentName.
Proof.
  destruct l as [|a [|b rest]]; [done | done |].
  unfold consolidateConsecutiveAdvanced at 2 3.
  destruct (consolidateLoop_settled (b :: rest) a) as (Hadj & h & tl & E & _).
  rewrite E in *. destruct tl as [|h2 tl]; [done |].
  by apply (consolidateLoop_fixed (h2 :: tl) h).
Qed.

(** *** The gap filler *)

Lemma isSmallGap_touching a b : start b = end_ a → isSmallGap cfg a b = false.
Proof.
  intros E. unfold isSmallGap, gapSeconds. rewrite E, Z.sub_diag.
  assert (PrimFloat.ltb 0 (float_of_Z 0 / 1000) = false) as ->
    by (vm_compute; reflexivity).
  done.
Qed.

Lemma fillSmallGapsIntelligent_fillLoop l :
  fillSmallGapsIntelligent cfg l equipmentName = fillLoop cfg equipmentName l.
Proof. by destruct l as [|a [|b rest]]. Qed.

Lemma fillLoop_settled l :
  adjacentAll (λ a b, isSmallGap cfg a b = false)
              (fillLoop cfg equipmentName l).
Proof.
  induction l as [|a tl IH]; [done |].
  destruct tl as [|b tl']; [done |].
  change (fillLoop cfg equipmentName (a :: b :: tl'))
    with (a :: (if isSmallGap cfg a b
                then fillerBetween a b equipmentName
                       :: fillLoop cfg equipmentName (b :: tl')
                else fillLoop cfg equipmentName (b :: tl'))).
  destruct (fillLoop_cons cfg equipmentName b tl') as [tl2 Hb].
  rewrite Hb in *.
  destruct (isSmallGap cfg a b) eqn:E.
  - split; [by apply isSmallGap_touching |].
    split; [by apply isSmallGap_touching | exact IH].
  - split; [exact E | exact IH].
Qed.

Lemma fillLoop_fixed l :
  adjacentAll (λ a b, isSmallGap cfg a b = false) l →
  fillLoop cfg equipmentName l = l.
Proof.
  induction l as [|a tl IH]; [done |].
  intros [Hab Hadj]. specialize (IH Hadj).
  destruct tl as [|b tl']; [done |].
  change (fillLoop cfg equipmentName (a :: b :: tl'))
    with (a :: (if isSmallGap cfg a b
                then fillerBetween a b equipmentName
                       :: fillLoop cfg equipmentName (b :: tl')
                else fillLoop cfg equipmentName (b :: tl'))).
  by rewrite Hab, IH.
Qed.

Lemma fill_idempotent l :
  fillSmallGapsIntelligent cfg
    (fillSmallGapsIntelligent cfg l equipmentName) equipmentName
  = fillSmallGapsIntelligent cfg l equipmentName.
Proof.
  rewrite !fillSmallGapsIntelligent_fillLoop.
  apply fillLoop_fixed, fillLoop_settled.
Qed.

End StageIdempotence.

Section CorrectorIdempotence.

(** An anomalous triplet has equal outer statuses that differ from the
    middle one, drawn from the three known patterns. *)
Lemma isAnomalousSequence_statuses p c n :
  isAnomalousSequence p c n = true →
  status n = status p
  ∧ ((status p = "running" ∧ status c = "stopped")
     ∨ (status p = "off" ∧ status c = "running")
     ∨ (status p = "maintenance" ∧ status c = "running")).
Proof.
  unfold isAnomalousSequence, anomalousPatterns, existsb.
  cbn [patPrev patCurrent patNext maxDuration].
  rewrite !orb_true_iff, !andb_true_iff, !String.eqb_eq.
  intros [H | [H | [H | H]]]; [| | | done];
    destruct H as [[[Hp Hc] Hn] _]; split; try congruence; auto.
Qed.

Lemma isAnomalousSequence_ext p c n p' c' n' :
  status p = status p' → status n = status n' → status c = status c' →
  start c = start c' → end_ c = end_ c' →
  isAnomalousSequence p c n = isAnomalousSequence p' c' n'.
Proof.
  intros Hp Hn Hc Hs He. unfold isAnomalousSequence.
  by rewrite Hp, Hn, Hc, Hs, He.
Qed.

(** Two neighbours are never both the middle of an anomalous triplet. *)
Lemma isAnomalousSequence_not_adjacent a b c d :
  isAnomalousSequence a b c = true → isAnomalousSequence b c d = false.
Proof.
  intros H1. destruct (isAnomalousSequence b c d) eqn:H2; [| done].
  apply isAnomalousSequence_statuses in H1 as [E1 H1].
  apply isAnomalousSequence_statuses in H2 as [E2 H2].
  rewrite E1 in *.
  destruct H1 as [[? ?] | [[? ?] | [? ?]]], H2 as [[? ?] | [[? ?] | [? ?]]];
    congruence.
Qed.

Lemma correctAnomalousSequence_status p c n :
  status (correctAnomalousSequence p c n) = status p
  ∧ start (correctAnomalousSequence p c n) = start c
  ∧ end_ (correctAnomalousSequence p c n) = end_ c.
Proof.
  destruct (findMostLikelyStatus_pair p n) as [H _].
  unfold correctAnomalousSequence. simpl. by rewrite H.
Qed.

(** What [optimizeAt] returns: [current], or its correction. *)
Lemma optimizeAt_cases prev c next :
  optimizeAt prev c next = c
  ∨ ∃ p n, prev = Some p ∧ next = Some n
           ∧ isAnomalousSequence p c n = true
           ∧ optimizeAt prev c next = correctAnomalousSequence p c n.
Proof.
  unfold optimizeAt.
  destruct prev as [p|]; [| by left]. destruct next as [n|]; [| by left].
  destruct (isAnomalousSequence p c n) eqn:E; [| by left].
  right. by exists p, n.
Qed.

(** The triplet that the second run reads around position [i] is not
    anomalous: [c] is the input record at [i], [cp] and [cn] its input
    neighbours, [pp] and [nn] theirs. *)
Lemma second_run_not_anomalous pp cp c cn nn :
  let po := optimizeAt pp cp (Some c) in
  let o := optimizeAt (Some cp) c (Some cn) in
  let no := optimizeAt (Some c) cn nn in
  isAnomalousSequence po o no = false.
Proof.
  intros po o no.
  destruct (isAnomalousSequence po o no) eqn:Hbad; [| done].
  exfalso. pose proof Hbad as Hagain.
  apply isAnomalousSequence_statuses in Hbad as [Hno Hbad].
  assert (status po ≠ status o ∧ status no ≠ status o) as [Hpo_o Hno_o].
  { rewrite Hno.
    destruct Hbad as [[? ?] | [[? ?] | [? ?]]]; split; congruence. }
  clear Hno Hbad.
  destruct (optimizeAt_cases (Some cp) c (Some cn))
    as [Ho | (p & n & [= <-] & [= <-] & Hanom & Ho)]; fold o in Ho.
  - (* position i is kept *)
    destruct (optimizeAt_cases pp cp (Some c))
      as [Hp | (p1 & n1 & -> & [= <-] & Hanom1 & Hp)]; fold po in Hp.
    + destruct (optimizeAt_cases (Some c) cn nn)
        as [Hn | (p2 & n2 & [= <-] & -> & Hanom2 & Hn)]; fold no in Hn.
      * (* nothing changed around i: the first run would have corrected c *)
        rewrite Ho, Hp, Hn in Hagain. rewrite Ho, Hp in Hpo_o.
        destruct (correctAnomalousSequence_status cp c cn) as [Hs _].
        subst o. unfold optimizeAt in Ho. rewrite Hagain in Ho.
        rewrite Ho in Hs. congruence.
      * (* the successor was corrected to the status of c *)
        destruct (correctAnomalousSequence_status c cn n2) as [Hs _].
        rewrite <- Hn in Hs. rewrite Ho in Hno_o. done.
    + (* the predecessor was corrected to the status of c *)
      destruct (correctAnomalousSequence_status p1 cp c) as [Hs _].
      rewrite <- Hp in Hs.
      apply isAnomalousSequence_statuses in Hanom1 as [E1 _].
      rewrite Ho in Hpo_o. congruence.
  - (* position i was corrected: its predecessor was not *)
    destruct (correctAnomalousSequence_status cp c cn) as [Hs _].
    rewrite <- Ho in Hs.
    destruct (optimizeAt_cases pp cp (Some c))
      as [Hp | (p1 & n1 & -> & [= <-] & Hanom1 & Hp)]; fold po in Hp.
    + rewrite Hp in Hpo_o. congruence.
    + by rewrite (isAnomalousSequence_not_adjacent _ _ _ cn Hanom1) in Hanom.
Qed.

End CorrectorIdempotence.

Lemma optimizeAt_no_neighbour prev c next :
  prev = None ∨ next = None → optimizeAt prev c next = c.
Proof. unfold optimizeAt. intros [-> | ->]; [done | by destruct prev]. Qed.

Lemma optimizeLoop_idempotent (l : list StatusRecord) :
  optimizeLoop None (optimizeLoop None l) = optimizeLoop None l.
Proof.
  apply list_eq. intros i.
  rewrite (optimizeLoop_lookup (optimizeLoop None l)), !optimizeLoop_lookup.
  destruct (l !! i) as [c|] eqn:Hi; [| done]. simpl. f_equal.
  destruct i as [|j]; [by apply optimizeAt_no_neighbour; left |].
  cbn [prevOf]. rewrite optimizeLoop_lookup.
  destruct (l !! j) as [cp|] eqn:Hj.
  2: { apply lookup_ge_None in Hj. apply lookup_lt_Some in Hi. lia. }
  destruct (l !! S (S j)) as [cn|] eqn:Hn;
    [| by apply optimizeAt_no_neighbour; right].
  cbn [fmap option_fmap option_map prevOf]. rewrite Hi.
  pose proof (second_run_not_anomalous (prevOf None l j) cp c cn
                (l !! S (S (S j)))) as Hok.
  cbv zeta in Hok. unfold optimizeAt at 1. by rewrite Hok.
Qed.

Lemma applyMLOptimizations_idempotent (l : list StatusRecord)
    (equipmentName : string) :
  applyMLOptimizations (applyMLOptimizations l equipmentName) equipmentName
  = applyMLOptimizations l equipmentName.
Proof.
  unfold applyMLOptimizations.
  destruct (length l <? 3)%nat eqn:E; [by rewrite E |].
  rewrite optimizeLoop_length, E. apply optimizeLoop_idempotent.
Qed.

(** *** The second run of the pipeline finds no conflict *)

Lemma chained_strongly l : chained l → stronglyChained l.
Proof.
  induction l as [|a tl IH]; [done |].
  intros (Ha & Hnext & Hch). specialize (IH Hch).
  split; [done |]. split; [| done].
  destruct tl as [|b tl']; [constructor |].
  destruct Hnext as [H1 H2]. destruct IH as (Hb & Hall & _).
  constructor; [done |].
  eapply Forall_impl; [exact Hall |]. simpl. intros c [? ?]. lia.
Qed.

Lemma strongly_chained l : stronglyChained l → chained l.
Proof.
  induction l as [|a tl IH]; [done |].
  intros (Ha & Hall & Hch). split; [done |]. split; [| by apply IH].
  destruct tl as [|b tl']; [done |]. by inversion Hall.
Qed.

Lemma dedupFilter_stronglyChained l :
  ∀ seen, stronglyChained l → stronglyChained (dedupFilter seen l).
Proof.
  induction l as [|s rest IH]; intros seen; [done |].
  intros (Hs & Hall & Hch). simpl.
  destruct (seen !! dedupKey s) as [existing|];
    [destruct (PrimFloat.ltb _ _) |]; try by apply IH.
  - split; [done |]. split; [by apply dedupFilter_Forall | by apply IH].
  - split; [done |]. split; [by apply dedupFilter_Forall | by apply IH].
Qed.

Lemma sortByStart_fixed l : stronglyChained l → sortByStart l = l.
Proof.
  induction l as [|a tl IH]; [done |].
  intros (Ha & Hall & Hch). simpl. rewrite IH by done.
  destruct tl as [|b tl']; [done |].
  inversion Hall as [|? ? [Hab _] _]; subst. simpl.
  by rewrite (proj2 (Z.leb_le _ _) Hab).
Qed.

(** C5 (amended): each stage of the chain is idempotent on its own. For
    every configuration and every list of records, the consolidator, the
    gap filler and the anomaly corrector return their own output
    unchanged when applied to it again, and so does the conflict
    resolver on a start-sorted list of valid intervals (what the
    normaliser hands it): taken alone, no stage merges, fills or
    rewrites anything on a second run. And when the whole pipeline is
    run on its own output (for valid input records), the second run's
    sort and conflict resolver change nothing. *)
Theorem stages_idempotent (cfg : Config) (equipmentName : string)
    (statusList : list StatusRecord) :
  (Forall validInterval statusList → startSorted statusList →
   resolveOverlapsAdvanced cfg
     (resolveOverlapsAdvanced cfg statusList equipmentName) equipmentName
   = resolveOverlapsAdvanced cfg statusList equipmentName)
  ∧ consolidateConsecutiveAdvanced cfg
      (consolidateConsecutiveAdvanced cfg statusList equipmentName)
      equipmentName
    = consolidateConsecutiveAdvanced cfg statusList equipmentName
  ∧ fillSmallGapsIntelligent cfg
      (fillSmallGapsIntelligent cfg statusList equipmentName) equipmentName
    = fillSmallGapsIntelligent cfg statusList equipmentName
  ∧ applyMLOptimizations (applyMLOptimizations statusList equipmentName)
      equipmentName
    = applyMLOptimizations statusList equipmentName
  ∧ (Forall validInterval statusList →
     let once := resolveStatusConflictsAdvanced cfg statusList equipmentName in
     resolveOverlapsAdvanced cfg (sortByStart (removeDuplicatesAdvanced once))
       equipmentName
     = removeDuplicatesAdvanced once).
Proof.
  split; [| split; [| split; [| split]]].
  - intros Hv Hs.
    by apply resolveOverlapsAdvanced_fixed, resolveOverlapsAdvanced_chained.
  - apply consolidate_idempotent.
  - apply fill_idempotent.
  - apply applyMLOptimizations_idempotent.
  - intros Hv once.
    assert (stronglyChained (removeDuplicatesAdvanced once)) as Hch.
    { apply dedupFilter_stronglyChained, chained_strongly.
      by apply resolveStatusConflictsAdvanced_chained. }
    rewrite sortByStart_fixed by done.
    by apply resolveOverlapsAdvanced_fixed, strongly_chained.
Qed.

(** The two overlapping records of scenario A are sorted and valid; the
    resolver merges them, and changes nothing when run on the result. *)
Lemma stages_idempotent_witness :
  let l := [ scenarioA1 1705276800000 None 0.5 None;
             scenarioA2 1705276800000 None 0.25 None ] in
  resolveOverlapsAdvanced defaultConfig
    (resolveOverlapsAdvanced defaultConfig l "EQ-1") "EQ-1"
  = resolveOverlapsAdvanced defaultConfig l "EQ-1".
Proof.
  intros l. apply (proj1 (stages_idempotent defaultConfig "EQ-1" l)).
  - repeat (constructor; [vm_compute; reflexivity |]). constructor.
  - split; [| split; [constructor | exact I]].
    constructor; [| constructor]. vm_compute. discriminate.
Defined.

(** ** Further properties of the normaliser *)

Lemma dedupFilter_sublist (l : list StatusRecord) :
  ∀ seen, sublist (dedupFilter seen l) l.
Proof.
  induction l as [|s rest IH]; intros seen; simpl; [constructor |].
  destruct (seen !! dedupKey s) as [existing|].
  - destruct (PrimFloat.ltb _ _).
    + apply sublist_skip, IH.
    + apply sublist_cons, IH.
  - apply sublist_skip, IH.
Qed.

Lemma dedupFilter_distinct (l : list StatusRecord) :
  ∀ seen,
    NoDup (dedupKey <$> l) →
    (∀ s, s ∈ l → seen !! dedupKey s = None) →
    dedupFilter seen l = l.
Proof.
  induction l as [|s rest IH]; intros seen Hnd Hfresh; [done |].
  simpl. rewrite (Hfresh s) by (by left).
  apply NoDup_cons in Hnd as [Hnotin Hnd]. f_equal. apply IH; [done |].
  intros s' Hs'. rewrite lookup_insert_ne; [apply Hfresh; by right |].
  intros E. apply Hnotin. rewrite E. by apply list_elem_of_fmap_2.
Qed.

(** X1: [removeDuplicatesAdvanced] only drops records: what it returns is
    a sublist of its input, in the input's order; it always keeps the
    first record; and when no two records share a dedup key it returns
    the input unchanged. *)
Theorem removeDuplicatesAdvanced_sublist (statusList : list StatusRecord) :
  sublist (removeDuplicatesAdvanced statusList) statusList
  ∧ head (removeDuplicatesAdvanced statusList) = head statusList
  ∧ (NoDup (dedupKey <$> statusList) →
     removeDuplicatesAdvanced statusList = statusList).
Proof.
  split; [apply dedupFilter_sublist |]. split.
  - destruct statusList as [|s rest]; [done |].
    unfold removeDuplicatesAdvanced. simpl. by rewrite lookup_empty.
  - intros Hnd. apply dedupFilter_distinct; [done |].
    intros s _. apply lookup_empty.
Qed.

Lemma dedupFilter_idempotent (l : list StatusRecord) :
  ∀ seen, dedupFilter seen (dedupFilter seen l) = dedupFilter seen l.
Proof.
  induction l as [|s rest IH]; intros seen; [done |].
  simpl. destruct (seen !! dedupKey s) as [existing|] eqn:E.
  - destruct (PrimFloat.ltb _ _) eqn:Hlt; [| apply IH].
    simpl. rewrite E, Hlt. f_equal. apply IH.
  - simpl. rewrite E. f_equal. apply IH.
Qed.

(** X2: [removeDuplicatesAdvanced] is idempotent: run on its own output
    it removes nothing more. *)
Theorem removeDuplicatesAdvanced_idempotent (statusList : list StatusRecord) :
  removeDuplicatesAdvanced (removeDuplicatesAdvanced statusList)
  = removeDuplicatesAdvanced statusList.
Proof. apply dedupFilter_idempotent. Qed.

Lemma insertByStart_perm x l : insertByStart x l ≡ₚ x :: l.
Proof.
  induction l as [|y l' IH]; [done |]. simpl.
  destruct (start x <=? start y); [done |].
  rewrite IH. apply Permutation_swap.
Qed.

Lemma insertByStart_filter (k : Z) x l :
  filter (λ s, start s = k) (insertByStart x l)
  = if decide (start x = k) then x :: filter (λ s, start s = k) l
    else filter (λ s, start s = k) l.
Proof.
  induction l as [|y l' IH].
  - simpl. rewrite filter_cons, filter_nil. by destruct (decide (start x = k)).
  - simpl. destruct (start x <=? start y) eqn:E.
    + rewrite filter_cons. by destruct (decide (start x = k)).
    + apply Z.leb_gt in E. rewrite !(filter_cons _ y), IH.
      destruct (decide (start x = k)) as [Ex|Ex]; [| done].
      destruct (decide (start y = k)); [lia | done].
Qed.

(** X3: the sort on start time returns a permutation of its input whose
    starts ascend, and it is stable: records with the same start keep
    their arrival order. *)
Theorem sortByStart_stable_sort (l : list StatusRecord) :
  sortByStart l ≡ₚ l
  ∧ startSorted (sortByStart l)
  ∧ ∀ k, filter (λ s, start s = k) (sortByStart l)
         = filter (λ s, start s = k) l.
Proof.
  split; [| split].
  - induction l as [|x l' IH]; [done |]. simpl.
    by rewrite insertByStart_perm, IH.
  - apply sortByStart_sorted.
  - intros k. induction l as [|x l' IH]; [done |]. simpl.
    rewrite insertByStart_filter, IH, filter_cons.
    by destruct (decide (start x = k)).
Qed.

Lemma resolveOverlap_latestLike cfg equipmentName current s :
  latestLike cfg → resolveOverlap cfg equipmentName current s = s.
Proof.
  intros (Hp & Hi & Hl). unfold resolveOverlap, resolveConflictAdvanced.
  apply String.eqb_neq in Hp, Hi, Hl. rewrite Hp, Hi.
  unfold resolveConflictTraditional. rewrite Hp, Hl.
  by destruct (String.eqb (conflictResolution cfg) "latest").
Qed.

Lemma resolveLoop_latestLike cfg equipmentName (rest : list StatusRecord) :
  latestLike cfg →
  ∀ current,
    sublist (resolveLoop cfg equipmentName current rest) (current :: rest)
    ∧ last (resolveLoop cfg equipmentName current rest)
      = last (current :: rest).
Proof.
  intros Hcfg. induction rest as [|s rest' IH]; intros current; [done |].
  simpl resolveLoop. destruct (hasOverlap current s).
  - rewrite resolveOverlap_latestLike by done.
    destruct (IH s) as [Hsub Hlast]. split; [by apply sublist_cons |].
    by rewrite Hlast.
  - destruct (IH s) as [Hsub Hlast]. split; [by apply sublist_skip |].
    by rewrite (last_cons current (s :: rest')), <- Hlast, last_cons.
Qed.

Lemma resolveLoop_strategy cfg cfg' equipmentName (rest : list StatusRecord) :
  latestLike cfg → latestLike cfg' →
  ∀ current,
    resolveLoop cfg equipmentName current rest
    = resolveLoop cfg' equipmentName current rest.
Proof.
  intros Hcfg Hcfg'. induction rest as [|s rest' IH]; intros current; [done |].
  simpl. rewrite !resolveOverlap_latestLike by done. by rewrite !IH.
Qed.

(** X4: under the [latest] strategy, and under every strategy name that
    the resolver does not know (it takes the default branch), the
    overlap resolver never alters a record: its output is a sublist of
    its input that ends with the input's last record, and it is the
    output of the [latest] strategy. *)
Theorem resolveOverlapsAdvanced_latest (cfg : Config)
    (statusList : list StatusRecord) (equipmentName : string) :
  latestLike cfg →
  sublist (resolveOverlapsAdvanced cfg statusList equipmentName) statusList
  ∧ last (resolveOverlapsAdvanced cfg statusList equipmentName)
    = last statusList
  ∧ resolveOverlapsAdvanced cfg statusList equipmentName
    = resolveOverlapsAdvanced
        {| conflictResolution := "latest"; gapTolerance := gapTolerance cfg |}
        statusList equipmentName.
Proof.
  intros Hcfg. destruct statusList as [|first [|second rest]]; [done.. |].
  unfold resolveOverlapsAdvanced.
  destruct (resolveLoop_latestLike cfg equipmentName (second :: rest) Hcfg first)
    as [Hsub Hlast].
  repeat split; [done | done |].
  apply resolveLoop_strategy; [done |]. by repeat split.
Qed.

Lemma resolveOverlapsAdvanced_latest_witness :
  let cfg := {| conflictResolution := "merge"; gapTolerance := 60 |} in
  let l := [ scenarioA1 0 None 0.5 None; scenarioA2 0 None 0.5 None ] in
  latestLike cfg
  ∧ resolveOverlapsAdvanced cfg l "EQ-1" = [scenarioA2 0 None 0.5 None]
  ∧ sublist (resolveOverlapsAdvanced cfg l "EQ-1") l.
Proof.
  intros cfg l.
  assert (latestLike cfg) as H by (by repeat split).
  split; [exact H |]. split; [reflexivity |].
  exact (proj1 (resolveOverlapsAdvanced_latest cfg l "EQ-1" H)).
Defined.

Lemma resolveLoop_length cfg equipmentName (rest : list StatusRecord) :
  ∀ current,
    (1 ≤ length (resolveLoop cfg equipmentName current rest)
     ≤ S (length rest))%nat.
Proof.
  induction rest as [|s rest' IH]; intros current; simpl; [lia |].
  destruct (hasOverlap current s); simpl.
  - specialize (IH (resolveOverlap cfg equipmentName current s)). lia.
  - specialize (IH s). lia.
Qed.

Lemma consolidateLoop_length cfg (rest : list StatusRecord) :
  ∀ current,
    (1 ≤ length (consolidateLoop cfg current rest) ≤ S (length rest))%nat.
Proof.
  induction rest as [|s rest' IH]; intros current; simpl; [lia |].
  destruct (shouldConsolidate cfg current s); simpl.
  - specialize (IH (mergeStatusAdvanced current s)). lia.
  - specialize (IH s). lia.
Qed.

Lemma fillLoop_sublist cfg equipmentName (l : list StatusRecord) :
  sublist l (fillLoop cfg equipmentName l).
Proof.
  induction l as [|a tl IH]; [constructor |].
  destruct tl as [|b tl']; [done |].
  change (fillLoop cfg equipmentName (a :: b :: tl'))
    with (a :: (if isSmallGap cfg a b
                then fillerBetween a b equipmentName
                       :: fillLoop cfg equipmentName (b :: tl')
                else fillLoop cfg equipmentName (b :: tl'))).
  apply sublist_skip. destruct (isSmallGap cfg a b); [apply sublist_cons |]; done.
Qed.

Lemma fillLoop_length cfg equipmentName (l : list StatusRecord) :
  (length (fillLoop cfg equipmentName l) ≤ 2 * length l - 1)%nat.
Proof.
  induction l as [|a tl IH]; [done |].
  destruct tl as [|b tl']; [simpl; lia |].
  change (fillLoop cfg equipmentName (a :: b :: tl'))
    with (a :: (if isSmallGap cfg a b
                then fillerBetween a b equipmentName
                       :: fillLoop cfg equipmentName (b :: tl')
                else fillLoop cfg equipmentName (b :: tl'))).
  destruct (isSmallGap cfg a b); simpl in *; lia.
Qed.

Lemma sortByStart_perm (l : list StatusRecord) : sortByStart l ≡ₚ l.
Proof.
  induction l as [|x l' IH]; [done |]. simpl.
  by rewrite insertByStart_perm, IH.
Qed.

(** X5: the pipeline returns no record for an empty input and, for [n]
    input records with [n] at least one, between one and [2n - 1]
    records: deduplication, overlap resolution and consolidation never
    add a record and never empty a list, the gap filler adds at most one
    filler between two neighbours, and the corrector keeps the length. *)
Theorem resolveStatusConflictsAdvanced_length (cfg : Config)
    (statusList : list StatusRecord) (equipmentName : string) :
  (length (resolveStatusConflictsAdvanced cfg statusList equipmentName)
   ≤ 2 * length statusList - 1)%nat
  ∧ (resolveStatusConflictsAdvanced cfg statusList equipmentName = []
     ↔ statusList = []).
Proof.
  destruct statusList as [|s0 rest0]; [done |].
  unfold resolveStatusConflictsAdvanced.
  set (l := s0 :: rest0).
  pose proof (sublist_length _ _ (dedupFilter_sublist l ∅)) as Hd.
  fold (removeDuplicatesAdvanced l) in Hd.
  assert (1 ≤ length (removeDuplicatesAdvanced l))%nat as Hd1.
  { unfold removeDuplicatesAdvanced, l. simpl. rewrite lookup_empty.
    simpl. lia. }
  assert (length (sortByStart (removeDuplicatesAdvanced l))
          = length (removeDuplicatesAdvanced l)) as Hs.
  { apply Permutation_length, sortByStart_perm. }
  set (sorted := sortByStart (removeDuplicatesAdvanced l)) in *.
  assert (1 ≤ length (resolveOverlapsAdvanced cfg sorted equipmentName)
          ≤ length sorted)%nat as Hr.
  { destruct sorted as [|a [|b tl]]; [simpl in *; lia | simpl; lia |].
    apply resolveLoop_length. }
  set (resolved := resolveOverlapsAdvanced cfg sorted equipmentName) in *.
  assert (1 ≤ length (consolidateConsecutiveAdvanced cfg resolved equipmentName)
          ≤ length resolved)%nat as Hc.
  { destruct resolved as [|a [|b tl]]; [simpl in *; lia | simpl; lia |].
    apply consolidateLoop_length. }
  set (cons := consolidateConsecutiveAdvanced cfg resolved equipmentName) in *.
  rewrite fillSmallGapsIntelligent_fillLoop.
  pose proof (fillLoop_length cfg equipmentName cons) as Hf.
  pose proof (sublist_length _ _ (fillLoop_sublist cfg equipmentName cons)) as Hf1.
  set (filled := fillLoop cfg equipmentName cons) in *.
  assert (length (applyMLOptimizations filled equipmentName) = length filled)
    as Hm.
  { unfold applyMLOptimizations.
    destruct (length filled <? 3)%nat; [done | apply optimizeLoop_length]. }
  split.
  - rewrite Hm. subst l. simpl in *. lia.
  - split; [| done]. intros E. rewrite E in Hm. simpl in Hm. lia.
Qed.

Lemma consolidateLoop_span cfg (rest : list StatusRecord) :
  ∀ current,
    start <$> head (consolidateLoop cfg current rest) = Some (start current)
    ∧ end_ <$> last (consolidateLoop cfg current rest)
      = end_ <$> last (current :: rest)
    ∧ sublist (status <$> consolidateLoop cfg current rest)
              (status <$> current :: rest).
Proof.
  induction rest as [|s rest' IH]; intros current; [done |].
  simpl consolidateLoop. destruct (shouldConsolidate cfg current s).
  - destruct (IH (mergeStatusAdvanced current s)) as (Hh & Hl & Hs).
    split; [done |]. split.
    + rewrite Hl. by destruct rest'.
    + rewrite !fmap_cons in *. simpl in Hs.
      etrans; [exact Hs |].
      apply sublist_skip, sublist_cons. done.
  - destruct (IH s) as (Hh & Hl & Hs). split; [done |]. split.
    + rewrite (last_cons current (s :: rest')), last_cons.
      destruct (last (consolidateLoop cfg s rest')) eqn:E1;
        destruct (last (s :: rest')) eqn:E2; simpl in *; congruence.
    + rewrite (fmap_cons status current (s :: rest')), fmap_cons.
      by apply sublist_skip.
Qed.

(** X6: consolidation keeps the span and the order of states: the first
    record of its output starts where the first input record starts, the
    last one ends where the last input record ends, the statuses of the
    output are a subsequence of the statuses of the input, and the
    output is never longer than the input. *)
Theorem consolidateConsecutiveAdvanced_span (cfg : Config)
    (statusList : list StatusRecord) (equipmentName : string) :
  let consolidated :=
    consolidateConsecutiveAdvanced cfg statusList equipmentName in
  start <$> head consolidated = start <$> head statusList
  ∧ end_ <$> last consolidated = end_ <$> last statusList
  ∧ sublist (status <$> consolidated) (status <$> statusList)
  ∧ (length consolidated ≤ length statusList)%nat.
Proof.
  destruct statusList as [|first [|second rest]]; [done.. |].
  cbv zeta. unfold consolidateConsecutiveAdvanced.
  destruct (consolidateLoop_span cfg (second :: rest) first) as (Hh & Hl & Hs).
  pose proof (consolidateLoop_length cfg (second :: rest) first).
  simpl length in *. repeat split; try done; lia.
Qed.

Lemma fillLoop_last cfg equipmentName (l : list StatusRecord) :
  last (fillLoop cfg equipmentName l) = last l.
Proof.
  induction l as [|a tl IH]; [done |].
  destruct tl as [|b tl']; [done |].
  destruct (fillLoop_cons cfg equipmentName b tl') as [tl2 E].
  change (fillLoop cfg equipmentName (a :: b :: tl'))
    with (a :: (if isSmallGap cfg a b
                then fillerBetween a b equipmentName
                       :: fillLoop cfg equipmentName (b :: tl')
                else fillLoop cfg equipmentName (b :: tl'))).
  rewrite E in *. destruct (isSmallGap cfg a b); simpl in *; exact IH.
Qed.

Lemma fillLoop_fillers cfg equipmentName (l : list StatusRecord) :
  Forall (λ s, gap_filled s = false) l →
  filter (λ s, gap_filled s = false) (fillLoop cfg equipmentName l) = l
  ∧ adjacentAll bridged (fillLoop cfg equipmentName l).
Proof.
  induction l as [|a tl IH]; [done |].
  intros [Ha Htl]%Forall_cons. specialize (IH Htl).
  destruct tl as [|b tl'].
  - simpl. rewrite filter_cons, filter_nil.
    by destruct (decide (gap_filled a = false)).
  - destruct IH as [IHf IHb].
    assert (gap_filled b = false) as Hb by (by apply Forall_cons in Htl as [? _]).
    destruct (fillLoop_cons cfg equipmentName b tl') as [tl2 E].
    change (fillLoop cfg equipmentName (a :: b :: tl'))
      with (a :: (if isSmallGap cfg a b
                  then fillerBetween a b equipmentName
                         :: fillLoop cfg equipmentName (b :: tl')
                  else fillLoop cfg equipmentName (b :: tl'))).
    rewrite filter_cons. destruct (decide (gap_filled a = false)); [| done].
    destruct (isSmallGap cfg a b).
    + rewrite filter_cons.
      destruct (decide (gap_filled (fillerBetween a b equipmentName) = false))
        as [Hf|_]; [done |].
      split; [by rewrite IHf |].
      rewrite E in *. split; [| split; [| exact IHb]].
      * unfold bridged. simpl. split; [done | congruence].
      * unfold bridged. simpl. split; [congruence | done].
    + split; [by rewrite IHf |].
      rewrite E in *. split; [| exact IHb].
      unfold bridged. split; congruence.
Qed.

(** X7: the gap filler only inserts: its input is a sublist of its
    output, with the same first and last record; when the input carries
    no filler of an earlier run, removing the records marked
    [gap_filled] gives the input back, and every filler starts exactly
    where its predecessor ends and ends exactly where its successor
    starts. *)
Theorem fillSmallGapsIntelligent_inserts_bridges (cfg : Config)
    (statusList : list StatusRecord) (equipmentName : string) :
  let filled := fillSmallGapsIntelligent cfg statusList equipmentName in
  sublist statusList filled
  ∧ head filled = head statusList
  ∧ last filled = last statusList
  ∧ (Forall (λ s, gap_filled s = false) statusList →
     filter (λ s, gap_filled s = false) filled = statusList
     ∧ adjacentAll bridged filled).
Proof.
  cbv zeta. rewrite fillSmallGapsIntelligent_fillLoop.
  split; [apply fillLoop_sublist |]. split; [by destruct statusList |].
  split; [apply fillLoop_last |]. apply fillLoop_fillers.
Qed.

(** X8: compatibility of status codes is a partial equivalence: it is
    symmetric and transitive (the four groups share no code), so
    consolidating compatible neighbours cannot chain codes of two
    different groups. *)
Theorem areStatusesCompatible_partial_equivalence :
  (∀ a b, areStatusesCompatible a b = areStatusesCompatible b a)
  ∧ (∀ a b c,
       areStatusesCompatible a b = true →
       areStatusesCompatible b c = true →
       areStatusesCompatible a c = true).
Proof.
  split.
  - intros a b. unfold areStatusesCompatible, compatibleGroups, existsb.
    by rewrite !(andb_comm (groupIncludes _ a)).
  - intros a b c.
    unfold areStatusesCompatible, compatibleGroups, groupIncludes, existsb.
    rewrite !orb_true_iff, !andb_true_iff, !orb_true_iff, !String.eqb_eq.
    intros Hab Hbc.
    repeat match goal with
           | H : _ ∨ _ |- _ => destruct H
           | H : _ ∧ _ |- _ => destruct H
           | H : False |- _ => destruct H
           | H : false = true |- _ => discriminate H
           end; subst; try discriminate; tauto.
Qed.

Lemma isAnomalousSequence_short p c n :
  isAnomalousSequence p c n = true →
  (status c = "stopped" ∧ status p = "running"
   ∧ end_ c - start c < 30000)
  ∨ (status c = "running" ∧ status p = "off" ∧ end_ c - start c < 60000)
  ∨ (status c = "running" ∧ status p = "maintenance"
     ∧ end_ c - start c < 300000).
Proof.
  unfold isAnomalousSequence, anomalousPatterns, existsb.
  cbn [patPrev patCurrent patNext maxDuration].
  rewrite !orb_true_iff, !andb_true_iff, !String.eqb_eq, !Z.ltb_lt.
  intros [H | [H | [H | H]]]; [| | | done];
    destruct H as [[[Hp Hc] Hn] Hd]; auto 10.
Qed.

(** X9: the anomaly corrector rewrites nothing but short stops and short
    runs. A record that the corrector changes is neither the first nor
    the last of the list, and it is a [stopped] record of less than 30 s
    that becomes [running], a [running] record of less than 60 s that
    becomes [off], or a [running] record of less than 5 min that becomes
    [maintenance]. *)
Theorem applyMLOptimizations_scope (statusList : list StatusRecord)
    (equipmentName : string) (i : nat) (current out : StatusRecord) :
  statusList !! i = Some current →
  applyMLOptimizations statusList equipmentName !! i = Some out →
  out ≠ current →
  (0 < i)%nat ∧ (S i < length statusList)%nat
  ∧ ((status current = "stopped" ∧ status out = "running"
      ∧ end_ current - start current < 30000)
     ∨ (status current = "running" ∧ status out = "off"
        ∧ end_ current - start current < 60000)
     ∨ (status current = "running" ∧ status out = "maintenance"
        ∧ end_ current - start current < 300000)).
Proof.
  intros Hi Ho Hne. unfold applyMLOptimizations in Ho.
  destruct (length statusList <? 3)%nat; [congruence |].
  rewrite optimizeLoop_lookup, Hi in Ho. simpl in Ho.
  injection Ho as <-.
  destruct (optimizeAt_cases (prevOf None statusList i) current
              (statusList !! S i)) as [E | (p & n & Hp & Hn & Han & E)];
    [done |].
  split; [destruct i; [done | lia] |].
  split; [by apply lookup_lt_Some in Hn |].
  rewrite E. destruct (correctAnomalousSequence_status p current n) as [-> _].
  apply isAnomalousSequence_short in Han.
  destruct Han as [(? & -> & ?) | [(? & -> & ?) | (? & -> & ?)]]; auto 10.
Qed.

Lemma applyMLOptimizations_scope_witness :
  ∃ current out,
    scenarioE !! 1%nat = Some current
    ∧ applyMLOptimizations scenarioE "EQ-1" !! 1%nat = Some out
    ∧ out ≠ current
    ∧ status current = "stopped" ∧ status out = "running".
Proof.
  eexists _, _. split; [reflexivity |]. split; [reflexivity |].
  match goal with
  | |- ?o ≠ ?c ∧ _ =>
      assert (o ≠ c) as Hne
        by (intros E; apply (f_equal anomaly_corrected) in E;
            vm_compute in E; discriminate E);
      pose proof (applyMLOptimizations_scope scenarioE "EQ-1" 1 c o
                    eq_refl eq_refl Hne) as H
  end.
  split; [exact Hne |].
  destruct H as (_ & _ & [(Hc & Ho & _) | [(Hc & _) | (Hc & _)]]);
    [by split | discriminate Hc | discriminate Hc].
Defined.

(** ** Further properties of the rule store *)

Lemma prop_setField (k : string) (x : JsValue) fields :
  Js.prop k (setField k x fields) = Some x.
Proof.
  induction fields as [|[k' v] fields' IH]; simpl.
  - by rewrite String.eqb_refl.
  - destruct (String.eqb k k') eqn:E; simpl; [by rewrite String.eqb_refl |].
    by rewrite E.
Qed.

Lemma prop_setField_ne (k k' : string) (x : JsValue) fields :
  k ≠ k' → Js.prop k' (setField k x fields) = Js.prop k' fields.
Proof.
  intros Hne. induction fields as [|[k0 v] fields' IH]; simpl.
  - by apply String.eqb_neq in Hne; rewrite String.eqb_sym, Hne.
  - destruct (String.eqb k k0) eqn:E; simpl.
    + apply String.eqb_eq in E as <-.
      assert (String.eqb k' k = false) as ->; [| done].
      apply String.eqb_neq. congruence.
    + by rewrite IH.
Qed.

Lemma field_setIn fields (k : string) (x : JsValue) :
  field (setIn (JObj fields) k x) k = x.
Proof. simpl. by rewrite prop_setField. Qed.

Lemma field_setIn_ne (rules : JsValue) (k k' : string) (x : JsValue) :
  k ≠ k' → field (setIn rules k x) k' = field rules k'.
Proof.
  intros Hne. destruct rules; try done. simpl. by rewrite prop_setField_ne.
Qed.

Lemma get_Ok (v : JsValue) (k : string) (x : JsValue) :
  get v k = Ok x → x = field v k.
Proof. destruct v; simpl; congruence. Qed.

Lemma get_obj fields (k : string) :
  get (JObj fields) k = Ok (field (JObj fields) k).
Proof. done. Qed.

Lemma set_Ok (v : JsValue) (k : string) (x v' : JsValue) :
  set v k x = Ok v' → ∃ fields, v = JObj fields ∧ v' = setIn v k x.
Proof. destruct v; simpl; try congruence. intros [= <-]. by eexists. Qed.

(** With no context field, the three context layers of [evaluateRules]
    yield nothing, provided [globalSettings] can be read. *)
Lemma evaluateRules_emptyContext (rc : JsValue) gs activity activityType :
  get rc "globalSettings" = Ok (JObj gs) →
  evaluateRules rc activity activityType emptyContext
  = (baseResult ← applyBaseRules rc activity activityType;
     logged activity baseResult).
Proof.
  intros Hgs. unfold evaluateRules. rewrite Hgs. cbn -[applyBaseRules].
  destruct (truthy (default JUndefined (Js.prop "enableTimeBasedRules" gs)));
    cbn -[applyBaseRules];
  destruct (truthy (default JUndefined (Js.prop "enableGroupOverrides" gs)));
    cbn -[applyBaseRules];
  destruct (truthy (default JUndefined (Js.prop "enableContextualRules" gs)));
    cbn -[applyBaseRules]; done.
Qed.

(** The table that [updateRule] writes to. *)
Lemma updateRule_Ok (type key : string) (value : JsValue) (m m' : RulesModule) :
  truthy (rulesConfig m) = true →
  updateRule type key value m = Ok m' →
  let target := if String.eqb type "telemetry" || String.eqb type "status"
                then "telemetryRules" else "appointmentRules" in
  ∃ fields table,
    rulesConfig m = JObj fields
    ∧ (if truthy (field (rulesConfig m) target)
       then field (rulesConfig m) target else JObj []) = JObj table
    ∧ convertsToString value = true
    ∧ m' = {| rulesConfig :=
                setIn (rulesConfig m) target (JObj (setField key value table));
              isDirty := true |}.
Proof.
  intros Hrc. unfold updateRule. rewrite Hrc. cbn [negb]. cbv zeta.
  set (target := if String.eqb type "telemetry" || String.eqb type "status"
                 then "telemetryRules" else "appointmentRules").
  destruct (rulesConfig m) as [| | | | |fields] eqn:Erc; try done.
  rewrite get_obj. cbn [mbind exc_bind].
  destruct (truthy (field (JObj fields) target)) eqn:Ecur; cbn [negb].
  - cbn [mbind exc_bind]. rewrite get_obj. cbn [mbind exc_bind].
    destruct (field (JObj fields) target) as [| | | | |table] eqn:Etab;
      try done.
    cbn [set mbind exc_bind]. unfold interpolate.
    destruct (convertsToString value); [| done].
    cbn [mbind exc_bind]. intros [= <-]. by exists fields, table.
  - cbn [set mbind exc_bind get]. rewrite prop_setField.
    cbn [default mbind exc_bind set]. unfold interpolate.
    destruct (convertsToString value); [| done].
    cbn [mbind exc_bind]. intros [= <-].
    exists fields, []. repeat split; try done.
    f_equal. simpl. f_equal.
    clear. induction fields as [|[k v] fields' IH]; simpl.
    + by rewrite String.eqb_refl.
    + destruct (String.eqb target k) eqn:E; simpl.
      * by rewrite String.eqb_refl.
      * by rewrite E, IH.
Qed.

(** [evaluateRules] reads the document through four fields and through
    [applyBaseRules]. *)
Lemma evaluateRules_frame (rc rc' : JsValue) activity activityType context :
  get rc' "globalSettings" = get rc "globalSettings" →
  get rc' "timeBasedRules" = get rc "timeBasedRules" →
  get rc' "groupSpecificRules" = get rc "groupSpecificRules" →
  get rc' "contextualRules" = get rc "contextualRules" →
  applyBaseRules rc' activity activityType
  = applyBaseRules rc activity activityType →
  evaluateRules rc' activity activityType context
  = evaluateRules rc activity activityType context.
Proof.
  intros Hgs Htb Hgr Hcx Hbase.
  unfold evaluateRules, applyTimeBasedRules, applyGroupOverrides,
    applyContextualRules.
  by rewrite Hgs, Htb, Hgr, Hcx, Hbase.
Qed.

Lemma get_setIn_ne fields (k k' : string) (x : JsValue) :
  k ≠ k' → get (setIn (JObj fields) k x) k' = get (JObj fields) k'.
Proof. intros Hne. simpl. by rewrite prop_setField_ne. Qed.

(** Writing one entry of one of the two class tables changes the base
    classification of no other activity. *)
Lemma applyBaseRules_frame fields table (target key : string)
    (value : JsValue) activity activityType :
  target = "telemetryRules" ∨ target = "appointmentRules" →
  (if truthy (field (JObj fields) target)
   then field (JObj fields) target else JObj []) = JObj table →
  (target ≠ (if String.eqb activityType "status"
             then "telemetryRules" else "appointmentRules")
   ∨ activityKey activity ≠ Ok key) →
  applyBaseRules
    (setIn (JObj fields) target (JObj (setField key value table)))
    activity activityType
  = applyBaseRules (JObj fields) activity activityType.
Proof.
  intros Htarget Htable Hother.
  assert (get (setIn (JObj fields) target (JObj (setField key value table)))
              "globalSettings" = get (JObj fields) "globalSettings") as Hgs.
  { apply get_setIn_ne. by destruct Htarget as [-> | ->]. }
  unfold applyBaseRules, intelligentFallback. rewrite Hgs.
  set (read := if String.eqb activityType "status"
               then "telemetryRules" else "appointmentRules") in *.
  assert ((if String.eqb activityType "status"
           then get (setIn (JObj fields) target
                      (JObj (setField key value table))) "telemetryRules"
           else get (setIn (JObj fields) target
                      (JObj (setField key value table))) "appointmentRules")
          = get (setIn (JObj fields) target (JObj (setField key value table)))
                read) as -> by (unfold read; by destruct (String.eqb _ _)).
  assert ((if String.eqb activityType "status"
           then get (JObj fields) "telemetryRules"
           else get (JObj fields) "appointmentRules")
          = get (JObj fields) read) as ->
    by (unfold read; by destruct (String.eqb _ _)).
  destruct (decide (target = read)) as [<- | Hne].
  - destruct Hother as [? | Hkey]; [done |].
    cbn [setIn get field] in *. rewrite prop_setField.
    cbn [default from_option id mbind exc_bind truthy get].
    unfold tableAt.
    destruct (activityKey activity) as [k|] eqn:Ek.
    + assert (key ≠ k) as Hne by congruence.
      cbn [mbind exc_bind get]. rewrite prop_setField_ne by done.
      destruct (truthy (default JUndefined (Js.prop target fields)))
        eqn:Ecur.
      * rewrite Htable. by cbn [mbind exc_bind truthy get].
      * injection Htable as <-.
        by cbn [mbind exc_bind Js.prop default from_option].
    + cbn [mbind exc_bind].
      destruct (truthy (default JUndefined (Js.prop target fields))) eqn:Ecur;
        [done |].
      by destruct activity.
  - by rewrite get_setIn_ne.
Qed.

(** After [rules[target][key] = value] in one of the two class tables,
    [key] is classified as [value] when no context is given. *)
Lemma classify_written_entry fields table gs (key : string) (value : JsValue)
    (activityType : string) :
  let target := if String.eqb activityType "status"
                then "telemetryRules" else "appointmentRules" in
  field (JObj fields) "globalSettings" = JObj gs →
  Js.truthy_str key = true →
  truthy value = true →
  convertsToString value = true →
  classifyActivityAdvanced (AStr key) activityType
    (Some (setIn (JObj fields) target (JObj (setField key value table))))
    emptyContext = Ok value.
Proof.
  intros target Hgs Hkey Hvalue Hconv.
  unfold classifyActivityAdvanced, activityTruthy. rewrite Hkey. cbn [negb].
  unfold applyIntelligentRules. cbn [setIn truthy negb].
  assert (target ≠ "globalSettings") as Hne
    by (unfold target; by destruct (String.eqb _ _)).
  rewrite (evaluateRules_emptyContext _ gs).
  - unfold applyBaseRules.
    assert ((if String.eqb activityType "status"
             then get (JObj (setField target (JObj (setField key value table))
                               fields)) "telemetryRules"
             else get (JObj (setField target (JObj (setField key value table))
                               fields)) "appointmentRules")
            = Ok (JObj (setField key value table))) as ->.
    { unfold target. destruct (String.eqb activityType "status");
        cbn [get]; by rewrite prop_setField. }
    unfold tableAt.
    cbn [mbind exc_bind truthy get activityKey]. rewrite prop_setField.
    cbn [default from_option id mbind exc_bind]. rewrite Hvalue.
    cbn [mbind exc_bind]. by rewrite (logged_decides _ key).
  - cbn [get]. rewrite prop_setField_ne by done.
    cbn [field] in Hgs. by rewrite Hgs.
Qed.

(** After the same write, every other activity is classified as before,
    in every context. *)
Lemma classify_other_entries fields table (target key : string)
    (value : JsValue) activity activityType context :
  target = "telemetryRules" ∨ target = "appointmentRules" →
  (if truthy (field (JObj fields) target)
   then field (JObj fields) target else JObj []) = JObj table →
  (target ≠ (if String.eqb activityType "status"
             then "telemetryRules" else "appointmentRules")
   ∨ activityKey activity ≠ Ok key) →
  applyIntelligentRules
    (setIn (JObj fields) target (JObj (setField key value table)))
    activity activityType context
  = applyIntelligentRules (JObj fields) activity activityType context.
Proof.
  intros Htarget Htable Hother.
  unfold applyIntelligentRules. cbn [setIn truthy negb].
  rewrite (evaluateRules_frame (JObj fields)
             (JObj (setField target (JObj (setField key value table)) fields)));
    [done | | | | |].
  1-4: apply (get_setIn_ne fields target); by destruct Htarget as [-> | ->].
  by apply (applyBaseRules_frame fields table target key value).
Qed.

(** X10: an edited rule takes effect. When [updateRule] completes for
    a key other than [__proto__], on a document whose [globalSettings]
    is an object, the module is dirty and, with no context, the
    activity [key] of the edited table is classified as the new
    [value] (a non-empty key, a truthy value). *)
Theorem updateRule_takes_effect (type key : string) (value : JsValue)
    (m m' : RulesModule) (gs : list (string * JsValue))
    (activityType : string) :
  key ≠ "__proto__" →
  field (rulesConfig m) "globalSettings" = JObj gs →
  updateRule type key value m = Ok m' →
  String.eqb activityType "status"
  = (String.eqb type "telemetry" || String.eqb type "status") →
  Js.truthy_str key = true →
  truthy value = true →
  isDirty m' = true
  ∧ classifyActivityAdvanced (AStr key) activityType
      (Some (rulesConfig m')) emptyContext = Ok value.
Proof.
  intros _ Hgs Hup Hty Hkey Hvalue.
  assert (truthy (rulesConfig m) = true) as Hrc
    by (by destruct (rulesConfig m)).
  destruct (updateRule_Ok type key value m m' Hrc Hup)
    as (fields & table & Efields & Etable & Hconv & ->).
  split; [done |]. cbn [rulesConfig]. rewrite Efields in *.
  rewrite <- Hty. by apply (classify_written_entry fields table gs).
Qed.

Lemma updateRule_takes_effect_witness :
  ∃ m',
    updateRule "status" "drilling" (JStr "productive") cleanModule = Ok m'
    ∧ classifyActivityAdvanced (AStr "drilling") "status"
        (Some (rulesConfig m')) emptyContext = Ok (JStr "productive").
Proof.
  eexists. split; [reflexivity |].
  eapply (updateRule_takes_effect "status" "drilling" (JStr "productive")
            cleanModule); [discriminate | reflexivity ..].
Defined.

(** X11: an edit changes nothing else. When [updateRule] completes for
    a key other than [__proto__], the classification of every activity
    code other than [key] that converts to a string and is not an
    inherited name, and of [key] itself in the table that was not
    edited, is what it was before the edit, in every context. *)
Theorem updateRule_frame (type key : string) (value : JsValue)
    (m m' : RulesModule) (activity : Activity) (activityType : string)
    (context : Context) :
  key ≠ "__proto__" →
  ordinaryActivity activity →
  truthy (rulesConfig m) = true →
  updateRule type key value m = Ok m' →
  String.eqb activityType "status"
  ≠ (String.eqb type "telemetry" || String.eqb type "status")
  ∨ activityKey activity ≠ Ok key →
  applyIntelligentRules (rulesConfig m') activity activityType context
  = applyIntelligentRules (rulesConfig m) activity activityType context.
Proof.
  intros _ _ Hrc Hup Hother.
  destruct (updateRule_Ok type key value m m' Hrc Hup)
    as (fields & table & Efields & Etable & _ & ->).
  cbn [rulesConfig]. rewrite Efields in *.
  apply (classify_other_entries fields table); [| done |].
  - destruct (_ || _); auto.
  - destruct Hother as [Hty | Hkey]; [left | by right].
    intros E. apply Hty.
    destruct (String.eqb activityType "status"),
      (String.eqb type "telemetry" || String.eqb type "status"); done.
Qed.

Lemma updateRule_frame_witness :
  ∃ m',
    updateRule "status" "drilling" (JStr "productive") cleanModule = Ok m'
    ∧ applyIntelligentRules (rulesConfig m') (AStr "running") "status"
        emptyContext
      = applyIntelligentRules (rulesConfig cleanModule) (AStr "running")
          "status" emptyContext.
Proof.
  eexists. split; [reflexivity |].
  apply (updateRule_frame "status" "drilling" (JStr "productive") cleanModule).
  - discriminate.
  - exists "running". split; [reflexivity |].
    apply (bool_decide_eq_true_1 _). vm_compute. reflexivity.
  - reflexivity.
  - reflexivity.
  - right. discriminate.
Defined.

Lemma autoAddRule_Ok (suggestion : Suggestion) (m m' : RulesModule) :
  autoAddRule suggestion m = Ok m' →
  let target := if String.eqb (suggestionType suggestion) "status"
                then "telemetryRules" else "appointmentRules" in
  ∃ fields table,
    rulesConfig m = JObj fields
    ∧ field (rulesConfig m) target = JObj table
    ∧ convertsToString (suggestedClassification suggestion) = true
    ∧ m' = {| rulesConfig :=
                setIn (rulesConfig m) target
                  (JObj (setField (suggestionActivity suggestion)
                           (suggestedClassification suggestion) table));
              isDirty := true |}.
Proof.
  unfold autoAddRule. cbv zeta.
  set (target := if String.eqb (suggestionType suggestion) "status"
                 then "telemetryRules" else "appointmentRules").
  destruct (rulesConfig m) as [| | | | |fields] eqn:Erc; try done.
  rewrite get_obj. cbn [mbind exc_bind].
  destruct (field (JObj fields) target) as [| | | | |table] eqn:Etab; try done.
  cbn [set mbind exc_bind]. unfold interpolate.
  destruct (convertsToString (suggestedClassification suggestion)); [| done].
  cbn [mbind exc_bind]. intros [= <-]. by exists fields, table.
Qed.

(** X12: an accepted suggestion takes effect and changes nothing else.
    When [autoAddRule] completes for an activity other than
    [__proto__], the module is dirty; with no context the suggested
    activity is classified as suggested (a non-empty activity, a truthy
    class, [globalSettings] an object); and every other activity code
    that converts to a string and is not an inherited name is
    classified as before, in every context. *)
Theorem autoAddRule_takes_effect (suggestion : Suggestion)
    (m m' : RulesModule) :
  suggestionActivity suggestion ≠ "__proto__" →
  autoAddRule suggestion m = Ok m' →
  isDirty m' = true
  ∧ (∀ gs,
       field (rulesConfig m) "globalSettings" = JObj gs →
       Js.truthy_str (suggestionActivity suggestion) = true →
       truthy (suggestedClassification suggestion) = true →
       classifyActivityAdvanced (AStr (suggestionActivity suggestion))
         (suggestionType suggestion) (Some (rulesConfig m')) emptyContext
       = Ok (suggestedClassification suggestion))
  ∧ (∀ activity activityType context,
       ordinaryActivity activity →
       String.eqb activityType "status"
       ≠ String.eqb (suggestionType suggestion) "status"
       ∨ activityKey activity ≠ Ok (suggestionActivity suggestion) →
       applyIntelligentRules (rulesConfig m') activity activityType context
       = applyIntelligentRules (rulesConfig m) activity activityType context).
Proof.
  intros _ Hadd.
  destruct (autoAddRule_Ok suggestion m m' Hadd)
    as (fields & table & Efields & Etable & Hconv & ->).
  cbn [rulesConfig isDirty]. rewrite Efields in *.
  split; [done |]. split.
  - intros gs Hgs Hkey Hvalue.
    by apply (classify_written_entry fields table gs).
  - intros activity activityType context _ Hother.
    apply (classify_other_entries fields table).
    + destruct (String.eqb _ _); auto.
    + by rewrite Etable.
    + destruct Hother as [Hty | Hkey]; [left | by right].
      intros E. apply Hty.
      destruct (String.eqb activityType "status"),
        (String.eqb (suggestionType suggestion) "status"); done.
Qed.

Lemma autoAddRule_takes_effect_witness :
  let suggestion :=
    {| suggestionType := "apontamento"; suggestionActivity := "Lavagem";
       suggestedClassification := JStr "productive" |} in
  ∃ m',
    autoAddRule suggestion cleanModule = Ok m'
    ∧ isDirty m' = true
    ∧ classifyActivityAdvanced (AStr "Lavagem") "apontamento"
        (Some (rulesConfig m')) emptyContext = Ok (JStr "productive").
Proof.
  intros suggestion. eexists. split; [reflexivity |].
  pose proof (autoAddRule_takes_effect suggestion cleanModule _
                ltac:(discriminate) eq_refl) as (Hdirty & Heffect & _).
  split; [exact Hdirty |].
  apply (Heffect _ eq_refl eq_refl eq_refl).
Defined.

Lemma setIn_obj fields (k : string) (x : JsValue) :
  setIn (JObj fields) k x = JObj (setField k x fields).
Proof. done. Qed.

Lemma fillMissing_obj (k : string) (x : JsValue) fields :
  ∃ fields', fillMissing k x (JObj fields) = JObj fields'.
Proof.
  unfold fillMissing. destruct (truthy _); by eexists.
Qed.

Lemma field_fillMissing_ne (k k' : string) (x rules : JsValue) :
  k ≠ k' → field (fillMissing k x rules) k' = field rules k'.
Proof.
  intros Hne. unfold fillMissing. destruct (truthy _); [done |].
  by apply field_setIn_ne.
Qed.

(** What the migration leaves in the document. *)
Lemma migrateRulesVersion_fields (created now : string) fields :
  ∃ fields',
    migrateRulesVersion created now (JObj fields) = JObj fields'
    ∧ field (JObj fields') "version" = JStr version
    ∧ field (JObj fields') "telemetryRules"
      = field (JObj fields) "telemetryRules"
    ∧ field (JObj fields') "appointmentRules"
      = field (JObj fields) "appointmentRules"
    ∧ ∃ gs, field (JObj fields') "globalSettings" = JObj gs.
Proof.
  unfold migrateRulesVersion. cbv zeta.
  set (r2 := setIn (setIn (JObj fields) "version" (JStr version))
               "lastModified" (JStr now)).
  assert (∀ k, k ≠ "version" → k ≠ "lastModified" →
               field r2 k = field (JObj fields) k) as Hr2.
  { intros k H1 H2. unfold r2. by rewrite !field_setIn_ne. }
  assert (field r2 "version" = JStr version) as Hv.
  { unfold r2. rewrite field_setIn_ne by done. by rewrite field_setIn. }
  destruct (fillMissing_obj "groupSpecificRules" generateGroupRules
              (setField "lastModified" (JStr now)
                 (setField "version" (JStr version) fields))) as [f3 E3].
  change (JObj (setField "lastModified" (JStr now)
                  (setField "version" (JStr version) fields)))
    with r2 in E3.
  destruct (fillMissing_obj "timeBasedRules" defaultTimeBasedRules f3)
    as [f4 E4].
  destruct (fillMissing_obj "contextualRules" defaultContextualRules f4)
    as [f5 E5].
  destruct (fillMissing_obj "metadata" (defaultMetadata created) f5)
    as [f6 E6].
  assert (∀ k, k ≠ "groupSpecificRules" → k ≠ "timeBasedRules" →
               k ≠ "contextualRules" → k ≠ "metadata" →
               field (JObj f6) k = field r2 k) as Hr6.
  { intros k H1 H2 H3 H4.
    rewrite <- E6, field_fillMissing_ne, <- E5, field_fillMissing_ne,
      <- E4, field_fillMissing_ne, <- E3, field_fillMissing_ne by done.
    done. }
  rewrite E3, E4, E5, E6. eexists. split; [reflexivity |].
  rewrite <- !setIn_obj.
  rewrite !field_setIn_ne by done. rewrite !Hr6, Hv, !Hr2 by done.
  repeat split; try done.
  rewrite field_setIn. unfold spread. by eexists.
Qed.

Lemma required_fields_obj (rules : JsValue) :
  forallb (fun f => truthy (field rules f) && typeofObject (field rules f))
          requiredFields = true
  ↔ (∃ t, field rules "telemetryRules" = JObj t)
    ∧ (∃ a, field rules "appointmentRules" = JObj a)
    ∧ (∃ g, field rules "globalSettings" = JObj g).
Proof.
  unfold requiredFields, forallb.
  rewrite !andb_true_iff. split.
  - intros ([H1 H1'] & [H2 H2'] & [H3 H3'] & _).
    destruct (field rules "telemetryRules"); try done.
    destruct (field rules "appointmentRules"); try done.
    destruct (field rules "globalSettings"); try done.
    repeat split; by eexists.
  - intros ([t ->] & [a ->] & [g ->]). done.
Qed.

(** What an accepted document looks like when it comes out. *)
Lemma accepted_shape (created now : string) (rules rules' : JsValue) :
  validateAndMigrateRules created now rules = (true, rules') →
  ∃ fields' t a g,
    rules' = JObj fields'
    ∧ needsMigration rules' = false
    ∧ field rules' "telemetryRules" = JObj t
    ∧ field rules' "appointmentRules" = JObj a
    ∧ field rules' "globalSettings" = JObj g
    ∧ forallb (fun kv => isValidClassification kv.2) t = true.
Proof.
  intros H. unfold validateAndMigrateRules in H.
  destruct (negb (truthy rules) || negb (typeofObject rules)) eqn:Hobj;
    [done |].
  apply orb_false_iff in Hobj as [H1 H2].
  destruct rules as [| | | | |fields]; try discriminate H1;
    try discriminate H2.
  destruct (forallb _ requiredFields) eqn:Hreq; [| done]. cbn [negb] in H.
  apply required_fields_obj in Hreq as ([t Ht] & [a Ha] & [g Hg]).
  injection H as Hvalid <-.
  destruct (needsMigration (JObj fields)) eqn:Hnm.
  - destruct (migrateRulesVersion_fields created now fields)
      as (fields' & E & Hv & Ht' & Ha' & gs & Hg').
    rewrite E in *. rewrite Ht', Ht in Hvalid.
    exists fields', t, a, gs. repeat split; try congruence.
    unfold needsMigration. by rewrite Hv.
  - rewrite Ht in Hvalid. by exists fields, t, a, g.
Qed.

(** A document of that shape is accepted as it is. *)
Lemma shape_accepted (created now : string) fields t a g :
  needsMigration (JObj fields) = false →
  field (JObj fields) "telemetryRules" = JObj t →
  field (JObj fields) "appointmentRules" = JObj a →
  field (JObj fields) "globalSettings" = JObj g →
  forallb (fun kv => isValidClassification kv.2) t = true →
  validateAndMigrateRules created now (JObj fields) = (true, JObj fields).
Proof.
  intros Hnm Ht Ha Hg Hvalid.
  unfold validateAndMigrateRules. cbn [truthy typeofObject negb orb].
  assert (forallb (fun f => truthy (field (JObj fields) f)
                            && typeofObject (field (JObj fields) f))
                  requiredFields = true) as ->
    by (apply required_fields_obj; repeat split; by eexists).
  cbn [negb]. rewrite Hnm, Ht. by rewrite Hvalid.
Qed.

(** X13: validation settles. A document that [validateAndMigrateRules]
    accepts comes out as a document that it accepts again, whenever it
    is validated, without a further migration or any other change. *)
Theorem validateAndMigrateRules_settled (created now created' now' : string)
    (rules rules' : JsValue) :
  validateAndMigrateRules created now rules = (true, rules') →
  validateAndMigrateRules created' now' rules' = (true, rules')
  ∧ needsMigration rules' = false.
Proof.
  intros Haccepted.
  destruct (accepted_shape created now rules rules' Haccepted)
    as (fields' & t & a & g & -> & Hnm & Ht & Ha & Hg & Hvalid).
  split; [| exact Hnm]. by apply (shape_accepted created' now' fields' t a g).
Qed.

Lemma validateAndMigrateRules_settled_witness :
  let legacy :=
    JObj [ ("version", JStr "1.4.0");
           ("telemetryRules", JObj [("running", JStr "productive")]);
           ("appointmentRules", JObj []);
           ("globalSettings", JObj [("gapTolerance", JNum 45)]) ] in
  let migrated := (validateAndMigrateRules "c" "n" legacy).2 in
  validateAndMigrateRules "c" "n" legacy = (true, migrated)
  ∧ migrated ≠ legacy
  ∧ validateAndMigrateRules "c2" "n2" migrated = (true, migrated).
Proof.
  intros legacy migrated. split; [reflexivity |]. split.
  - intros E. apply (f_equal (λ r, field r "version")) in E.
    vm_compute in E. discriminate E.
  - apply (validateAndMigrateRules_settled "c" "n" "c2" "n2" legacy).
    reflexivity.
Defined.

(** X14: whatever the remote request and the local store hold, the
    document that [loadSavedOrDefaultRules] installs is an object whose
    three required tables are objects and whose telemetry classes are
    all valid: validation accepts it as it is. *)
Theorem loadSavedOrDefaultRules_accepted (created now created' now' : string)
    (fetched saved : option JsValue) :
  let installed := loadSavedOrDefaultRules created now fetched saved in
  validateAndMigrateRules created' now' installed = (true, installed)
  ∧ (∃ t a g,
       field installed "telemetryRules" = JObj t
       ∧ field installed "appointmentRules" = JObj a
       ∧ field installed "globalSettings" = JObj g
       ∧ Forall (λ kv, isValidClassification kv.2 = true) t).
Proof.
  cbv zeta.
  assert (∀ rules rules',
            validateAndMigrateRules created now rules = (true, rules') →
            validateAndMigrateRules created' now' rules' = (true, rules'))
    as Hagain.
  { intros rules rules' Haccepted.
    destruct (accepted_shape created now rules rules' Haccepted)
      as (fields' & t & a & g & -> & Hnm & Ht & Ha & Hg & Hvalid).
    by apply (shape_accepted created' now' fields' t a g). }
  assert (validateAndMigrateRules created' now'
            (loadSavedOrDefaultRules created now fetched saved)
          = (true, loadSavedOrDefaultRules created now fetched saved)) as Hok.
  { unfold loadSavedOrDefaultRules, loadRulesFromGitHub.
    destruct fetched as [rules|].
    - destruct (validateAndMigrateRules created now rules) as [[] rules']
        eqn:E.
      + by apply (Hagain rules).
      + destruct saved as [parsed|]; [| reflexivity].
        destruct (validateAndMigrateRules created now parsed) as [[] parsed']
          eqn:E'; [| reflexivity].
        by apply (Hagain parsed).
    - destruct saved as [parsed|]; [| reflexivity].
      destruct (validateAndMigrateRules created now parsed) as [[] parsed']
        eqn:E'; [| reflexivity].
      by apply (Hagain parsed). }
  split; [exact Hok |].
  destruct (accepted_shape _ _ _ _ Hok)
    as (fields' & t & a & g & E & _ & Ht & Ha & Hg & Hvalid).
  exists t, a, g. repeat split; try done.
  apply Forall_forall. intros kv Hkv%list_elem_of_In.
  rewrite forallb_forall in Hvalid. by apply Hvalid.
Qed.

Lemma prop_not_elem {A : Type} (k : string) (o : list (string * A)) :
  k ∉ o.*1 → Js.prop k o = None.
Proof.
  induction o as [|[k' v] o' IH]; [done |]. simpl.
  intros Hk. apply not_elem_of_cons in Hk as [Hne Hk].
  apply String.eqb_neq in Hne. rewrite Hne. by apply IH.
Qed.

(** [{ ...a, ...b }]: a key of [b] has the value of [b], any other key
    the value of [a]. *)
Lemma prop_spread (k : string) (fb : list (string * JsValue)) :
  ∀ fa,
    NoDup fb.*1 →
    Js.prop k (fold_left (fun acc kv => setField kv.1 kv.2 acc) fb fa)
    = match Js.prop k fb with
      | Some v => Some v
      | None => Js.prop k fa
      end.
Proof.
  induction fb as [|[k0 v0] fb' IH]; intros fa Hnd; [done |].
  apply NoDup_cons in Hnd as [Hk0 Hnd]. simpl. rewrite IH by done.
  destruct (String.eqb k k0) eqn:E.
  - apply String.eqb_eq in E as ->.
    by rewrite prop_not_elem, prop_setField.
  - apply String.eqb_neq in E.
    by rewrite (prop_setField_ne k0 k) by done.
Qed.

Lemma field_fillMissing (k : string) (x : JsValue) fields :
  field (fillMissing k x (JObj fields)) k
  = if truthy (field (JObj fields) k) then field (JObj fields) k else x.
Proof.
  unfold fillMissing. destruct (truthy _); [done |]. apply field_setIn.
Qed.

(** X15: the migration stamps the document and completes it without
    overriding the user. It sets [version] to 2.0.0 and [lastModified]
    to the time of the call, keeps the telemetry and appointment
    tables, keeps each of the four optional sections when the document
    has it and installs the default otherwise, and merges the settings
    key by key: a key of the user's [globalSettings] keeps the user's
    value, any other key gets the default. *)
Theorem migrateRulesVersion_merges (created now : string)
    (fields : list (string * JsValue)) :
  let rules := JObj fields in
  let migrated := migrateRulesVersion created now rules in
  field migrated "version" = JStr version
  ∧ field migrated "lastModified" = JStr now
  ∧ field migrated "telemetryRules" = field rules "telemetryRules"
  ∧ field migrated "appointmentRules" = field rules "appointmentRules"
  ∧ Forall (λ kd, field migrated kd.1
                  = if truthy (field rules kd.1) then field rules kd.1
                    else kd.2)
      [ ("groupSpecificRules", generateGroupRules);
        ("timeBasedRules", defaultTimeBasedRules);
        ("contextualRules", defaultContextualRules);
        ("metadata", defaultMetadata created) ]
  ∧ ∀ gs k,
      field rules "globalSettings" = JObj gs →
      NoDup gs.*1 →
      field (field migrated "globalSettings") k
      = match Js.prop k gs with
        | Some v => v
        | None => field defaultGlobalSettings k
        end.
Proof.
  intros rules migrated. subst migrated. unfold migrateRulesVersion.
  cbv zeta.
  set (r2 := setIn (setIn rules "version" (JStr version))
               "lastModified" (JStr now)).
  assert (∀ k, k ≠ "version" → k ≠ "lastModified" →
               field r2 k = field rules k) as Hr2.
  { intros k H1 H2. unfold r2. by rewrite !field_setIn_ne. }
  assert (field r2 "version" = JStr version) as Hv.
  { unfold r2. rewrite field_setIn_ne by done. apply field_setIn. }
  assert (field r2 "lastModified" = JStr now) as Hm by apply field_setIn.
  destruct (fillMissing_obj "groupSpecificRules" generateGroupRules
              (setField "lastModified" (JStr now)
                 (setField "version" (JStr version) fields))) as [f3 E3].
  change (JObj (setField "lastModified" (JStr now)
                  (setField "version" (JStr version) fields)))
    with r2 in E3.
  destruct (fillMissing_obj "timeBasedRules" defaultTimeBasedRules f3)
    as [f4 E4].
  destruct (fillMissing_obj "contextualRules" defaultContextualRules f4)
    as [f5 E5].
  destruct (fillMissing_obj "metadata" (defaultMetadata created) f5)
    as [f6 E6].
  assert (∀ k, k ≠ "groupSpecificRules" → k ≠ "timeBasedRules" →
               k ≠ "contextualRules" → k ≠ "metadata" →
               field (JObj f6) k = field r2 k) as Hr6.
  { intros k H1 H2 H3 H4.
    rewrite <- E6, field_fillMissing_ne, <- E5, field_fillMissing_ne,
      <- E4, field_fillMissing_ne, <- E3, field_fillMissing_ne by done.
    done. }
  assert (field (JObj f3) "groupSpecificRules"
          = if truthy (field rules "groupSpecificRules")
            then field rules "groupSpecificRules" else generateGroupRules)
    as H3.
  { rewrite <- E3. unfold r2, rules. rewrite !setIn_obj, field_fillMissing.
    rewrite <- !setIn_obj. by rewrite !field_setIn_ne. }
  assert (field (JObj f4) "timeBasedRules"
          = if truthy (field rules "timeBasedRules")
            then field rules "timeBasedRules" else defaultTimeBasedRules)
    as H4.
  { rewrite <- E4, field_fillMissing, <- E3, field_fillMissing_ne by done.
    by rewrite Hr2. }
  assert (field (JObj f5) "contextualRules"
          = if truthy (field rules "contextualRules")
            then field rules "contextualRules" else defaultContextualRules)
    as H5.
  { rewrite <- E5, field_fillMissing, <- E4, field_fillMissing_ne,
      <- E3, field_fillMissing_ne by done.
    by rewrite Hr2. }
  assert (field (JObj f6) "metadata"
          = if truthy (field rules "metadata")
            then field rules "metadata" else defaultMetadata created)
    as H6.
  { rewrite <- E6, field_fillMissing, <- E5, field_fillMissing_ne,
      <- E4, field_fillMissing_ne, <- E3, field_fillMissing_ne by done.
    by rewrite Hr2. }
  rewrite E3, E4, E5, E6.
  rewrite !(field_setIn_ne (JObj f6) "globalSettings") by done.
  rewrite !Hr6, Hv, Hm, !Hr2 by done.
  repeat split; try done.
  - repeat constructor; cbn [fst snd];
      rewrite (field_setIn_ne (JObj f6) "globalSettings") by done.
    + rewrite <- E6, field_fillMissing_ne, <- E5, field_fillMissing_ne,
        <- E4, field_fillMissing_ne by done. exact H3.
    + rewrite <- E6, field_fillMissing_ne, <- E5, field_fillMissing_ne
        by done. exact H4.
    + rewrite <- E6, field_fillMissing_ne by done. exact H5.
    + exact H6.
  - intros gs k Hgs Hnd. rewrite field_setIn.
    rewrite ?Hr6, ?Hr2 by done. rewrite Hgs.
    unfold spread, field. rewrite prop_spread by done.
    by destruct (Js.prop k gs).
Qed.

(** What [saveRules] leaves alone: every store entry but its own, and
    every field of the document but the three stamps. *)
Lemma saveRules_frame (now : string) (m : RulesModule) (sto : Storage) :
  (∀ k, k ≠ "productivity_rules_v2" →
        items (saveRules now m sto).2 !! k = items sto !! k)
  ∧ rejectsWrites (saveRules now m sto).2 = rejectsWrites sto
  ∧ (∀ k, k ≠ "lastModified" → k ≠ "version" → k ≠ "metadata" →
          field (rulesConfig (saveRules now m sto).1.2) k
          = field (rulesConfig m) k).
Proof.
  unfold saveRules. cbv zeta.
  destruct (truthy (rulesConfig m)); cbn [negb]; [| done].
  destruct (rulesConfig m) as [| | | | |fields] eqn:Erc;
    try (cbn [set fst snd]; rewrite ?Erc; done).
  cbn [set]. cbn [mbind exc_bind get].
  set (r2 := setField "version" (JStr version)
               (setField "lastModified" (JStr now) fields)).
  assert (∀ k, k ≠ "lastModified" → k ≠ "version" →
               field (JObj r2) k = field (JObj fields) k) as Hr2.
  { intros k H1 H2. unfold r2. rewrite <- !setIn_obj.
    by rewrite !field_setIn_ne. }
  destruct (default JUndefined (Js.prop "metadata" r2))
    as [| | | | |md]; cbn [set mbind exc_bind withConfig rulesConfig];
    try (repeat split; try done; intros k H1 H2 H3; by apply Hr2).
  unfold setItem. destruct (rejectsWrites sto) eqn:Erej;
    cbn [withConfig rulesConfig items rejectsWrites fst snd].
  - repeat split; try done. intros k H1 H2 H3.
    rewrite <- setIn_obj, field_setIn_ne by done. by apply Hr2.
  - repeat split; try done.
    + intros k Hk. by rewrite lookup_insert_ne.
    + intros k H1 H2 H3.
      rewrite <- setIn_obj, field_setIn_ne by done. by apply Hr2.
Qed.

(** What a [saveRules] that reaches a writable store writes. *)
Lemma saveRules_writes (now : string) (m : RulesModule) (sto : Storage)
    fields md :
  rulesConfig m = JObj fields →
  field (rulesConfig m) "metadata" = JObj md →
  rejectsWrites sto = false →
  (saveRules now m sto).1.1 = true
  ∧ items (saveRules now m sto).2 !! "productivity_rules_v2"
    = Some (rulesConfig (saveRules now m sto).1.2)
  ∧ field (rulesConfig (saveRules now m sto).1.2) "version" = JStr version
  ∧ field (rulesConfig (saveRules now m sto).1.2) "lastModified" = JStr now
  ∧ field (field (rulesConfig (saveRules now m sto).1.2) "metadata")
      "lastOptimization" = JStr now.
Proof.
  intros Erc Hmd Hrej. unfold saveRules. cbv zeta. rewrite Erc in *.
  cbn [truthy negb set mbind exc_bind get].
  assert (default JUndefined
            (Js.prop "metadata"
               (setField "version" (JStr version)
                  (setField "lastModified" (JStr now) fields))) = JObj md)
    as ->.
  { cbn [field] in Hmd. by rewrite !prop_setField_ne. }
  cbn [set mbind exc_bind]. unfold setItem. rewrite Hrej.
  cbn [withConfig rulesConfig items fst snd].
  rewrite lookup_insert_eq. repeat split; try done.
  - rewrite <- !setIn_obj. rewrite field_setIn_ne by done.
    apply field_setIn.
  - rewrite <- !setIn_obj. rewrite !field_setIn_ne by done.
    apply field_setIn.
  - cbn [field]. rewrite prop_setField. cbn [default from_option id].
    apply (field_setIn md).
Qed.

(** X16: what the periodic flush writes and what it leaves alone. One
    firing of the auto-save timer changes no store entry other than the
    backup and the rules entry, and no field of the document other than
    the stamps [lastModified], [version] and [metadata]; on a dirty
    module whose document is an object with a [metadata] object, and a
    store that accepts writes, it stores a copy of the document as it
    was under the backup key and the stamped document under the rules
    key. *)
Theorem autoSaveTick_persists (now : string) (m : RulesModule)
    (sto : Storage) :
  let m' := (autoSaveTick now m sto).1 in
  let sto' := (autoSaveTick now m sto).2 in
  (∀ k, k ≠ "productivity_rules_backup" → k ≠ "productivity_rules_v2" →
        items sto' !! k = items sto !! k)
  ∧ (∀ k, k ≠ "lastModified" → k ≠ "version" → k ≠ "metadata" →
          field (rulesConfig m') k = field (rulesConfig m) k)
  ∧ (∀ fields md,
       isDirty m = true →
       rejectsWrites sto = false →
       rulesConfig m = JObj fields →
       field (rulesConfig m) "metadata" = JObj md →
       items sto' !! "productivity_rules_backup"
       = Some (JObj [ ("timestamp", JStr now);
                      ("rules", spread (JObj []) (rulesConfig m)) ])
       ∧ items sto' !! "productivity_rules_v2" = Some (rulesConfig m')
       ∧ field (rulesConfig m') "version" = JStr version
       ∧ field (rulesConfig m') "lastModified" = JStr now).
Proof.
  cbv zeta. unfold autoSaveTick, saveRulesWithBackup.
  destruct (isDirty m) eqn:Hdirty; [| done].
  set (backup := JObj [ ("timestamp", JStr now);
                        ("rules", spread (JObj []) (rulesConfig m)) ]).
  destruct (rejectsWrites sto) eqn:Hrej.
  { assert (setItem "productivity_rules_backup" backup sto = Throw) as ->
      by (unfold setItem; by rewrite Hrej).
    done. }
  set (sto1 := {| items := <["productivity_rules_backup" := backup]> (items sto);
                  rejectsWrites := false |}).
  assert (setItem "productivity_rules_backup" backup sto = Ok sto1) as ->
    by (unfold setItem; by rewrite Hrej).
  destruct (saveRules_frame now m sto1) as (Hitems & _ & Hfields).
  destruct (saveRules now m sto1) as [[ok m2] sto2] eqn:Esave.
  cbn [fst snd rulesConfig] in *. split; [| split; [done |]].
  - intros k H1 H2. rewrite Hitems by done. unfold sto1. cbn [items].
    by rewrite lookup_insert_ne.
  - intros fields md _ _ Erc Hmd.
    destruct (saveRules_writes now m sto1 fields md Erc Hmd eq_refl)
      as (_ & Hv2 & Hver & Hmod & _).
    rewrite Esave in *. cbn [fst snd] in *.
    rewrite Hitems by done. unfold sto1. cbn [items].
    by rewrite lookup_insert_eq.
Qed.

(** A table of classes answers a class, or nothing. *)
Lemma classTable_lookup (l : list (string * string)) (k : string) :
  Forall (λ kv, isValidClassification (JStr kv.2) = true) l →
  ∃ fields,
    classTable l = JObj fields
    ∧ (default JUndefined (Js.prop k fields) = JUndefined
       ∨ isValidClassification (default JUndefined (Js.prop k fields)) = true).
Proof.
  intros Hl. unfold classTable. eexists. split; [reflexivity |].
  induction Hl as [|[k' c] l' Hc Hl' IH]; [by left |].
  simpl. destruct (String.eqb k k'); [by right | exact IH].
Qed.

Lemma matchDefinition_class (lowerKey : bool) (activityLower : string)
    (defs : list (string * (string * string))) (c : string) :
  Forall (λ d, isValidClassification (JStr d.2.2) = true) defs →
  matchDefinition lowerKey activityLower defs = Some c →
  isValidClassification (JStr c) = true.
Proof.
  intros Hdefs. unfold matchDefinition.
  induction Hdefs as [|d defs' Hd Hdefs' IH]; [done |].
  cbn [find]. destruct (_ || _); [| exact IH].
  cbn. by intros [= <-].
Qed.

(** With the default document every layer answers a class, or nothing. *)
Lemma default_time_layer (created : string) activity activityType ts v :
  applyTimeBasedRules (spread (JObj []) (defaultRules created))
    activity activityType ts = Ok v →
  v = JNull ∨ isValidClassification v = true.
Proof.
  unfold applyTimeBasedRules, tableAt.
  destruct (activityKey activity) as [k|]; split_layer.
Qed.

Lemma default_group_layer (created : string) activity activityType g v :
  applyGroupOverrides (spread (JObj []) (defaultRules created))
    activity activityType g = Ok v →
  v = JNull ∨ isValidClassification v = true.
Proof.
  unfold applyGroupOverrides, tableAt.
  destruct (activityKey activity) as [k|]; split_layer.
Qed.

Lemma default_context_layer (created : string) activity activityType c v :
  applyContextualRules (spread (JObj []) (defaultRules created))
    activity activityType c = Ok v →
  v = JNull ∨ isValidClassification v = true.
Proof.
  unfold applyContextualRules, tableAt. destruct c as [w mw].
  cbn -[bool_decide].
  destruct (activityKey activity) as [k|],
    (bool_decide (w = Some "rain")), mw; split_layer.
Qed.

Lemma definitions_classes :
  Forall (λ d : string * (string * string),
            isValidClassification (JStr d.2.2) = true) statusDefinitions
  ∧ Forall (λ d : string * (string * string),
              isValidClassification (JStr d.2.2) = true)
           appointmentDefinitions.
Proof. split; repeat constructor. Qed.

Lemma default_fallback (created : string) activity activityType v :
  intelligentFallback (spread (JObj []) (defaultRules created))
    activity activityType = Ok v →
  isValidClassification v = true.
Proof.
  unfold intelligentFallback.
  destruct activity as [| |s|b k|]; try done.
  cbn [activityToLowerCase mbind exc_bind].
  destruct definitions_classes as [Hs Ha].
  destruct (String.eqb activityType "status").
  - destruct (matchDefinition false _ statusDefinitions) as [c|] eqn:E.
    + intros [= <-]. exact (matchDefinition_class _ _ _ _ Hs E).
    + cbn. by intros [= <-].
  - destruct (matchDefinition true _ appointmentDefinitions) as [c|] eqn:E.
    + intros [= <-]. exact (matchDefinition_class _ _ _ _ Ha E).
    + cbn. by intros [= <-].
Qed.

Lemma isValidClassification_truthy (v : JsValue) :
  isValidClassification v = true → truthy v = true.
Proof.
  destruct v as [| | | |s|]; try done. simpl.
  rewrite !orb_true_iff, !String.eqb_eq. intros [-> | [-> | [-> | ?]]]; done.
Qed.

Lemma default_base_layer (created : string) activity activityType v :
  applyBaseRules (spread (JObj []) (defaultRules created))
    activity activityType = Ok v →
  isValidClassification v = true.
Proof.
  unfold applyBaseRules, tableAt.
  destruct (activityKey activity) as [k|]; [| by destruct (String.eqb _ _)].
  destruct (String.eqb activityType "status");
    cbn -[intelligentFallback logLine];
    repeat (match goal with
            | |- context [String.eqb ?a ?b] =>
                destruct (String.eqb a b) eqn:?
            end;
            cbn -[intelligentFallback logLine]);
    try (by intros [= <-]);
    (destruct (intelligentFallback _ activity _) as [w|] eqn:E; [| done]);
    cbn -[logLine]; (destruct (logLine activity w); [| done]);
    cbn; intros [= <-]; by eapply default_fallback.
Qed.

Lemma logged_Ok (activity : Activity) (x v : JsValue) :
  logged activity x = Ok v → v = x.
Proof.
  unfold logged. destruct (logLine activity x); [| done].
  cbn. by intros [= <-].
Qed.

Lemma default_evaluateRules (created : string) activity activityType
    context v :
  evaluateRules (spread (JObj []) (defaultRules created))
    activity activityType context = Ok v →
  isValidClassification v = true.
Proof.
  unfold evaluateRules.
  destruct context as [|[ts g c]]; [done |].
  cbn -[applyTimeBasedRules applyGroupOverrides applyContextualRules
        applyBaseRules Js.truthy_opt logged].
  assert (∀ r : Exc JsValue,
            (r = Throw ∨ r = Ok JNull ∨ ∃ x, r = Ok x
                                            ∧ isValidClassification x = true)
            → ∀ k : Exc JsValue,
                (k = Ok v → isValidClassification v = true) →
                (r ≫= (λ x, if truthy x then logged activity x else k)) = Ok v →
                isValidClassification v = true) as Hstep.
  { intros r [-> | [-> | (x & -> & Hx)]] k Hk; cbn -[logged]; [done | done |].
    rewrite (isValidClassification_truthy _ Hx).
    by intros ->%logged_Ok. }
  assert (∀ (r : Exc JsValue),
            (∀ x, r = Ok x → x = JNull ∨ isValidClassification x = true) →
            r = Throw ∨ r = Ok JNull
            ∨ ∃ x, r = Ok x ∧ isValidClassification x = true) as Hlayer.
  { intros [x|] Hr; [| by left]. right.
    destruct (Hr x eq_refl) as [-> | Hx]; [by left | right; by exists x]. }
  apply Hstep.
  { destruct ts as [t|]; [| by right; left].
    apply Hlayer. intros x. apply default_time_layer. }
  apply Hstep.
  { destruct (Js.truthy_opt g) as [g'|]; [| by right; left].
    apply Hlayer. intros x. apply default_group_layer. }
  apply Hstep.
  { destruct c as [c'|]; [| by right; left].
    apply Hlayer. intros x. apply default_context_layer. }
  destruct (applyBaseRules _ activity activityType) as [w|] eqn:E; [| done].
  cbn -[logged]. intros ->%logged_Ok. by eapply default_base_layer.
Qed.

(** X17: with the default rules installed (nothing fetched, nothing
    stored), the classification of an activity code that converts to a
    string other than an inherited name answers one of the three
    classes, whatever the activity type and the context are. *)
Theorem default_rules_classify (created now : string)
    (activity : Activity) (activityType : string) (context : Context) :
  ordinaryActivity activity →
  ∃ v,
    classifyActivityAdvanced activity activityType
      (Some (loadSavedOrDefaultRules created now None None)) context = Ok v
    ∧ isValidClassification v = true.
Proof.
  intros (k & Hk & _).
  change (loadSavedOrDefaultRules created now None None)
    with (spread (JObj []) (defaultRules created)).
  unfold classifyActivityAdvanced.
  destruct (activityTruthy activity); cbn [negb]; [| by eexists].
  unfold applyIntelligentRules.
  change (truthy (spread (JObj []) (defaultRules created))) with true.
  cbn [negb].
  destruct (evaluateRules _ activity activityType context) as [v|] eqn:E.
  - exists v. split; [done |]. by eapply default_evaluateRules.
  - rewrite Hk. by eexists.
Qed.

(** A stopped status of a high-pressure unit at 10:30 gets a class. *)
Lemma default_rules_classify_witness :
  ∃ v,
    classifyActivityAdvanced (AStr "stopped") "status"
      (Some (loadSavedOrDefaultRules "2024-01-15T00:00:00.000Z"
               "2024-01-15T08:00:00.000Z" None None))
      (CtxObj morningHighPressure) = Ok v
    ∧ isValidClassification v = true.
Proof.
  apply (default_rules_classify "2024-01-15T00:00:00.000Z"
           "2024-01-15T08:00:00.000Z" (AStr "stopped") "status"
           (CtxObj morningHighPressure)).
  exists "stopped". split; [reflexivity |].
  apply (bool_decide_eq_true_1 _). vm_compute. reflexivity.
Defined.

(** ** C10: the dirty flag and the periodic flush *)

(** C10, as stated, fails: with unsaved changes and a store that rejects
    writes, the persist operation fails and stores nothing, yet the
    flush clears the dirty flag, and the next firing of the timer does
    not try again. *)
Lemma failed_flush_counterexample :
  let now := "2024-01-15T00:00:30.000Z" in
  let later := "2024-01-15T00:01:00.000Z" in
  isDirty dirtyModule = true
  ∧ (saveRulesWithBackup now dirtyModule fullStorage).1.1 = false
  ∧ (autoSaveTick now dirtyModule fullStorage).2 = fullStorage
  ∧ isDirty (autoSaveTick now dirtyModule fullStorage).1 = false
  ∧ autoSaveTick later (autoSaveTick now dirtyModule fullStorage).1 fullStorage
    = ((autoSaveTick now dirtyModule fullStorage).1, fullStorage).
Proof. vm_compute. done. Qed.

(** C10 (amended): a rule edit or an auto-add that completes on a loaded
    rule set sets the dirty flag. The periodic flush does nothing when
    the flag is clear. When it is set, the flush runs the persist
    operation [saveRulesWithBackup], whose document and store it
    leaves, and clears the flag whatever that operation answers. On a
    store that accepts writes, for a document that is an object with a
    [metadata] object, the operation succeeds: the store holds a copy
    of the document as it was under the backup key and the stamped
    document under the rules key. On a store that rejects writes the
    operation fails and nothing is stored or changed, but the flag is
    cleared all the same and the next flush does nothing: the edit is
    not retried. *)
Theorem flush_clears_dirty_flag (now : string) (m : RulesModule)
    (sto : Storage) :
  let persisted := saveRulesWithBackup now m sto in
  let m' := (autoSaveTick now m sto).1 in
  let sto' := (autoSaveTick now m sto).2 in
  (∀ type key value m1,
     truthy (rulesConfig m) = true →
     updateRule type key value m = Ok m1 → isDirty m1 = true)
  ∧ (∀ suggestion m1, autoAddRule suggestion m = Ok m1 → isDirty m1 = true)
  ∧ (isDirty m = false → autoSaveTick now m sto = (m, sto))
  ∧ (isDirty m = true →
     isDirty m' = false
     ∧ rulesConfig m' = rulesConfig persisted.1.2
     ∧ sto' = persisted.2
     ∧ (∀ fields md,
          rejectsWrites sto = false →
          rulesConfig m = JObj fields →
          field (rulesConfig m) "metadata" = JObj md →
          persisted.1.1 = true
          ∧ items sto' !! "productivity_rules_backup"
            = Some (JObj [ ("timestamp", JStr now);
                           ("rules", spread (JObj []) (rulesConfig m)) ])
          ∧ items sto' !! "productivity_rules_v2" = Some (rulesConfig m')
          ∧ field (rulesConfig m') "lastModified" = JStr now)
     ∧ (rejectsWrites sto = true →
        persisted.1.1 = false
        ∧ sto' = sto
        ∧ rulesConfig m' = rulesConfig m
        ∧ ∀ later, autoSaveTick later m' sto' = (m', sto'))).
Proof.
  cbv zeta. split; [| split; [| split; [| intros Hdirty]]].
  - intros type key value m1 Hloaded Hup.
    by destruct (updateRule_Ok type key value m m1 Hloaded Hup)
      as (? & ? & _ & _ & _ & ->).
  - intros suggestion m1 Hadd.
    by destruct (autoAddRule_Ok suggestion m m1 Hadd)
      as (? & ? & _ & _ & _ & ->).
  - intros Hclean. unfold autoSaveTick. by rewrite Hclean.
  - unfold autoSaveTick. rewrite Hdirty.
    unfold saveRulesWithBackup.
    set (backup := JObj [ ("timestamp", JStr now);
                          ("rules", spread (JObj []) (rulesConfig m)) ]).
    destruct (rejectsWrites sto) eqn:Hrej.
    + assert (setItem "productivity_rules_backup" backup sto = Throw) as ->
        by (unfold setItem; by rewrite Hrej).
      cbn [fst snd rulesConfig isDirty]. repeat split; try done.
    + set (sto1 := {| items := <["productivity_rules_backup" := backup]>
                                 (items sto);
                      rejectsWrites := false |}).
      assert (setItem "productivity_rules_backup" backup sto = Ok sto1) as ->
        by (unfold setItem; by rewrite Hrej).
      destruct (saveRules_frame now m sto1) as (Hitems & _ & _).
      pose proof (saveRules_writes now m sto1) as Hwrites.
      destruct (saveRules now m sto1) as [[ok m2] sto2].
      cbn [fst snd rulesConfig isDirty] in *.
      repeat split; try done.
      * rewrite Hitems by done. unfold sto1. cbn [items].
        by rewrite lookup_insert_eq.
      * by destruct (Hwrites fields md) as (_ & Hstored & _).
      * by destruct (Hwrites fields md) as (_ & _ & _ & Hstamp & _).
Qed.

(** The flush of a module with unsaved changes on a store that rejects
    writes clears the flag and stores nothing. *)
Lemma flush_clears_dirty_flag_witness :
  let now := "2024-01-15T00:00:30.000Z" in
  isDirty (autoSaveTick now dirtyModule fullStorage).1 = false
  ∧ (saveRulesWithBackup now dirtyModule fullStorage).1.1 = false
  ∧ (autoSaveTick now dirtyModule fullStorage).2 = fullStorage.
Proof.
  intros now.
  pose proof (flush_clears_dirty_flag now dirtyModule fullStorage) as Hflush.
  cbv zeta in Hflush. destruct Hflush as (_ & _ & _ & Hdirty).
  destruct (Hdirty eq_refl) as (Hflag & _ & _ & _ & Hfull).
  destruct (Hfull eq_refl) as (Hfailed & Hstore & _).
  exact (conj Hflag (conj Hfailed Hstore)).
Defined.

(** ** Times of day as text *)

Lemma pad2_compare (a b : nat) :
  (a < 60)%nat → (b < 60)%nat →
  String.compare (pad2 a) (pad2 b) = Nat.compare a b
  ∧ String.length (pad2 a) = 2%nat.
Proof.
  intros Ha Hb.
  assert (forallb (λ a, forallb (λ b,
            bool_decide (String.compare (pad2 a) (pad2 b) = Nat.compare a b
                         ∧ String.length (pad2 a) = 2%nat))
            (seq 0 60)) (seq 0 60) = true) as Hall
    by (vm_compute; reflexivity).
  rewrite forallb_forall in Hall.
  specialize (Hall a). rewrite forallb_forall in Hall.
  eapply bool_decide_eq_true_1, Hall; apply in_seq; lia.
Qed.

Lemma compare_append (x y s t : string) :
  String.length x = String.length y →
  String.compare (x +:+ s) (y +:+ t)
  = match String.compare x y with
    | Eq => String.compare s t
    | c => c
    end.
Proof.
  revert y. induction x as [|c x' IH]; intros [|d y']; try done.
  intros [= Hlen]. simpl. destruct (Ascii.compare c d); [| done | done].
  by apply IH.
Qed.

Lemma timeStr_compare (h m h1 m1 : nat) :
  (h < 24)%nat → (m < 60)%nat → (h1 < 24)%nat → (m1 < 60)%nat →
  String.compare (timeStr (ValidTime h m)) (timeStr (ValidTime h1 m1))
  = Nat.compare (h * 60 + m) (h1 * 60 + m1).
Proof.
  intros Hh Hm Hh1 Hm1. unfold timeStr.
  destruct (pad2_compare h h1) as [Ehh Elen]; [lia | lia |].
  destruct (pad2_compare h1 h) as [_ Elen1]; [lia | lia |].
  destruct (pad2_compare m m1) as [Emm _]; [lia | lia |].
  rewrite compare_append by congruence. rewrite Ehh.
  change (String.compare (":" +:+ pad2 m) (":" +:+ pad2 m1))
    with (String.compare (pad2 m) (pad2 m1)).
  rewrite Emm.
  destruct (Nat.compare_spec h h1), (Nat.compare_spec m m1),
    (Nat.compare_spec (h * 60 + m) (h1 * 60 + m1)); try done; lia.
Qed.

(** X18: the comparisons of [applyTimeBasedRules] between the text of a
    time of day and the text of a window bound are chronological: for
    times written [HH:MM], [timeStr >= bound] and [timeStr <= bound]
    hold exactly when the time is not before, and not after, the
    bound. *)
Theorem time_window_comparisons_chronological (h m h1 m1 : nat) :
  (h < 24)%nat → (m < 60)%nat → (h1 < 24)%nat → (m1 < 60)%nat →
  geValue (timeStr (ValidTime h m)) (JStr (timeStr (ValidTime h1 m1)))
  = (h1 * 60 + m1 <=? h * 60 + m)%nat
  ∧ leValue (timeStr (ValidTime h m)) (JStr (timeStr (ValidTime h1 m1)))
    = (h * 60 + m <=? h1 * 60 + m1)%nat.
Proof.
  intros Hh Hm Hh1 Hm1. unfold geValue, leValue, String.leb.
  rewrite !timeStr_compare by done.
  split.
  - destruct (Nat.compare_spec (h1 * 60 + m1) (h * 60 + m));
      symmetry; (apply Nat.leb_le || apply Nat.leb_gt); lia.
  - destruct (Nat.compare_spec (h * 60 + m) (h1 * 60 + m1));
      symmetry; (apply Nat.leb_le || apply Nat.leb_gt); lia.
Qed.

Lemma time_window_comparisons_chronological_witness :
  geValue (timeStr (ValidTime 9 5)) (JStr (timeStr (ValidTime 18 0)))
  = (18 * 60 + 0 <=? 9 * 60 + 5)%nat
  ∧ leValue (timeStr (ValidTime 9 5)) (JStr (timeStr (ValidTime 18 0)))
    = (9 * 60 + 5 <=? 18 * 60 + 0)%nat.
Proof. apply time_window_comparisons_chronological; lia. Defined.

(** X19: the default windows cover the day. With the default document
    the time layer classifies [stopped] at every time of day: neutral
    from 06:00 to 18:00, both bounds included (business hours are asked
    first), productive in the night shift, which wraps around
    midnight. *)
Theorem default_windows_cover_day (created activityType : string)
    (h m : nat) :
  (h < 24)%nat → (m < 60)%nat →
  applyTimeBasedRules (spread (JObj []) (defaultRules created))
    (AStr "stopped") activityType (ValidTime h m)
  = Ok (JStr (if (360 <=? h * 60 + m)%nat && (h * 60 + m <=? 1080)%nat
              then "neutral" else "productive")).
Proof.
  intros Hh Hm. unfold applyTimeBasedRules.
  cbn -[geValue leValue timeStr Nat.leb].
  unfold geValue, leValue, String.leb.
  change "06:00" with (timeStr (ValidTime 6 0)).
  change "18:00" with (timeStr (ValidTime 18 0)).
  rewrite !timeStr_compare by lia.
  change (6 * 60 + 0)%nat with 360%nat. change (18 * 60 + 0)%nat with 1080%nat.
  destruct (Nat.compare_spec 360 (h * 60 + m));
    destruct (Nat.compare_spec (h * 60 + m) 360); try lia;
    destruct (Nat.compare_spec 1080 (h * 60 + m)); try lia;
    destruct (Nat.compare_spec (h * 60 + m) 1080); try lia;
    destruct (Nat.leb_spec 360 (h * 60 + m)); try lia;
    destruct (Nat.leb_spec (h * 60 + m) 1080); try lia;
    by cbn -[Nat.leb].
Qed.

Lemma default_windows_cover_day_witness :
  applyTimeBasedRules (spread (JObj []) (defaultRules "c"))
    (AStr "stopped") "status" (ValidTime 23 30)
  = Ok (JStr "productive").
Proof. apply (default_windows_cover_day "c" "status" 23 30); lia. Defined.

(** ** The rule history *)

Section HistoryProperties.
Import History.

Lemma tail_drop_snoc {A : Type} (k : nat) (l : list A) (e : A) :
  (k < length l)%nat → tail (drop k l ++ [e]) = drop (S k) (l ++ [e]).
Proof.
  revert k. induction l as [|x l' IH]; intros k Hk; [simpl in Hk; lia |].
  destruct k as [|k].
  - by rewrite drop_0.
  - simpl in *. destruct (decide (k < length l')%nat) as [Hlt|]; [| lia].
    by rewrite IH.
Qed.

Lemma historyAfter_drop (calls : list HistoryCall) :
  historyAfter calls = drop (length calls - 100) (entryOf <$> calls).
Proof.
  induction calls as [|c calls IH] using rev_ind; [done |].
  unfold historyAfter in *. rewrite foldl_app. cbn [foldl].
  rewrite IH. unfold addToHistory. cbv zeta.
  fold (entryOf c). rewrite fmap_app, !length_app. cbn [length fmap list_fmap].
  rewrite length_drop, length_fmap.
  destruct (100 <? length calls - (length calls - 100) + 1)%nat eqn:E.
  - apply Nat.ltb_lt in E.
    rewrite tail_drop_snoc by (rewrite length_fmap; lia).
    f_equal. lia.
  - apply Nat.ltb_ge in E.
    replace (length calls - 100)%nat with 0%nat by lia.
    replace (length calls + 1 - 100)%nat with 0%nat by lia.
    by rewrite !drop_0.
Qed.

(** X20: the history keeps the most recent entries. After any sequence
    of [addToHistory] calls on a new module the history holds the
    entries of the last 100 calls, oldest first, and [getHistory]
    returns those of the last 20 calls. *)
Theorem history_keeps_most_recent (calls : list HistoryCall) :
  historyAfter calls = drop (length calls - 100) (entryOf <$> calls)
  ∧ (length (historyAfter calls) ≤ 100)%nat
  ∧ getHistory (historyAfter calls)
    = drop (length calls - 20) (entryOf <$> calls).
Proof.
  split; [apply historyAfter_drop |].
  rewrite historyAfter_drop. unfold getHistory.
  rewrite length_drop, length_fmap. split; [lia |].
  rewrite drop_drop. f_equal. lia.
Qed.

End HistoryProperties.

(** ** The cache *)

Section CacheProperties.
Import Cache.

(** X21: a cached value is read back until it expires. After
    [setCache], a [getCache] of the same key returns the data and
    leaves the map alone while the clock has not passed the expiry,
    which is the second clock reading plus the custom timeout, or plus
    the configured one when the custom timeout is absent or zero; after
    that it returns nothing and removes the entry. Reading any other
    key returns what it returned before the [setCache]. *)
Theorem getCache_setCache {A : Type} (cacheTimeout t0 t1 now : Z)
    (key : string) (data : A) (customTimeout : option Z)
    (cache : gmap string (CacheEntry A)) :
  let stored := setCache cacheTimeout t0 t1 key data customTimeout cache in
  let expiry := t1 + (match customTimeout with
                      | Some t => if decide (t = 0) then cacheTimeout else t
                      | None => cacheTimeout
                      end) in
  (now ≤ expiry → getCache now key stored = (Some data, stored))
  ∧ (expiry < now → getCache now key stored = (None, delete key cache))
  ∧ ∀ other, other ≠ key →
      (getCache now other stored).1 = (getCache now other cache).1.
Proof.
  intros stored expiry.
  assert (stored !! key
          = Some {| cached := data; storedAt := t0; expires := expiry |})
    as Hstored.
  { unfold stored, setCache. rewrite lookup_insert_eq. do 2 f_equal.
    unfold expiry, effectiveTimeout. destruct customTimeout as [t|]; [| done].
    destruct (decide (t = 0)) as [-> | Hne]; [done |].
    by apply Z.eqb_neq in Hne as ->. }
  repeat split.
  - intros Hnow. unfold getCache. rewrite Hstored. cbn [expires cached].
    by apply Z.ltb_ge in Hnow as ->.
  - intros Hnow. unfold getCache. rewrite Hstored. cbn [expires].
    apply Z.ltb_lt in Hnow as ->. f_equal.
    unfold stored, setCache. apply delete_insert_eq.
  - intros other Hne. unfold getCache, stored, setCache.
    rewrite lookup_insert_ne by done.
    destruct (cache !! other) as [entry|]; [| done].
    by destruct (expires entry <? now).
Qed.

(** X22: the cache never serves an expired value. What [getCache]
    returns is the data of an entry that has not expired; after a miss
    the key is absent from the map (an expired entry is removed by the
    read itself); no other key is touched; and [getCacheStats] counts
    every entry once, as valid or as expired. *)
Theorem getCache_fresh {A : Type} (now : Z) (key : string)
    (cache : gmap string (CacheEntry A)) :
  (∀ data, (getCache now key cache).1 = Some data →
           ∃ entry, cache !! key = Some entry ∧ cached entry = data
                    ∧ now ≤ expires entry
                    ∧ (getCache now key cache).2 = cache)
  ∧ ((getCache now key cache).1 = None →
     (getCache now key cache).2 !! key = None)
  ∧ (∀ other, other ≠ key →
              (getCache now key cache).2 !! other = cache !! other)
  ∧ valid (getCacheStats now cache) + expired (getCacheStats now cache)
    = total (getCacheStats now cache)
  ∧ expired (getCacheStats now cache)
    = Z.of_nat (size (filter (λ kv, expires kv.2 < now) cache)).
Proof.
  unfold getCache. repeat split.
  - intros data. destruct (cache !! key) as [entry|] eqn:E; [| done].
    destruct (expires entry <? now) eqn:Hexp; [done |].
    intros [= <-]. exists entry. apply Z.ltb_ge in Hexp. by repeat split.
  - destruct (cache !! key) as [entry|] eqn:E; [| done].
    destruct (expires entry <? now); [| done].
    intros _. apply lookup_delete_eq.
  - intros other Hne. destruct (cache !! key) as [entry|]; [| done].
    destruct (expires entry <? now); [| done].
    by apply lookup_delete_ne.
  - unfold getCacheStats. cbn [valid expired total].
    apply (map_fold_weak_ind
             (λ (c : Z * Z) (m : gmap string (CacheEntry A)),
                c.1 + c.2 = Z.of_nat (size m))).
    + by rewrite map_size_empty.
    + intros k entry m c Hk IH. cbv beta in *.
      rewrite map_size_insert_None, Nat2Z.inj_succ by done.
      destruct c as [v x].
      destruct (expires entry <? now); cbn [fst snd] in *; lia.
  - unfold getCacheStats. cbn [valid expired total].
    apply (map_fold_weak_ind
             (λ (c : Z * Z) (m : gmap string (CacheEntry A)),
                c.2 = Z.of_nat (size (filter (λ kv, expires kv.2 < now) m)))).
    + by rewrite map_filter_empty, map_size_empty.
    + intros k entry m c Hk IH. cbv beta in *. destruct c as [v x].
      destruct (expires entry <? now) eqn:Hexp; cbn [fst snd] in *.
      * apply Z.ltb_lt in Hexp.
        rewrite map_filter_insert_True by done.
        rewrite map_size_insert_None, Nat2Z.inj_succ; [lia |].
        apply map_lookup_filter_None. by left.
      * apply Z.ltb_ge in Hexp.
        rewrite map_filter_insert_False by (cbn; lia).
        by rewrite delete_id.
Qed.

(** X23: [clearCache] with a pattern removes exactly the keys that
    contain it and leaves every other entry as it is; without a
    pattern, and with the empty pattern, it empties the cache. *)
Theorem clearCache_pattern {A : Type} (cache : gmap string (CacheEntry A)) :
  clearCache None cache = ∅
  ∧ clearCache (Some "") cache = ∅
  ∧ ∀ pattern key,
      pattern ≠ "" →
      clearCache (Some pattern) cache !! key
      = if Js.includes key pattern then None else cache !! key.
Proof.
  repeat split. intros pattern key Hne. unfold clearCache.
  assert (Js.truthy_str pattern = true) as -> by (by destruct pattern).
  rewrite map_lookup_filter. destruct (cache !! key) as [entry|].
  - cbn. destruct (Js.includes key pattern); by case_guard.
  - by destruct (Js.includes key pattern).
Qed.

End CacheProperties.

(** ** Lines of CSV *)

Section CsvProperties.
Import Csv.

Lemma parseCSVLoop_unquoted (trim : string → string) (delimiter : ascii)
    (line : string) :
  quote ∉ chars line →
  ∀ current,
    parseCSVLoop trim delimiter line current false
    = trim <$> splitLoop delimiter line current.
Proof.
  induction line as [|c rest IH]; intros Hq current; [done |].
  cbn [chars] in Hq. apply not_elem_of_cons in Hq as [Hc Hq].
  cbn [parseCSVLoop splitLoop].
  assert (Ascii.eqb c quote = false) as -> by (by apply Ascii.eqb_neq).
  cbn [negb]. rewrite andb_true_r.
  destruct (Ascii.eqb c delimiter); [| by apply IH].
  rewrite fmap_cons. f_equal. by apply IH.
Qed.

Lemma append_cons (c : ascii) (s t : string) :
  String c s +:+ t = String c (s +:+ t).
Proof. reflexivity. Qed.

Lemma append_empty (s : string) : s +:+ EmptyString = s.
Proof.
  induction s as [|c s' IH]; [done |]. by rewrite append_cons, IH.
Qed.

Lemma append_snoc (s t : string) (c : ascii) :
  (s +:+ String c EmptyString) +:+ t = s +:+ String c t.
Proof.
  induction s as [|d s' IH]; [done |]. by rewrite !append_cons, IH.
Qed.

Lemma parseCSVLoop_inside (trim : string → string) (delimiter : ascii)
    (inner rest : string) :
  quote ∉ chars inner →
  ∀ current,
    parseCSVLoop trim delimiter (inner +:+ rest) current true
    = parseCSVLoop trim delimiter rest (current +:+ inner) true.
Proof.
  induction inner as [|c inner' IH]; intros Hq current.
  - by rewrite append_empty.
  - cbn [chars] in Hq. apply not_elem_of_cons in Hq as [Hc Hq].
    rewrite append_cons. cbn [parseCSVLoop].
    assert (Ascii.eqb c quote = false) as -> by (by apply Ascii.eqb_neq).
    cbn [negb]. rewrite andb_false_r. rewrite IH by done.
    by rewrite append_snoc.
Qed.

Lemma parseCSVLoop_length (trim : string → string) (delimiter : ascii)
    (line : string) :
  ∀ current inQuotes,
    (1 ≤ length (parseCSVLoop trim delimiter line current inQuotes)
     ≤ 1 + length (filter (λ c, c = delimiter) (chars line)))%nat.
Proof.
  induction line as [|c rest IH]; intros current inQuotes; [cbn; lia |].
  cbn [parseCSVLoop chars]. rewrite filter_cons.
  destruct (Ascii.eqb c quote) eqn:Eq.
  - specialize (IH current (negb inQuotes)).
    destruct (decide (c = delimiter)); cbn [length]; lia.
  - destruct (Ascii.eqb c delimiter) eqn:Ed.
    + apply Ascii.eqb_eq in Ed as ->.
      rewrite decide_True by done.
      destruct inQuotes; cbn [andb negb length].
      * specialize (IH (current +:+ String delimiter EmptyString) true). lia.
      * specialize (IH EmptyString false). lia.
    + apply Ascii.eqb_neq in Ed. rewrite decide_False by done.
      cbn [andb]. apply IH.
Qed.

(** X24: [parseCSVLine] on plain and on quoted text. Whatever [trim]
    does, the line yields at least one field and at most one more than
    it has delimiter characters; on a line without a double quote it
    yields the trimmed pieces of [line.split(delimiter)], which is how
    the header line is cut; and a field wholly enclosed in double quotes
    comes out as one field without the quotes, delimiters included. *)
Theorem parseCSVLine_fields (trim : string → string) (delimiter : ascii)
    (line : string) :
  (1 ≤ length (parseCSVLine trim line delimiter)
   ≤ 1 + length (filter (λ c, c = delimiter) (chars line)))%nat
  ∧ (quote ∉ chars line →
     parseCSVLine trim line delimiter = trim <$> split line delimiter)
  ∧ (quote ∉ chars line →
     parseCSVLine trim
       (String quote line +:+ String quote EmptyString) delimiter
     = [trim line]).
Proof.
  split; [apply parseCSVLoop_length |]. split.
  - intros Hq. by apply parseCSVLoop_unquoted.
  - intros Hq. unfold parseCSVLine. rewrite append_cons.
    cbn [parseCSVLoop].
    change (Ascii.eqb quote quote) with true. cbn [negb].
    rewrite parseCSVLoop_inside by done.
    cbn [parseCSVLoop]. change (Ascii.eqb quote quote) with true.
    done.
Qed.

End CsvProperties.

(** ** Validation of imported records *)

Section IntakeProperties.
Import Intake.

Lemma recordErrors_none (parseDate : JsValue → option Z) (record : JsValue) :
  recordErrors parseDate record = Ok [] → wellFormed parseDate record.
Proof.
  unfold recordErrors, wellFormed, Intake.requiredFields.
  destruct record as [| | | | |fields]; try done;
    cbn [mapM get mbind exc_bind mret exc_ret field fmap];
    try (intros [= H]; by apply app_eq_nil in H as [H _]).
  set (vacancy := default JUndefined (Js.prop "vacancy_name" fields)).
  set (st := default JUndefined (Js.prop "status" fields)).
  set (s := default JUndefined (Js.prop "start" fields)).
  set (e := default JUndefined (Js.prop "end" fields)).
  intros [= H]. apply app_eq_nil in H as [Hmissing Hdates].
  cbn [concat] in Hmissing.
  destruct (truthy vacancy) eqn:Hvacancy; [| done].
  destruct (truthy st) eqn:Hst; [| done].
  destruct (truthy s) eqn:Hs; [| done].
  destruct (truthy e) eqn:He; [| done].
  cbn [negb andb] in *.
  split; [repeat (constructor; [done |]); constructor |].
  destruct (parseDate s) as [ts|]; [| done].
  destruct (parseDate e) as [te|]; [| done].
  cbn [app] in Hdates. destruct (te <=? ts) eqn:Hle; [done |].
  apply Z.leb_gt in Hle. by exists ts, te.
Qed.

Lemma validateLoop_spec (parseDate : JsValue → option Z)
    (data : list JsValue) :
  ∀ index errs valid,
    validateLoop parseDate index data = Ok (errs, valid) →
    sublist valid data
    ∧ (length valid + length errs = length data)%nat
    ∧ (errs = [] ↔ valid = data)
    ∧ Forall (λ record, recordErrors parseDate record = Ok []) valid.
Proof.
  induction data as [|record rest IH]; intros index errs valid.
  - cbn. by intros [= <- <-].
  - cbn [validateLoop].
    destruct (recordErrors parseDate record) as [recErrs|] eqn:Erec;
      [| done].
    cbn [mbind exc_bind].
    destruct (validateLoop parseDate (S index) rest) as [[errs' valid']|]
      eqn:Erest; [| done].
    cbn [mbind exc_bind fst snd].
    destruct (IH _ _ _ Erest) as (Hsub & Hlen & Hiff & Hall).
    destruct recErrs as [|err recErrs'].
    + intros [= <- <-]. repeat split.
      * by apply sublist_skip.
      * cbn [length]. lia.
      * intros ->. f_equal. by apply Hiff.
      * intros [= E]. by apply Hiff.
      * by constructor.
    + intros [= <- <-]. repeat split; try done.
      * by apply sublist_cons.
      * cbn [length]. lia.
      * intros ->. apply sublist_length in Hsub. cbn [length] in Hsub. lia.
Qed.

Lemma validateLoop_valid (parseDate : JsValue → option Z)
    (valid : list JsValue) :
  Forall (λ record, recordErrors parseDate record = Ok []) valid →
  ∀ index, validateLoop parseDate index valid = Ok ([], valid).
Proof.
  induction 1 as [|record rest Hrec Hrest IH]; intros index; [done |].
  cbn [validateLoop]. rewrite Hrec. cbn [mbind exc_bind].
  by rewrite IH.
Qed.

(** X25: what [validateJSONData] returns when it returns. The valid
    records are a sublist of the data, in order; the counts add up
    (valid records plus errors is the total); [isValid] holds exactly
    when every record is valid; every valid record has its four
    required fields and a start that parses to a time strictly before
    its end; and validating the valid records again accepts them
    all. *)
Theorem validateJSONData_valid_records (parseDate : JsValue → option Z)
    (data : list JsValue) (r : ValidationResult) :
  validateJSONData parseDate data = Ok r →
  sublist (validRecords r) data
  ∧ totalRecords r = length data
  ∧ validCount r = length (validRecords r)
  ∧ (validCount r + length (errors r) = totalRecords r)%nat
  ∧ (isValid r = true ↔ validRecords r = data)
  ∧ Forall (wellFormed parseDate) (validRecords r)
  ∧ ∃ r', validateJSONData parseDate (validRecords r) = Ok r'
          ∧ isValid r' = true
          ∧ validRecords r' = validRecords r.
Proof.
  unfold validateJSONData.
  destruct (validateLoop parseDate 0 data) as [[errs valid]|] eqn:E;
    [| done].
  cbn [mbind exc_bind fst snd]. intros [= <-].
  cbn [validRecords totalRecords validCount errors isValid].
  destruct (validateLoop_spec parseDate data 0 errs valid E)
    as (Hsub & Hlen & Hiff & Hall).
  repeat split; try done.
  - intros Hvalid%Nat.eqb_eq. apply Hiff. by destruct errs.
  - intros Hvalid. apply Hiff in Hvalid as ->. done.
  - eapply Forall_impl; [exact Hall |]. apply recordErrors_none.
  - rewrite (validateLoop_valid parseDate valid Hall 0).
    cbn [mbind exc_bind fst snd]. by eexists.
Qed.

Lemma validateJSONData_valid_records_witness :
  let parseDate := λ v, match v with
                        | JStr "2024-01-15 10:00:00" => Some 1705312800000
                        | JStr "2024-01-15 10:30:00" => Some 1705314600000
                        | _ => None
                        end in
  let good := JObj [ ("vacancy_name", JStr "EQ-1"); ("status", JStr "running");
                     ("start", JStr "2024-01-15 10:00:00");
                     ("end", JStr "2024-01-15 10:30:00") ] in
  let reversed := JObj [ ("vacancy_name", JStr "EQ-1");
                         ("status", JStr "running");
                         ("start", JStr "2024-01-15 10:30:00");
                         ("end", JStr "2024-01-15 10:00:00") ] in
  ∃ r, validateJSONData parseDate [good; reversed] = Ok r
       ∧ validRecords r = [good]
       ∧ isValid r = false
       ∧ Forall (wellFormed parseDate) (validRecords r).
Proof.
  intros parseDate good reversed. eexists.
  split; [reflexivity |]. split; [reflexivity |]. split; [reflexivity |].
  eapply (validateJSONData_valid_records parseDate [good; reversed]).
  reflexivity.
Defined.

End IntakeProperties.

(** ** The basic resolver *)

Section BasicProperties.
Import Basic.

Section BasicResolver.
Context {A : Type}.
Variable dateOf : string → Z.

Lemma removeLoop_spec (l : list (RawStatus A)) :
  ∀ seen,
    sublist (removeLoop seen l) l
    ∧ NoDup (key <$> removeLoop seen l)
    ∧ (∀ s, s ∈ removeLoop seen l → key s ∉ seen)
    ∧ (∀ s, s ∈ l → key s ∈ seen ∨ key s ∈ key <$> removeLoop seen l).
Proof.
  induction l as [|x rest IH]; intros seen.
  - cbn. split; [constructor |]. split; [constructor |].
    split; intros s Hs; by apply elem_of_nil in Hs.
  - cbn [removeLoop]. destruct (decide (key x ∈ seen)) as [Hin | Hout].
    + destruct (IH seen) as (Hsub & Hnd & Hfresh & Hcover).
      repeat split; [by apply sublist_cons | done | done |].
      intros s [-> | Hs]%elem_of_cons; [by left | by apply Hcover].
    + destruct (IH ({[key x]} ∪ seen)) as (Hsub & Hnd & Hfresh & Hcover).
      repeat split.
      * by apply sublist_skip.
      * rewrite fmap_cons. apply NoDup_cons. split; [| done].
        intros (s & Hk & Hs)%list_elem_of_fmap.
        apply Hfresh in Hs. rewrite <- Hk in Hs.
        apply Hs, elem_of_union. left. by apply elem_of_singleton.
      * intros s [-> | Hs]%elem_of_cons; [done |].
        apply Hfresh in Hs. intros Hseen.
        apply Hs, elem_of_union. by right.
      * intros s [-> | Hs]%elem_of_cons.
        { right. rewrite fmap_cons. by left. }
        destruct (Hcover s Hs) as [Hseen | Hin].
        -- apply elem_of_union in Hseen as [->%elem_of_singleton | Hseen];
             [right; rewrite fmap_cons; by left | by left].
        -- right. rewrite fmap_cons. by right.
Qed.

Lemma removeLoop_fresh (l : list (RawStatus A)) :
  ∀ seen,
    NoDup (key <$> l) → (∀ s, s ∈ l → key s ∉ seen) →
    removeLoop seen l = l.
Proof.
  induction l as [|x rest IH]; intros seen Hnd Hfresh; [done |].
  cbn [removeLoop]. rewrite fmap_cons in Hnd.
  apply NoDup_cons in Hnd as [Hx Hnd].
  destruct (decide (key x ∈ seen)) as [Hin | _].
  { exfalso. apply (Hfresh x); [by left | done]. }
  f_equal. apply IH; [done |].
  intros s Hs [E%elem_of_singleton | Hseen]%elem_of_union.
  - apply Hx. rewrite <- E. by apply list_elem_of_fmap_2.
  - by apply (Hfresh s); [right |].
Qed.

(** A record that the filter keeps is the first of the input with its
    key. *)
Lemma removeLoop_first (l : list (RawStatus A)) :
  ∀ seen s,
    s ∈ removeLoop seen l →
    find (λ x, bool_decide (key x = key s)) l = Some s.
Proof.
  induction l as [|x rest IH]; intros seen s Hs.
  - by apply elem_of_nil in Hs.
  - cbn [removeLoop] in Hs. cbn [find].
    destruct (decide (key x ∈ seen)) as [Hin | Hout].
    + destruct (removeLoop_spec rest seen) as (_ & _ & Hfresh & _).
      rewrite bool_decide_eq_false_2; [by apply (IH seen) |].
      intros E. apply (Hfresh s Hs). by rewrite <- E.
    + apply elem_of_cons in Hs as [-> | Hs].
      { by rewrite bool_decide_eq_true_2. }
      destruct (removeLoop_spec rest ({[key x]} ∪ seen))
        as (_ & _ & Hfresh & _).
      rewrite bool_decide_eq_false_2; [by apply (IH ({[key x]} ∪ seen)) |].
      intros E. apply (Hfresh s Hs), elem_of_union. left.
      by apply elem_of_singleton.
Qed.

(** X26: the basic [removeDuplicates] keeps the first record of every
    key and nothing else: its output is a sublist of its input in which
    no key occurs twice and every key of the input occurs, every record
    of the output is the first record of the input with its key, and
    the filter is idempotent. *)
Theorem removeDuplicates_first_of_each_key (statusList : list (RawStatus A)) :
  sublist (removeDuplicates statusList) statusList
  ∧ NoDup (key <$> removeDuplicates statusList)
  ∧ (∀ s, s ∈ statusList → key s ∈ key <$> removeDuplicates statusList)
  ∧ (∀ s, s ∈ removeDuplicates statusList →
          find (λ x, bool_decide (key x = key s)) statusList = Some s)
  ∧ removeDuplicates (removeDuplicates statusList)
    = removeDuplicates statusList.
Proof.
  unfold removeDuplicates.
  destruct (removeLoop_spec statusList ∅) as (Hsub & Hnd & _ & Hcover).
  repeat split; [done | done | | |].
  - intros s Hs. destruct (Hcover s Hs) as [Hin | Hin]; [| done].
    by apply elem_of_empty in Hin.
  - intros s. apply removeLoop_first.
  - apply removeLoop_fresh; [done |]. intros s _ Hin.
    by apply elem_of_empty in Hin.
Qed.

Lemma Forall_of_sublist {B : Type} (P : B → Prop) (k l : list B) :
  sublist k l → Forall P l → Forall P k.
Proof.
  induction 1 as [|x k' l' Hsub IH|x k' l' Hsub IH]; [done | |];
    intros [Hx Hl]%Forall_cons; [constructor |]; auto.
Qed.

Lemma insertByDate_Forall (P : RawStatus A → Prop) (x : RawStatus A)
    (l : list (RawStatus A)) :
  P x → Forall P l → Forall P (insertByDate dateOf x l).
Proof.
  intros Hx Hl. induction Hl as [|y l' Hy Hl' IH]; cbn.
  - by repeat constructor.
  - destruct (_ <=? _); by repeat constructor.
Qed.

Lemma sortByDate_Forall (P : RawStatus A → Prop) (l : list (RawStatus A)) :
  Forall P l → Forall P (sortByDate dateOf l).
Proof.
  induction 1 as [|x l' Hx Hl' IH]; cbn; [constructor |].
  by apply insertByDate_Forall.
Qed.

Lemma insertByDate_ascending (x : RawStatus A) (l : list (RawStatus A)) :
  ascending dateOf l → ascending dateOf (insertByDate dateOf x l).
Proof.
  induction l as [|y l' IH]; [done |]. intros [Hy Hl']. cbn [insertByDate].
  destruct (dateOf (startText x) <=? dateOf (startText y)) eqn:E.
  - apply Z.leb_le in E. by repeat split.
  - apply Z.leb_gt in E. specialize (IH Hl').
    destruct l' as [|z l'']; cbn in *.
    + repeat split; lia.
    + destruct (dateOf (startText x) <=? dateOf (startText z)) eqn:E';
        cbn in *; repeat split; try tauto; lia.
Qed.

Lemma sortByDate_ascending (l : list (RawStatus A)) :
  ascending dateOf (sortByDate dateOf l).
Proof.
  induction l as [|x l' IH]; [done |]. by apply insertByDate_ascending.
Qed.

Lemma resolveBasic_spec (current s : RawStatus A) :
  validRaw dateOf current → validRaw dateOf s →
  dateOf (startText current) ≤ dateOf (startText s) →
  validRaw dateOf (resolveBasic dateOf current s)
  ∧ dateOf (startText current)
    ≤ dateOf (startText (resolveBasic dateOf current s))
  ∧ dateOf (startText (resolveBasic dateOf current s))
    ≤ dateOf (startText s).
Proof.
  unfold validRaw, resolveBasic. intros Hc Hs Hle. cbv zeta.
  destruct (PrimFloat.ltb _ _); [lia |].
  destruct (dateOf (endText current) <? dateOf (endText s)) eqn:E;
    cbn; [apply Z.ltb_lt in E |]; lia.
Qed.

Lemma basicLoop_separated (rest : list (RawStatus A)) :
  ∀ current,
    validRaw dateOf current → Forall (validRaw dateOf) rest →
    ascending dateOf (current :: rest) →
    separated dateOf (basicLoop dateOf current rest)
    ∧ ascending dateOf (basicLoop dateOf current rest)
    ∧ ∃ h tl, basicLoop dateOf current rest = h :: tl
              ∧ dateOf (startText current) ≤ dateOf (startText h).
Proof.
  induction rest as [|s rest' IH]; intros current Hc Hrest Hasc.
  - cbn. split; [done |]. split; [done |]. exists current, []. by split.
  - apply Forall_cons in Hrest as [Hs Hrest'].
    destruct Hasc as [Hcs Hasc]. cbn [basicLoop].
    destruct (dateOf (startText s) <? dateOf (endText current)) eqn:E.
    + destruct (resolveBasic_spec current s Hc Hs Hcs) as (Hv & Hlo & Hhi).
      destruct (IH (resolveBasic dateOf current s) Hv Hrest')
        as (Hsep & Hasc' & h & tl & Eh & Hh).
      { destruct rest' as [|r rest'']; [done |].
        destruct Hasc as [Hsr Hasc]. split; [lia | done]. }
      split; [done |]. split; [done |]. exists h, tl. split; [done | lia].
    + apply Z.ltb_ge in E.
      destruct (IH s Hs Hrest' Hasc) as (Hsep & Hasc' & h & tl & Eh & Hh).
      rewrite Eh in *. split; [| split].
      * cbn [separated]. repeat split; [done | lia | apply Hsep..].
      * cbn [ascending]. split; [lia | done].
      * exists current, (h :: tl). split; [done | lia].
Qed.

(** X27: the basic resolver separates the intervals. On records that
    start before they end, whatever their order and their
    duplicates, the intervals that [resolveBasicConflicts] returns
    start before they end, start in ascending order, and do not
    overlap at all: each ends no later than its successor starts. *)
Theorem resolveBasicConflicts_separated (statusList : list (RawStatus A)) :
  Forall (validRaw dateOf) statusList →
  separated dateOf (resolveBasicConflicts dateOf statusList)
  ∧ ascending dateOf (resolveBasicConflicts dateOf statusList).
Proof.
  intros Hvalid. unfold resolveBasicConflicts.
  destruct statusList as [|a [|b rest]].
  - done.
  - apply Forall_cons in Hvalid as [Ha _]. by repeat split.
  - set (l := a :: b :: rest) in *.
    assert (Forall (validRaw dateOf) (sortByDate dateOf (removeDuplicates l)))
      as Hsorted.
    { apply sortByDate_Forall.
      eapply Forall_of_sublist; [| exact Hvalid].
      apply (removeLoop_spec l ∅). }
    pose proof (sortByDate_ascending (removeDuplicates l)) as Hasc.
    destruct (sortByDate dateOf (removeDuplicates l)) as [|first others];
      [done |].
    apply Forall_cons in Hsorted as [Hfirst Hothers].
    destruct (basicLoop_separated others first Hfirst Hothers Hasc)
      as (Hsep & Hasc' & _).
    by split.
Qed.

End BasicResolver.

Lemma resolveBasicConflicts_separated_witness :
  let dateOf := λ text : string, Z.of_nat (String.length text) in
  let l := [ mkRawStatus "bbb" "bbbbbbbb" "running" tt;
             mkRawStatus "a" "aaaaa" "stopped" tt;
             mkRawStatus "bbb" "bbbbbbbb" "running" tt ] in
  Forall (validRaw dateOf) l
  ∧ separated dateOf (resolveBasicConflicts dateOf l).
Proof.
  intros dateOf l.
  assert (Forall (validRaw dateOf) l) as H
    by (repeat constructor; unfold validRaw; cbn; lia).
  split; [exact H |].
  exact (proj1 (resolveBasicConflicts_separated dateOf l H)).
Defined.

End BasicProperties.

(** ** Statuses through the overlap resolver *)

Lemma resolveConflictTraditional_status cfg (status1 status2 : StatusRecord) :
  status (resolveConflictTraditional cfg status1 status2) = status status1
  ∨ status (resolveConflictTraditional cfg status1 status2) = status status2.
Proof.
  unfold resolveConflictTraditional. cbv zeta.
  repeat (match goal with
          | |- context [if ?b then _ else _] => destruct b
          end); auto.
Qed.

Lemma resolveOverlap_status cfg equipmentName (current s : StatusRecord) :
  status (resolveOverlap cfg equipmentName current s) = status current
  ∨ status (resolveOverlap cfg equipmentName current s) = status s.
Proof.
  unfold resolveOverlap.
  destruct (resolveConflictAdvanced cfg current s equipmentName)
    as [[|] conf | w1 w2 | r]; cbn [withEnd withConfidence status]; auto.
  - unfold mergeStatusWithWeight. cbv zeta. cbn [status].
    destruct (PrimFloat.ltb _ _); auto.
  - apply resolveConflictTraditional_status.
Qed.

Lemma resolveLoop_statuses cfg equipmentName (rest : list StatusRecord) :
  ∀ current,
    Forall (λ r, status r ∈ status current :: (status <$> rest))
           (resolveLoop cfg equipmentName current rest).
Proof.
  induction rest as [|s rest' IH]; intros current.
  - cbn. repeat constructor.
  - cbn [resolveLoop]. rewrite fmap_cons.
    destruct (hasOverlap current s).
    + eapply Forall_impl; [apply IH |]. cbn beta.
      intros r [E | Hr]%elem_of_cons.
      * rewrite E.
        destruct (resolveOverlap_status cfg equipmentName current s)
          as [-> | ->]; [by left | right; by left].
      * by do 2 right.
    + constructor; [by left |].
      eapply Forall_impl; [apply IH |]. cbn beta.
      intros r Hr. by right.
Qed.

(** X28: the overlap resolver invents no status. Under every strategy,
    the status of each record that [resolveOverlapsAdvanced] returns is
    the status of one of its input records. *)
Theorem resolveOverlapsAdvanced_statuses (cfg : Config)
    (statusList : list StatusRecord) (equipmentName : string) :
  Forall (λ r, status r ∈ status <$> statusList)
         (resolveOverlapsAdvanced cfg statusList equipmentName).
Proof.
  destruct statusList as [|first [|second rest]].
  - constructor.
  - repeat constructor.
  - apply (resolveLoop_statuses cfg equipmentName (second :: rest) first).
Qed.
